(** * HTML to Design: the style-tree to scene-graph engine of [code.ts]

    A shallow embedding of the plugin worker (value parsers, font
    resolver, layout resolver, scene graph builder, style pass) together
    with the properties of its specification.

    Conventions of the embedding.
    - A JavaScript number is an IEEE 754 binary64 value, taken from the
      standard library's [spec_float] with [prec = 53], [emax = 1024].
    - A JavaScript string is a [string]; one [ascii] stands for one UTF-16
      code unit below 256.  Character classes ([\s], [\d], [.]) and the
      case conversions are the ECMAScript ones restricted to that range.
    - [undefined]/[null] are [None]; a [Record<string,string>] is a
      [gmap string string].
    - The canvas host ([figma]) is a store of nodes with property bags;
      the builder threads it explicitly.  A thrown exception is the
      [Throw] outcome. *)

From Stdlib Require Import ZArith List String Ascii Bool Lia.
From Stdlib Require Import Floats.SpecFloat.
From stdpp Require Import base option gmap strings list.

(** ** JavaScript numbers *)

Module Num.

Local Open Scope Z_scope.

Definition Number := spec_float.

Definition prec : Z := 53.
Definition emax : Z := 1024.

Definition NaN : Number := S754_nan.
Definition add : Number -> Number -> Number := SFadd prec emax.
Definition sub : Number -> Number -> Number := SFsub prec emax.
Definition mul : Number -> Number -> Number := SFmul prec emax.
Definition div : Number -> Number -> Number := SFdiv prec emax.

(** The integer [z] as a number (rounded to nearest even when it needs
    more than 53 bits). *)
Definition ofZ (z : Z) : Number := binary_normalize prec emax z 0 false.

(** The rational [(-1)^neg * p / q], correctly rounded. *)
Definition ofRatio (neg : bool) (p q : positive) : Number :=
  div (S754_finite neg p 0) (S754_finite false q 0).

(** The decimal [(-1)^neg * m * 10^e10], correctly rounded: the value
    of a decimal literal. *)
Definition ofDecimal (neg : bool) (m : Z) (e10 : Z) : Number :=
  match m with
  | Zpos p =>
      match e10 with
      | Zneg k => ofRatio neg p (10 ^ k)%positive
      | _ => binary_normalize prec emax (if neg then - (m * 10 ^ e10) else m * 10 ^ e10) 0 false
      end
  | _ => S754_zero neg
  end.

Definition isNaN (x : Number) : bool :=
  match x with S754_nan => true | _ => false end.

Definition isFinite (x : Number) : bool :=
  match x with S754_zero _ | S754_finite _ _ _ => true | _ => false end.

(** [x < y], [x > y], [x >= y], [x === y] on numbers. *)
Definition ltb (x y : Number) : bool := SFltb x y.
Definition gtb (x y : Number) : bool := SFltb y x.
Definition geb (x y : Number) : bool := SFleb y x.
Definition eqb (x y : Number) : bool := SFeqb x y.

(** ToBoolean of a number: false for [+0], [-0] and [NaN]. *)
Definition truthy (x : Number) : bool :=
  match x with
  | S754_zero _ | S754_nan => false
  | _ => true
  end.

(** SameValueZero, the key equality of [Map] and [Set]. *)
Definition sameValueZero (x y : Number) : bool :=
  match x, y with
  | S754_nan, S754_nan => true
  | _, _ => eqb x y
  end.

(** [Math.max(a, b)] and [Math.min(a, b)]. *)
Definition max (a b : Number) : Number :=
  match a, b with
  | S754_nan, _ | _, S754_nan => S754_nan
  | S754_zero sa, S754_zero sb => S754_zero (sa && sb)
  | _, _ => if ltb a b then b else a
  end.

Definition min (a b : Number) : Number :=
  match a, b with
  | S754_nan, _ | _, S754_nan => S754_nan
  | S754_zero sa, S754_zero sb => S754_zero (sa || sb)
  | _, _ => if ltb b a then b else a
  end.

(** [Math.floor] and [Math.round] (round half up), computed exactly. *)
Definition floor (x : Number) : Number :=
  match x with
  | S754_finite s m (Zneg k) =>
      let n := (if s then - Zpos m else Zpos m) / 2 ^ Zpos k in
      binary_normalize prec emax n 0 s
  | _ => x
  end.

Definition round (x : Number) : Number :=
  match x with
  | S754_finite s m (Zneg k) =>
      let n := (2 * (if s then - Zpos m else Zpos m) + 2 ^ Zpos k) / 2 ^ (Zpos k + 1) in
      binary_normalize prec emax n 0 s
  | _ => x
  end.

(** The integer part of a finite number, [None] for [NaN] and the
    infinities. *)
Definition truncZ (x : Number) : option Z :=
  match x with
  | S754_zero _ => Some 0
  | S754_finite s m e =>
      let a := match e with
               | Zneg k => Zpos m / 2 ^ Zpos k
               | _ => Zpos m * 2 ^ e
               end in
      Some (if s then - a else a)
  | _ => None
  end.

Definition zero : Number := S754_zero false.
Definition one : Number := ofZ 1.

Definition neg (x : Number) : Number := SFopp x.

(** [x % y]: the remainder has the sign of the dividend and is exact. *)
Definition rem (x y : Number) : Number :=
  match x, y with
  | S754_nan, _ | _, S754_nan => S754_nan
  | S754_infinity _, _ | _, S754_zero _ => S754_nan
  | _, S754_infinity _ => x
  | S754_zero _, _ => x
  | S754_finite sx mx ex, S754_finite _ my ey =>
      let e := Z.min ex ey in
      let r := Z.rem (Zpos mx * 2 ^ (ex - e)) (Zpos my * 2 ^ (ey - e)) in
      binary_normalize prec emax (if sx then - r else r) e sx
  end.

(** [Math.PI] *)
Definition PI : Number := S754_finite false 7074237752028440 (-51).

End Num.

Abbreviation Number := Num.Number.

(** ** JavaScript strings *)

Module Str.

Definition chars := list ascii.

Definition ofString : string -> chars := list_ascii_of_string.
Definition toString : chars -> string := string_of_list_ascii.

Definition code (c : ascii) : nat := nat_of_ascii c.

Definition isDigit (c : ascii) : bool :=
  (48 <=? code c)%nat && (code c <=? 57)%nat.

(** WhiteSpace and LineTerminator code units below 256: TAB, LF, VT, FF,
    CR, SP and NBSP.  This is both [\s] and what [trim] removes. *)
Definition isSpace (c : ascii) : bool :=
  let n := code c in
  ((9 <=? n)%nat && (n <=? 13)%nat) || (n =? 32)%nat || (n =? 160)%nat.

Definition isLineTerminator (c : ascii) : bool :=
  (code c =? 10)%nat || (code c =? 13)%nat.

Definition lowerChar (c : ascii) : ascii :=
  let n := code c in
  if ((65 <=? n)%nat && (n <=? 90)%nat)
     || ((192 <=? n)%nat && (n <=? 222)%nat && negb (n =? 215)%nat)
  then ascii_of_nat (n + 32) else c.

(** Upper case of the code units that stay below 256 ([a-z] and the
    Latin-1 letters other than U+00DF, U+00B5 and U+00FF). *)
Definition upperChar (c : ascii) : ascii :=
  let n := code c in
  if ((97 <=? n)%nat && (n <=? 122)%nat)
     || ((224 <=? n)%nat && (n <=? 254)%nat && negb (n =? 247)%nat)
  then ascii_of_nat (n - 32) else c.

Definition toLowerCase (s : chars) : chars := map lowerChar s.
Definition toUpperCase (s : chars) : chars := map upperChar s.

Fixpoint dropWhile (p : ascii -> bool) (s : chars) : chars :=
  match s with
  | c :: s' => if p c then dropWhile p s' else s
  | [] => []
  end.

Fixpoint takeWhile (p : ascii -> bool) (s : chars) : chars :=
  match s with
  | c :: s' => if p c then c :: takeWhile p s' else []
  | [] => []
  end.

Definition trimStart (s : chars) : chars := dropWhile isSpace s.
Definition trimEnd (s : chars) : chars := rev (dropWhile isSpace (rev s)).
Definition trim (s : chars) : chars := trimEnd (trimStart s).

Definition ceqb (a b : ascii) : bool := Ascii.eqb a b.

Fixpoint startsWith (p s : chars) : bool :=
  match p, s with
  | [], _ => true
  | a :: p', b :: s' => ceqb a b && startsWith p' s'
  | _ :: _, [] => false
  end.

Definition endsWith (p s : chars) : bool := startsWith (rev p) (rev s).

Fixpoint includes (p s : chars) : bool :=
  startsWith p s ||
  match s with
  | [] => false
  | _ :: s' => includes p s'
  end.

Fixpoint eqbChars (a b : chars) : bool :=
  match a, b with
  | [], [] => true
  | x :: a', y :: b' => ceqb x y && eqbChars a' b'
  | _, _ => false
  end.

(** [s.split(/\s+/)]: the pieces between maximal runs of white space,
    empty first and last pieces included. *)
Fixpoint splitWsGo (inws : bool) (cur : chars) (s : chars) : list chars :=
  match s with
  | [] => [rev cur]
  | c :: s' =>
      if isSpace c
      then if inws then splitWsGo true cur s' else rev cur :: splitWsGo true [] s'
      else splitWsGo false (c :: cur) s'
  end.

Definition splitWs (s : chars) : list chars := splitWsGo false [] s.

(** [s.split(sep)] for a one-character separator. *)
Fixpoint splitCharGo (sep : ascii) (cur : chars) (s : chars) : list chars :=
  match s with
  | [] => [rev cur]
  | c :: s' =>
      if ceqb c sep then rev cur :: splitCharGo sep [] s'
      else splitCharGo sep (c :: cur) s'
  end.

Definition splitChar (sep : ascii) (s : chars) : list chars := splitCharGo sep [] s.

(** [.filter(Boolean)] on an array of strings. *)
Definition nonEmpty (l : list chars) : list chars :=
  List.filter (fun t => match t with [] => false | _ => true end) l.

Definition padStart (n : nat) (fill : ascii) (s : chars) : chars :=
  repeat fill (n - length s) ++ s.

Definition hexDigit (d : Z) : ascii :=
  ascii_of_nat (Z.to_nat (if (d <? 10)%Z then 48 + d else 87 + d)%Z).

Fixpoint hexDigitsGo (fuel : nat) (n : Z) (acc : chars) : chars :=
  match fuel with
  | O => acc
  | S fuel' =>
      if (n <? 16)%Z then hexDigit n :: acc
      else hexDigitsGo fuel' (n / 16)%Z (hexDigit (n mod 16)%Z :: acc)
  end.

(** The digits of a non-negative integer in radix 16. *)
Definition hexOfZ (n : Z) : chars := hexDigitsGo (S (Z.to_nat (Z.log2 n))) n [].

(** [x.toString(16)] for [NaN], the infinities and the integers (the
    values [Math.round] returns); the fraction of any other number is
    not printed. *)
Definition numberToString16 (x : Number) : chars :=
  match x with
  | S754_nan => ofString "NaN"
  | S754_infinity false => ofString "Infinity"
  | S754_infinity true => ofString "-Infinity"
  | _ =>
      match Num.truncZ x with
      | Some z => if (z <? 0)%Z then "-"%char :: hexOfZ (- z) else hexOfZ z
      | None => []
      end
  end.

Definition digitVal (c : ascii) : Z := Z.of_nat (code c) - 48.

Definition digitsVal (ds : chars) : Z :=
  fold_left (fun acc c => acc * 10 + digitVal c)%Z ds 0%Z.

(** Value of a digit of radix up to 36, if it is one. *)
Definition radixDigit (c : ascii) : option Z :=
  let n := code c in
  if isDigit c then Some (Z.of_nat n - 48)%Z
  else if ((97 <=? n)%nat && (n <=? 122)%nat) then Some (Z.of_nat n - 87)%Z
  else if ((65 <=? n)%nat && (n <=? 90)%nat) then Some (Z.of_nat n - 55)%Z
  else None.

Definition isRadixDigit (radix : Z) (c : ascii) : bool :=
  match radixDigit c with
  | Some d => (d <? radix)%Z
  | None => false
  end.

Definition radixVal (radix : Z) (ds : chars) : Z :=
  fold_left (fun acc c => acc * radix + default 0 (radixDigit c))%Z ds 0%Z.

(** An optional sign: [(negative, rest)]. *)
Definition takeSign (s : chars) : bool * chars :=
  match s with
  | c :: s' =>
      if ceqb c "-" then (true, s')
      else if ceqb c "+" then (false, s')
      else (false, s)
  | [] => (false, s)
  end.

(** The longest prefix that is a StrUnsignedDecimalLiteral, with its
    value and what follows it. *)
Definition unsignedDecimal (neg : bool) (s : chars) : option (Number * chars) :=
  if startsWith (ofString "Infinity") s
  then Some (S754_infinity neg, drop 8 s)
  else
    let ip := takeWhile isDigit s in
    let r1 := dropWhile isDigit s in
    let '(fp, r2, dot) :=
      match r1 with
      | c :: r =>
          if ceqb c "." then (takeWhile isDigit r, dropWhile isDigit r, true)
          else ([], r1, false)
      | [] => ([], r1, false)
      end in
    match ip, fp with
    | [], [] => None
    | _, _ =>
        let '(ex, r3) :=
          match r2 with
          | c :: r =>
              if ceqb c "e" || ceqb c "E" then
                let '(eneg, r') := takeSign r in
                match takeWhile isDigit r' with
                | [] => (0%Z, r2)
                | ed => ((if eneg then - digitsVal ed else digitsVal ed)%Z,
                         dropWhile isDigit r')
                end
              else (0%Z, r2)
          | [] => (0%Z, r2)
          end in
        Some (Num.ofDecimal neg (digitsVal (ip ++ fp)) (ex - Z.of_nat (length fp)), r3)
    end.

(** [parseFloat(s)]. *)
Definition parseFloat (s : chars) : Number :=
  let '(neg, r) := takeSign (trimStart s) in
  match unsignedDecimal neg r with
  | Some (x, _) => x
  | None => Num.NaN
  end.

Definition prefixedInteger (radix : Z) (ds : chars) : Number :=
  match ds with
  | [] => Num.NaN
  | _ => if forallb (isRadixDigit radix) ds then Num.ofZ (radixVal radix ds) else Num.NaN
  end.

(** [Number(s)], the StringToNumber conversion. *)
Definition toNumber (s : chars) : Number :=
  match trim s with
  | [] => Num.zero
  | t =>
      match t with
      | z :: x :: ds =>
          if ceqb z "0" && (ceqb x "x" || ceqb x "X") then prefixedInteger 16 ds
          else if ceqb z "0" && (ceqb x "o" || ceqb x "O") then prefixedInteger 8 ds
          else if ceqb z "0" && (ceqb x "b" || ceqb x "B") then prefixedInteger 2 ds
          else
            let '(neg, r) := takeSign t in
            match unsignedDecimal neg r with
            | Some (v, []) => v
            | _ => Num.NaN
            end
      | _ =>
          let '(neg, r) := takeSign t in
          match unsignedDecimal neg r with
          | Some (v, []) => v
          | _ => Num.NaN
          end
      end
  end.

(** [Number.parseInt(s, 16)]. *)
Definition parseInt16 (s : chars) : Number :=
  let '(neg, r) := takeSign (trimStart s) in
  let r' :=
    match r with
    | z :: x :: ds => if ceqb z "0" && (ceqb x "x" || ceqb x "X") then ds else r
    | _ => r
    end in
  match takeWhile (isRadixDigit 16) r' with
  | [] => Num.NaN
  | ds =>
      let v := radixVal 16 ds in
      if neg then (if (v =? 0)%Z then S754_zero true else Num.ofZ (- v)) else Num.ofZ v
  end.

End Str.

Abbreviation chars := Str.chars.

(** ** Regular expressions

    A backtracking matcher with the ECMAScript priorities: alternatives
    left to right, greedy or lazy iteration, an iteration that consumes
    nothing is rejected, the leftmost start position wins. *)

Module Regex.

Inductive regex : Type :=
| Eps
| Chr (p : ascii -> bool)
| Seq (a b : regex)
| Alt (a b : regex)
| Star (greedy : bool) (a : regex)
| Group (i : nat) (a : regex)
| Backref (i : nat)
| Bol
| Eol.

Definition Plus (a : regex) : regex := Seq a (Star true a).
Definition PlusLazy (a : regex) : regex := Seq a (Star false a).
Definition Opt (a : regex) : regex := Alt a Eps.

Definition chr (c : ascii) : regex := Chr (Str.ceqb c).

(** A character matched under the [i] flag. *)
Definition chri (c : ascii) : regex :=
  Chr (fun x => Str.ceqb (Str.upperChar x) (Str.upperChar c)).

Fixpoint lit (s : chars) : regex :=
  match s with
  | [] => Eps
  | [c] => chr c
  | c :: s' => Seq (chr c) (lit s')
  end.

Fixpoint liti (s : chars) : regex :=
  match s with
  | [] => Eps
  | [c] => chri c
  | c :: s' => Seq (chri c) (liti s')
  end.

Definition digit : regex := Chr Str.isDigit.
Definition space : regex := Chr Str.isSpace.
Definition spaces : regex := Star true space.
(** [.] *)
Definition anyChar : regex := Chr (fun c => negb (Str.isLineTerminator c)).

Definition captures := list (nat * chars).

Fixpoint getcap (i : nat) (c : captures) : option chars :=
  match c with
  | [] => None
  | (j, w) :: c' => if (i =? j)%nat then Some w else getcap i c'
  end.

Section Iteration.
  Context {R : Type}.
  (** The matcher of the iterated expression and the continuation of
      the iteration. *)
  Variable step : chars -> captures -> (chars -> captures -> option R) -> option R.
  Variable g : bool.
  Variable k : chars -> captures -> option R.

  (** [a*] (greedy) or [a*?] (lazy); the fuel is the length of the
      subject, which every accepted iteration shortens. *)
Fixpoint starLoop (fuel : nat) (s : chars) (caps : captures) : option R :=
    let iter :=
      match fuel with
      | O => None
      | S fuel' =>
          step s caps
            (fun s1 c1 =>
               if (length s1 <? length s)%nat then starLoop fuel' s1 c1 else None)
      end in
    if g
    then match iter with Some x => Some x | None => k s caps end
    else match k s caps with Some x => Some x | None => iter end.
End Iteration.

Section Matcher.
  Context {R : Type}.
  (** Length of the whole subject, to recognise its start. *)
  Variable whole : nat.

Fixpoint rmatch (r : regex) (s : chars) (caps : captures)
      (k : chars -> captures -> option R) {struct r} : option R :=
    match r with
    | Eps => k s caps
    | Chr p =>
        match s with
        | c :: s' => if p c then k s' caps else None
        | [] => None
        end
    | Seq a b => rmatch a s caps (fun s1 c1 => rmatch b s1 c1 k)
    | Alt a b =>
        match rmatch a s caps k with
        | Some x => Some x
        | None => rmatch b s caps k
        end
    | Star g a => starLoop (rmatch a) g k (length s) s caps
    | Group i a =>
        rmatch a s caps
          (fun s1 c1 => k s1 ((i, take (length s - length s1) s) :: c1))
    | Backref i =>
        match getcap i caps with
        | None => k s caps
        | Some w => if Str.startsWith w s then k (drop (length w) s) caps else None
        end
    | Bol => if (length s =? whole)%nat then k s caps else None
    | Eol => match s with [] => k s caps | _ :: _ => None end
    end.
End Matcher.

(** A successful match: where it starts, the matched text, the capture
    groups and the text after the match. *)
Record rmatchResult := MkMatch {
  mIndex : nat;
  mText : chars;
  mCaps : captures;
  mRest : chars
}.

Definition matchAt (r : regex) (whole : nat) (s : chars) : option rmatchResult :=
  rmatch whole r s []
    (fun s' c => Some (MkMatch (whole - length s) (take (length s - length s') s) c s')).

(** Leftmost match at or after the start of [s], a suffix of a subject
    of length [whole]. *)
Fixpoint searchFrom (r : regex) (whole : nat) (s : chars) : option rmatchResult :=
  match matchAt r whole s with
  | Some m => Some m
  | None =>
      match s with
      | [] => None
      | _ :: s' => searchFrom r whole s'
      end
  end.

(** [r.exec(s)] for a regular expression without the [g] flag. *)
Definition exec (r : regex) (s : chars) : option rmatchResult :=
  searchFrom r (length s) s.

Definition test (r : regex) (s : chars) : bool :=
  match exec r s with Some _ => true | None => false end.

Definition group (i : nat) (m : rmatchResult) : option chars := getcap i (mCaps m).

(** All matches of a [g] regular expression, left to right, each search
    starting where the previous match ended (one further when that match
    was empty).  The pieces between the matches are kept for
    [replaceAll]. *)
Fixpoint matchAllGo (fuel : nat) (r : regex) (whole : nat) (s : chars)
    : list rmatchResult * list chars :=
  match fuel with
  | O => ([], [s])
  | S fuel' =>
      match searchFrom r whole s with
      | None => ([], [s])
      | Some m =>
          let before := take (mIndex m - (whole - length s)) s in
          match mText m, mRest m with
          | [], c :: rest' =>
              let '(ms, ps) := matchAllGo fuel' r whole rest' in
              (m :: ms,
               before :: match ps with p :: ps' => (c :: p) :: ps' | [] => [[c]] end)
          | [], [] => ([m], [before; []])
          | _, rest =>
              let '(ms, ps) := matchAllGo fuel' r whole rest in
              (m :: ms, before :: ps)
          end
      end
  end.

Definition matchAll (r : regex) (s : chars) : list rmatchResult :=
  fst (matchAllGo (S (length s)) r (length s) s).

(** [s.replaceAll(r, by)] for a [g] regular expression and a replacement
    without [$] patterns. *)
Definition replaceAll (r : regex) (by_ : chars) (s : chars) : chars :=
  match snd (matchAllGo (S (length s)) r (length s) s) with
  | [] => []
  | p :: ps => p ++ concat (map (fun q => by_ ++ q) ps)
  end.

(** The words of a regular expression without anchors and
    back-references. *)
Fixpoint lang (r : regex) (w : chars) : Prop :=
  match r with
  | Eps => w = []
  | Chr p => exists c, w = [c] /\ p c = true
  | Seq a b => exists w1 w2, w = w1 ++ w2 /\ lang a w1 /\ lang b w2
  | Alt a b => lang a w \/ lang b w
  | Star _ a => exists ws, w = concat ws /\ Forall (lang a) ws
  | Group _ a => lang a w
  | Backref _ => False
  | Bol => False
  | Eol => False
  end.

Fixpoint plain (r : regex) : bool :=
  match r with
  | Eps | Chr _ => true
  | Seq a b | Alt a b => plain a && plain b
  | Star _ a | Group _ a => plain a
  | Backref _ | Bol | Eol => false
  end.

End Regex.

Import Regex.

(** ** Value parsers *)

Abbreviation Style := (gmap string string).

(** A string that is neither [undefined] nor empty: [if (v)]. *)
Definition nonEmptyStr (v : option string) : option chars :=
  match v with
  | Some s => match Str.ofString s with [] => None | cs => Some cs end
  | None => None
  end.

(** [a ?? b] *)
Definition orElse {A} (a : option A) (b : A) : A := default b a.
Definition orElseOpt {A} (a b : option A) : option A :=
  match a with Some _ => a | None => b end.

Definition n255 : Number := Num.ofZ 255.
Definition n100 : Number := Num.ofZ 100.

(** [/(-?\d+(?:\.\d+)?)px/] *)
Definition pxRegex : regex :=
  Seq (Group 1 (Seq (Opt (chr "-"))
                 (Seq (Plus digit) (Opt (Seq (chr ".") (Plus digit))))))
      (lit (Str.ofString "px")).

Definition parsePxChars (v : chars) : option Number :=
  match exec pxRegex (Str.trim v) with
  | Some m => Some (Str.toNumber (default [] (group 1 m)))
  | None => None
  end.

Definition parsePx (v : option string) : option Number :=
  match nonEmptyStr v with
  | None => None
  | Some cs => parsePxChars cs
  end.

Definition parseNumber (v : option string) : option Number :=
  match nonEmptyStr v with
  | None => None
  | Some cs =>
      let n := Str.toNumber (Str.trim cs) in
      if Num.isFinite n then Some n else None
  end.

Record RGB := MkRGB { cr : Number; cg : Number; cb : Number }.
Record RGBA := MkRGBA { ar : Number; ag : Number; ab : Number; aa : Number }.

Definition rgbPrefix : regex :=
  Seq (lit (Str.ofString "rgb")) (Seq (Opt (chr "a")) (Seq spaces (Seq (chr "(") spaces))).

Definition commaSep : regex := Seq spaces (Seq (chr ",") spaces).

(** [/rgba?\s*\(\s*(\d+)\s*,\s*(\d+)\s*,\s*(\d+)(?:\s*,\s*([\d.]+))?\s*\)/] *)
Definition rgbIntRegex : regex :=
  Seq rgbPrefix
  (Seq (Group 1 (Plus digit)) (Seq commaSep
  (Seq (Group 2 (Plus digit)) (Seq commaSep
  (Seq (Group 3 (Plus digit))
  (Seq (Opt (Seq commaSep
               (Group 4 (Plus (Chr (fun c => Str.isDigit c || Str.ceqb c "."))))))
  (Seq spaces (chr ")")))))))).

Definition slice (from to : nat) (s : chars) : chars := take (to - from) (drop from s).

Definition parseColorChars (v : chars) : option RGB :=
  let s := Str.toLowerCase (Str.trim v) in
  if Str.startsWith ["#"%char] s then
    let hex := drop 1 s in
    let norm := if (length hex =? 3)%nat then concat (map (fun c => [c; c]) hex) else hex in
    Some (MkRGB (Num.div (Str.parseInt16 (slice 0 2 norm)) n255)
                (Num.div (Str.parseInt16 (slice 2 4 norm)) n255)
                (Num.div (Str.parseInt16 (slice 4 6 norm)) n255))
  else
    match exec rgbIntRegex s with
    | Some m =>
        let g i := Num.div (Str.toNumber (default [] (group i m))) n255 in
        Some (MkRGB (g 1%nat) (g 2%nat) (g 3%nat))
    | None => None
    end.

Definition parseColor (v : option string) : option RGB :=
  match nonEmptyStr v with
  | None => None
  | Some cs => parseColorChars cs
  end.

(** [[\d.]+%?] *)
Definition channel : regex :=
  Seq (Plus (Chr (fun c => Str.isDigit c || Str.ceqb c "."))) (Opt (chr "%")).

(** [/rgba?\s*\(\s*([\d.]+%?)\s+([\d.]+%?)\s+([\d.]+%?)(?:\s*\/\s*([\d.]+%?))?\s*\)/] *)
Definition modernRe : regex :=
  Seq rgbPrefix
  (Seq (Group 1 channel) (Seq (Plus space)
  (Seq (Group 2 channel) (Seq (Plus space)
  (Seq (Group 3 channel)
  (Seq (Opt (Seq spaces (Seq (chr "/") (Seq spaces (Group 4 channel)))))
  (Seq spaces (chr ")")))))))).

(** [/rgba?\s*\(\s*([\d.]+%?)\s*,\s*([\d.]+%?)\s*,\s*([\d.]+%?)(?:\s*,\s*([\d.]+%?))?\s*\)/] *)
Definition legacyRe : regex :=
  Seq rgbPrefix
  (Seq (Group 1 channel) (Seq commaSep
  (Seq (Group 2 channel) (Seq commaSep
  (Seq (Group 3 channel)
  (Seq (Opt (Seq commaSep (Group 4 channel)))
  (Seq spaces (chr ")")))))))).

Definition parseVal (val : chars) : Number :=
  if Str.endsWith ["%"%char] val
  then Num.mul (Num.div (Str.parseFloat val) n100) n255
  else Str.parseFloat val.

Definition parseAlpha (val : option chars) : Number :=
  match val with
  | None | Some [] => Num.one
  | Some v =>
      if Str.endsWith ["%"%char] v then Num.div (Str.parseFloat v) n100
      else Str.parseFloat v
  end.

Definition rgbaOfMatch (m : rmatchResult) : RGBA :=
  let g i := Num.div (parseVal (default [] (group i m))) n255 in
  MkRGBA (g 1%nat) (g 2%nat) (g 3%nat) (parseAlpha (group 4 m)).

Definition parseColorWithAlphaChars (v : chars) : option RGBA :=
  let s := Str.toLowerCase (Str.trim v) in
  if Str.eqbChars s (Str.ofString "transparent")
  then Some (MkRGBA Num.zero Num.zero Num.zero Num.zero)
  else if Str.startsWith ["#"%char] s then
    match parseColorChars s with
    | Some base => Some (MkRGBA (cr base) (cg base) (cb base) Num.one)
    | None => None
    end
  else
    match exec modernRe s with
    | Some m => Some (rgbaOfMatch m)
    | None =>
        match exec legacyRe s with
        | Some m => Some (rgbaOfMatch m)
        | None => None
        end
    end.

Definition parseColorWithAlpha (v : option string) : option RGBA :=
  match nonEmptyStr v with
  | None => None
  | Some cs => parseColorWithAlphaChars cs
  end.

Definition hexByte (x : Number) : chars :=
  Str.padStart 2 "0" (Str.numberToString16 (Num.round (Num.mul x n255))).

Definition hexOf (color : RGB) : string :=
  Str.toString
    (Str.toUpperCase ("#"%char :: hexByte (cr color) ++ hexByte (cg color) ++ hexByte (cb color))).

Record BoxEdges := MkBox {
  box_top : Number; box_right : Number; box_bottom : Number; box_left : Number
}.

Definition getBox (style : Style) (base : string) : BoxEdges :=
  let one := style !! base in
  let top := parsePx (style !! (base +:+ "-top")) in
  let right := parsePx (style !! (base +:+ "-right")) in
  let bottom := parsePx (style !! (base +:+ "-bottom")) in
  let left := parsePx (style !! (base +:+ "-left")) in
  let '(t, r, b, l) :=
    match nonEmptyStr one with
    | None => (top, right, bottom, left)
    | Some cs =>
        let parts := Str.nonEmpty (Str.splitWs cs) in
        let vals := map (fun p => parsePx (Some (Str.toString p))) parts in
        match vals with
        | [Some v0] => (Some v0, Some v0, Some v0, Some v0)
        | [Some v0; Some v1] => (Some v0, Some v1, Some v0, Some v1)
        | [Some v0; Some v1; Some v2] => (Some v0, Some v1, Some v2, Some v1)
        | [v0; v1; v2; v3] => (v0, v1, v2, v3)
        | _ => (top, right, bottom, left)
        end
    end in
  MkBox (orElse t Num.zero) (orElse r Num.zero) (orElse b Num.zero) (orElse l Num.zero).

(** [/repeat\(\s*(\d+)\s*,/gi] *)
Definition repeatRegex : regex :=
  Seq (liti (Str.ofString "repeat("))
  (Seq spaces (Seq (Group 1 (Plus digit)) (Seq spaces (chr ",")))).

(** [Number(x) || 0] *)
Definition numberOrZero (x : Number) : Number := if Num.truthy x then x else Num.zero.

Definition isTrackToken (t : chars) : bool :=
  match t with
  | [] => false
  | _ =>
      test (Seq Bol digit) t
      || existsb (Str.eqbChars (Str.toLowerCase t))
           [Str.ofString "auto"; Str.ofString "min-content"; Str.ofString "max-content"]
      || Str.startsWith (Str.ofString "minmax(") t
  end.

Definition countGridTracks (template : option string) : Number :=
  match nonEmptyStr template with
  | None => Num.zero
  | Some t =>
      if Str.eqbChars t (Str.ofString "none") then Num.zero
      else
        let count :=
          fold_left
            (fun c m => Num.add c (numberOrZero (Str.toNumber (default [] (group 1 m)))))
            (matchAll repeatRegex t) Num.zero in
        let stripped := replaceAll repeatRegex [" "%char] t in
        let tokens := List.filter isTrackToken (Str.splitWs (Str.trim stripped)) in
        Num.add count (Num.ofZ (Z.of_nat (length tokens)))
  end.

Definition parseGridColumnWidths (template : option string) : list Number :=
  match nonEmptyStr template with
  | None => []
  | Some t =>
      if Str.eqbChars t (Str.ofString "none") then []
      else
        omap (fun token => parsePx (Some (Str.toString token))) (Str.splitWs (Str.trim t))
  end.

(** [splitShadowList]: the state of the character loop is the
    parenthesis depth, the current entry (reversed) and the entries
    pushed so far (reversed). *)
Definition pushTrimmed (current : chars) (parts : list chars) : list chars :=
  match Str.trim (rev current) with
  | [] => parts
  | t => t :: parts
  end.

Fixpoint splitShadowListGo (depth : nat) (current : chars) (parts : list chars)
    (value : chars) : list chars :=
  match value with
  | [] => rev (pushTrimmed current parts)
  | char :: rest =>
      let depth := if Str.ceqb char "(" then S depth else depth in
      let depth := if Str.ceqb char ")" then Nat.pred depth else depth in
      if Str.ceqb char "," && (depth =? 0)%nat
      then splitShadowListGo depth [] (pushTrimmed current parts) rest
      else splitShadowListGo depth (char :: current) parts rest
  end.

Definition splitShadowList (value : chars) : list chars :=
  splitShadowListGo 0 [] [] value.

Record ShadowSpec := MkShadow {
  inset : bool;
  offsetX : Number;
  offsetY : Number;
  blur : Number;
  spread : Number;
  shadowColor : option RGBA
}.

(** [/rgba?\s*\([^)]+\)/i] *)
Definition rgbaCallRegex : regex :=
  Seq (liti (Str.ofString "rgb")) (Seq (Opt (chri "a")) (Seq spaces
  (Seq (chr "(") (Seq (Plus (Chr (fun c => negb (Str.ceqb c ")")))) (chr ")"))))).

Definition parseShadowDefinition (value : chars) : option ShadowSpec :=
  let tokens := Str.nonEmpty (Str.splitWs value) in
  let rgbaMatch := exec rgbaCallRegex value in
  let color0 :=
    match rgbaMatch with
    | Some m => parseColorWithAlpha (Some (Str.toString (mText m)))
    | None => None
    end in
  let step (acc : bool * list Number * option RGBA) (token : chars) :=
    let '(inset, numbers, color) := acc in
    if Str.eqbChars (Str.toLowerCase token) (Str.ofString "inset") then (true, numbers, color)
    else if match rgbaMatch with Some m => Str.includes token (mText m) | None => false end
    then acc
    else
      match parsePx (Some (Str.toString token)) with
      | Some px => (inset, numbers ++ [px], color)
      | None =>
          let num := Str.parseFloat token in
          if negb (Num.isNaN num) then (inset, numbers ++ [num], color)
          else
            match color with
            | Some _ => acc
            | None => (inset, numbers, parseColorWithAlpha (Some (Str.toString token)))
            end
      end in
  let '(inset, numbers, color) := fold_left step tokens (false, [], color0) in
  match numbers with
  | offsetX :: offsetY :: more =>
      Some (MkShadow inset offsetX offsetY
              (nth 0 more Num.zero) (nth 1 more Num.zero) color)
  | _ => None
  end.

(** The quote class of the source's patterns: an apostrophe or a
    double quote (code unit 34). *)
Definition dquote : ascii := ascii_of_nat 34.
Definition quoteChar : regex := Chr (fun c => Str.ceqb c "'" || Str.ceqb c dquote).

(** [/url\((Q?)(.+?)\1\)/i], with [Q] the quote class. *)
Definition urlPattern : regex :=
  Seq (liti (Str.ofString "url(")) (Seq
    (Group 1 (Opt quoteChar))
    (Seq (Group 2 (PlusLazy anyChar)) (Seq (Backref 1) (chr ")")))).

Definition extractImageReference (value : option string) : option string :=
  match nonEmptyStr value with
  | None => None
  | Some cs =>
      match exec urlPattern cs with
      | Some m => Some (Str.toString (default [] (group 2 m)))
      | None => None
      end
  end.

(** ** The input tree *)

#[warnings="-register-all"]
Inductive JsonNode : Type :=
| JText (text : string)
| JElement (tag : string) (attrs : list (string * string)) (style : Style)
    (children : list JsonNode).

(** Property lookup in an attribute object (its keys are distinct). *)
Fixpoint attr (attrs : list (string * string)) (key : string) : option string :=
  match attrs with
  | [] => None
  | (k, v) :: rest => if String.eqb k key then Some v else attr rest key
  end.

Definition cat (a b : string) : string := a +:+ b.

(** The text of one child as [childrenText] adds it to [out]: a text
    node gives its text, an element the [childrenText] of its children. *)
Fixpoint nodeText (n : JsonNode) : string :=
  match n with
  | JText text => text
  | JElement _ _ _ kids =>
      Str.toString (Str.trim (Str.ofString
        ((fix each (cs : list JsonNode) (out : string) {struct cs} : string :=
            match cs with
            | [] => out
            | c :: rest => each rest (cat out (cat (nodeText c) " "))
            end) kids ""%string)))
  end.

Definition childrenText (children : list JsonNode) : string :=
  Str.toString (Str.trim (Str.ofString
    (fold_left (fun out c => cat out (cat (nodeText c) " ")) children ""%string))).

Definition hasTextChildren (children : list JsonNode) : bool :=
  existsb (fun child => match child with JText _ => true | _ => false end) children.

(** ** Fonts *)

Record FontName := fontNameOf { family : string; fstyle : string }.

Global Instance FontName_eq_dec : EqDecision FontName.
Proof. solve_decision. Defined.

Definition FONT_FALLBACKS : list (string * string) :=
  [ ("Roboto", "Inter"); ("Open Sans", "Inter"); ("Montserrat", "Inter");
    ("Lato", "Inter"); ("Poppins", "Inter"); ("Source Sans Pro", "Inter");
    ("Raleway", "Inter"); ("Nunito", "Inter"); ("Ubuntu", "Inter");
    ("Mukta", "Inter"); ("PT Sans", "Arial"); ("Merriweather", "Georgia");
    ("Playfair Display", "Georgia"); ("Oswald", "Arial Black") ]%string.

(** The names under which every object finds an inherited member: for
    these [FONT_FALLBACKS[name]] and [map[name]] give a function (for
    [__proto__] the prototype object) although the object literal has
    no such entry. *)
Definition OBJECT_PROTOTYPE : list string :=
  [ "constructor"; "__defineGetter__"; "__defineSetter__"; "hasOwnProperty";
    "__lookupGetter__"; "__lookupSetter__"; "isPrototypeOf"; "propertyIsEnumerable";
    "toString"; "valueOf"; "__proto__"; "toLocaleString" ]%string.

(** A font name as the engine hands it to the host: its family is a
    string, or it is the inherited member [FONT_FALLBACKS] gave under
    the name [member]. *)
Inductive FontValue :=
| Font (f : FontName)
| InheritedFont (member : string) (style : string).

Coercion Font : FontName >-> FontValue.

Global Instance FontValue_eq_dec : EqDecision FontValue.
Proof. solve_decision. Defined.

Definition buildFontAttempts (font : FontName) : list FontValue :=
  let attempts := [Font (fontNameOf (family font) (fstyle font))] in
  let attempts :=
    match nonEmptyStr (attr FONT_FALLBACKS (family font)) with
    | Some _ =>
        let fallbackFamily := default ""%string (attr FONT_FALLBACKS (family font)) in
        attempts ++ [Font (fontNameOf fallbackFamily (fstyle font));
                     Font (fontNameOf fallbackFamily "Regular")]
    | None =>
        if existsb (String.eqb (family font)) OBJECT_PROTOTYPE
        then attempts ++ [InheritedFont (family font) (fstyle font);
                          InheritedFont (family font) "Regular"]
        else attempts
    end in
  attempts ++ [Font (fontNameOf "Inter" "Regular")].

Definition fontKey (font : FontName) : string :=
  cat (family font) (cat "__" (fstyle font)).

(** [value.replaceAll(/^Q+/g, '').replaceAll(/Q+$/g, '')] *)
Definition stripQuotes (value : chars) : chars :=
  replaceAll (Seq (Plus quoteChar) Eol) [] (replaceAll (Seq Bol (Plus quoteChar)) [] value).

Definition resolveFontFamily (style : Style) : string :=
  let raw := default ""%string (style !! "font-family") in
  let candidates :=
    Str.nonEmpty (map (fun s => stripQuotes (Str.trim s)) (Str.splitChar "," (Str.ofString raw))) in
  match candidates with
  | c :: _ => Str.toString c
  | [] => "Inter"
  end.

Definition n700 : Number := Num.ofZ 700.

Definition resolveFontStyleName (style : Style) : string :=
  let weightRaw := Str.toLowerCase (Str.ofString (default ""%string (style !! "font-weight"))) in
  let weightNum :=
    if test (Seq Bol (Seq (Plus digit) Eol)) weightRaw then Str.toNumber weightRaw
    else if Str.includes (Str.ofString "bold") weightRaw then n700
    else Num.ofZ 400 in
  let italic :=
    Str.includes (Str.ofString "italic")
      (Str.toLowerCase (Str.ofString (default ""%string (style !! "font-style")))) in
  if Num.geb weightNum n700
  then (if italic then "Bold Italic" else "Bold")
  else (if italic then "Italic" else "Regular").

(** ** Paints and the gradient syntax tree

    The shapes of the [gradient-parser] module declaration. *)

Inductive StrOrNum := SVStr (s : string) | SVNum (n : Number).

Record GradientLength := MkGradientLength {
  gl_type : option string;
  gl_value : option StrOrNum
}.

Inductive OrientationValue :=
| OVObject (value : option string)
| OVString (s : string).

Record GradientOrientation := MkGradientOrientation {
  go_type : option string;
  go_value : option OrientationValue
}.

Inductive StopValue := StopString (s : string) | StopArray (l : list string).

Record GradientColorStop := MkGradientColorStop {
  gs_type : option string;
  gs_value : option StopValue;
  gs_length : option GradientLength
}.

Inductive OrientationField :=
| OrientOne (o : GradientOrientation)
| OrientMany (l : list GradientOrientation).

Record GradientNode := MkGradientNode {
  gn_type : option string;
  gn_orientation : option OrientationField;
  gn_colorStops : option (list GradientColorStop)
}.

Inductive Paint :=
| SolidPaint (color : RGB) (opacity : option Number)
| GradientPaint (type : string) (gradientStops : list (Number * RGBA))
    (gradientTransform : list (list Number))
| ImagePaint (imageHash : string) (scaleMode : string).

Record Effect := MkEffect {
  effectType : string;
  effectRadius : Number;
  effectSpread : Number;
  effectOffset : Number * Number;
  effectColor : RGBA
}.

Definition clamp01 (value : Number) : Number :=
  if Num.isNaN value then Num.zero
  else Num.max Num.zero (Num.min Num.one value).

Fixpoint joinWith (sep : string) (l : list string) : string :=
  match l with
  | [] => ""
  | [x] => x
  | x :: rest => cat x (cat sep (joinWith sep rest))
  end.

(** A stop value inside a template literal. *)
Definition stopValueText (v : option StopValue) : string :=
  match v with
  | None => "undefined"
  | Some (StopString s) => s
  | Some (StopArray l) => joinWith "," l
  end.

Definition colorStopToColor (stop : GradientColorStop) : option RGBA :=
  let type := gs_type stop in
  if bool_decide (type = Some "hex"%string)
  then parseColorWithAlpha (Some (cat "#" (stopValueText (gs_value stop))))
  else
    match type, gs_value stop with
    | Some "literal"%string, Some (StopString s) => parseColorWithAlpha (Some s)
    | _, v =>
        if bool_decide (type = Some "rgb"%string) || bool_decide (type = Some "rgba"%string)
        then
          let fn := default ""%string type in
          parseColorWithAlpha (Some (cat fn (cat "(" (cat (stopValueText v) ")"))))
        else
          match v with
          | Some (StopString s) => parseColorWithAlpha (Some s)
          | _ => None
          end
    end.

Definition n180 : Number := Num.ofZ 180.

Definition directionAngles : list (string * Z) :=
  [ ("to top", 0); ("to top right", 45); ("to right top", 45); ("to right", 90);
    ("to bottom right", 135); ("to right bottom", 135); ("to bottom", 180);
    ("to bottom left", 225); ("to left bottom", 225); ("to left", 270);
    ("to left top", 315); ("to top left", 315) ]%string%Z.

(** Own-property lookup in an object literal with number values. *)
Fixpoint lookupZ (dir : string) (m : list (string * Z)) : option Z :=
  match m with
  | [] => None
  | (k, v) :: rest => if String.eqb k dir then Some v else lookupZ dir rest
  end.

Definition resolveGradientAngle (gradient : GradientNode) : Number :=
  match gn_orientation gradient with
  | None => n180
  | Some orientation =>
      let source :=
        match orientation with
        | OrientOne o => Some o
        | OrientMany l => head l
        end in
      match source with
      | None => n180
      | Some source =>
          let angularValue :=
            match go_value source with
            | Some (OVString s) => Some s
            | Some (OVObject v) => v
            | None => None
            end in
          let valueTruthy :=
            match go_value source with
            | Some (OVString s) => negb (String.eqb s "")
            | Some (OVObject _) => true
            | None => false
            end in
          match angularValue with
          | Some a =>
              if bool_decide (go_type source = Some "angular"%string)
              then
                let n := Str.toNumber (Str.ofString a) in
                if Num.truthy n then n else n180
              else if bool_decide (go_type source = Some "directional"%string) && valueTruthy
              then
                let dir := Str.toString (Str.toLowerCase (Str.ofString a)) in
                match lookupZ dir directionAngles with
                | Some d => Num.ofZ d
                | None =>
                    (* [map[dir]] is an inherited member, not [undefined]:
                       in the arithmetic of the transform it is [NaN] *)
                    if existsb (String.eqb dir) OBJECT_PROTOTYPE then Num.NaN else n180
                end
              else n180
          | None => n180
          end
      end
  end.

Section Gradient.
  (** [Math.cos], [Math.sin] and the [gradient-parser] module ([None]
      when [parse] throws) belong to the run time. *)
  Variable Math_cos Math_sin : Number -> Number.
  Variable gradientParser_parse : string -> option (list GradientNode).

Definition half : Number := Num.ofRatio false 1 2.

Definition gradientTransformFromAngle (angleDeg : Number) : list (list Number) :=
    let radians := Num.div (Num.mul (Num.rem angleDeg (Num.ofZ 360)) Num.PI) n180 in
    let cos := Math_cos radians in
    let sin := Math_sin radians in
    [ [cos; sin; Num.sub (Num.sub half (Num.mul half cos)) (Num.mul half sin)];
      [Num.neg sin; cos; Num.sub (Num.add half (Num.mul half sin)) (Num.mul half cos)] ].

Definition stopPosition (stop : GradientColorStop) : option Number :=
    match gs_length stop with
    | Some len =>
        if bool_decide (gl_type len = Some "%"%string)
        then
          let v := match gl_value len with
                   | Some (SVStr s) => Str.toNumber (Str.ofString s)
                   | Some (SVNum n) => n
                   | None => Num.NaN
                   end in
          Some (clamp01 (Num.div v n100))
        else None
    | None => None
    end.

Fixpoint gradientStopsFrom (index : nat) (stopsRaw : list GradientColorStop)
      : list (RGBA * option Number * nat) :=
    match stopsRaw with
    | [] => []
    | stop :: rest =>
        match colorStopToColor stop with
        | None => gradientStopsFrom (S index) rest
        | Some color => (color, stopPosition stop, index) :: gradientStopsFrom (S index) rest
        end
    end.

Definition parseGradientPaint (value : option string) : option Paint :=
    match nonEmptyStr value with
    | None => None
    | Some cs =>
        let normalized := Str.trim cs in
        match normalized with
        | [] => None
        | _ =>
            if Str.eqbChars normalized (Str.ofString "none")
               || negb (Str.includes (Str.ofString "gradient") normalized)
            then None
            else
              match gradientParser_parse (Str.toString normalized) with
              | None | Some [] => None
              | Some (gradient :: _) =>
                  let type :=
                    match gn_type gradient with
                    | Some t =>
                        if Str.includes (Str.ofString "radial") (Str.ofString t)
                        then "GRADIENT_RADIAL"%string else "GRADIENT_LINEAR"%string
                    | None => "GRADIENT_LINEAR"%string
                    end in
                  let stops := gradientStopsFrom 0 (default [] (gn_colorStops gradient)) in
                  match stops with
                  | [] => None
                  | _ =>
                      let total := match (length stops - 1)%nat with O => 1%nat | n => n end in
                      let gradientStops :=
                        map (fun '(color, position, index) =>
                               (match position with
                                | None => Num.div (Num.ofZ (Z.of_nat index))
                                            (Num.ofZ (Z.of_nat total))
                                | Some p => clamp01 p
                                end, color)) stops in
                      Some (GradientPaint type gradientStops
                              (if String.eqb type "GRADIENT_LINEAR"
                               then gradientTransformFromAngle (resolveGradientAngle gradient)
                               else [ [Num.one; Num.zero; Num.zero];
                                      [Num.zero; Num.one; Num.zero] ]))
                  end
              end
        end
    end.
End Gradient.

(** ** The canvas host

    The plugin API is modelled as a store: every node has a type, the
    ordered list of its children and a bag of the properties assigned
    to it.  A node that is created is parented under the current page;
    [appendChild] moves it.  The defaults of the creation functions are
    those the plugin API documents. *)

Inductive NodeType := FRAME | TEXT | RECTANGLE.

Global Instance NodeType_eq_dec : EqDecision NodeType.
Proof. solve_decision. Defined.

Inductive Value :=
| VBool (b : bool)
| VNum (n : Number)
| VStr (s : string)
| VFont (f : FontValue)
| VPaints (ps : list Paint)
| VEffects (es : list Effect)
| VMeasure (unit : string) (value : Number)
| VStyleId (index : nat)
| VReactions (destinations : list nat).

Record Node := MkNode {
  ntype : NodeType;
  nchildren : list nat;
  nprops : gmap string Value
}.

Record GridMeta := MkGridMeta {
  columns : Number;
  columnGap : Number;
  rowGap : Number;
  childCount : Number;
  rows : gmap nat nat;
  columnWidths : list Number;
  totalWidth : option Number
}.

Record TextStyle := MkTextStyle { ts_name : string; ts_fontSize : Number }.
Record PaintStyle := MkPaintStyle { ps_name : string; ps_paints : list Paint }.

(** An image fill that was scheduled: the node, the source and the
    style that gives the scale mode. *)
Record FillTask := MkFillTask { task_node : nat; task_src : string; task_style : Style }.

Inductive UiMessage :=
| MissingFonts (fonts : list FontName)
| FontSubstitutions (items : list (string * string))
| Done.

(** The document: nodes, the children of the current page, the local
    styles and the selection. *)
Record Doc := MkDoc {
  nodes : gmap nat Node;
  nextId : nat;
  pageChildren : list nat;
  textStyles : list TextStyle;
  paintStyles : list PaintStyle;
  selection : list nat
}.

(** The module-level variables of [code.ts]. *)
Record Globals := MkGlobals {
  fontAliasMap : gmap string FontValue;
  imagePaintCache : gmap string (option (list nat));
  gridMetaMap : gmap nat GridMeta
}.

(** The variables the renderer context closes over. *)
Record Ctx := MkCtx {
  created : nat;
  idToNode : gmap string nat;
  pendingFills : list FillTask
}.

Record World := MkWorld {
  doc : Doc;
  globals : Globals;
  ctx : Ctx;
  posted : list UiMessage
}.

Definition updDoc (f : Doc -> Doc) (w : World) : World :=
  MkWorld (f (doc w)) (globals w) (ctx w) (posted w).
Definition updGlobals (f : Globals -> Globals) (w : World) : World :=
  MkWorld (doc w) (f (globals w)) (ctx w) (posted w).
Definition updCtx (f : Ctx -> Ctx) (w : World) : World :=
  MkWorld (doc w) (globals w) (f (ctx w)) (posted w).
Definition postMessage (m : UiMessage) (w : World) : World :=
  MkWorld (doc w) (globals w) (ctx w) (posted w ++ [m]).

Definition updNodes (f : gmap nat Node -> gmap nat Node) (d : Doc) : Doc :=
  MkDoc (f (nodes d)) (nextId d) (pageChildren d) (textStyles d) (paintStyles d) (selection d).
Definition updPageChildren (f : list nat -> list nat) (d : Doc) : Doc :=
  MkDoc (nodes d) (nextId d) (f (pageChildren d)) (textStyles d) (paintStyles d) (selection d).
Definition setNextId (n : nat) (d : Doc) : Doc :=
  MkDoc (nodes d) n (pageChildren d) (textStyles d) (paintStyles d) (selection d).
Definition addTextStyle (s : TextStyle) (d : Doc) : Doc :=
  MkDoc (nodes d) (nextId d) (pageChildren d) (textStyles d ++ [s]) (paintStyles d) (selection d).
Definition addPaintStyle (s : PaintStyle) (d : Doc) : Doc :=
  MkDoc (nodes d) (nextId d) (pageChildren d) (textStyles d) (paintStyles d ++ [s]) (selection d).
Definition setSelection (l : list nat) (d : Doc) : Doc :=
  MkDoc (nodes d) (nextId d) (pageChildren d) (textStyles d) (paintStyles d) l.

Definition updFontAliasMap (f : gmap string FontValue -> gmap string FontValue) (g : Globals)
    : Globals :=
  MkGlobals (f (fontAliasMap g)) (imagePaintCache g) (gridMetaMap g).
Definition updImagePaintCache
    (f : gmap string (option (list nat)) -> gmap string (option (list nat))) (g : Globals)
    : Globals :=
  MkGlobals (fontAliasMap g) (f (imagePaintCache g)) (gridMetaMap g).
Definition updGridMetaMap (f : gmap nat GridMeta -> gmap nat GridMeta) (g : Globals) : Globals :=
  MkGlobals (fontAliasMap g) (imagePaintCache g) (f (gridMetaMap g)).

Definition incrCreated (c : Ctx) : Ctx :=
  MkCtx (S (created c)) (idToNode c) (pendingFills c).
Definition updIdToNode (f : gmap string nat -> gmap string nat) (c : Ctx) : Ctx :=
  MkCtx (created c) (f (idToNode c)) (pendingFills c).
Definition pushPending (t : FillTask) (c : Ctx) : Ctx :=
  MkCtx (created c) (idToNode c) (pendingFills c ++ [t]).

Definition white : RGB := MkRGB Num.one Num.one Num.one.
Definition black : RGB := MkRGB Num.zero Num.zero Num.zero.
Definition defaultGray : RGB :=
  let g := Num.div (Num.ofZ 217) n255 in MkRGB g g g.

Definition interRegular : FontName := fontNameOf "Inter" "Regular".

(** [figma.createFrame()]: a 100 by 100 frame with a white background,
    clipping its content, without auto layout. *)
Definition frameDefaults : gmap string Value :=
  list_to_map
    [ ("name"%string, VStr "Frame"); ("width"%string, VNum n100); ("height"%string, VNum n100);
      ("fills"%string, VPaints [SolidPaint white None]);
      ("clipsContent"%string, VBool true); ("layoutMode"%string, VStr "NONE");
      ("cornerRadius"%string, VNum Num.zero) ].

(** [figma.createText()]: an empty text in Inter Regular, 12 px, black. *)
Definition textDefaults : gmap string Value :=
  list_to_map
    [ ("name"%string, VStr ""); ("characters"%string, VStr "");
      ("fontSize"%string, VNum (Num.ofZ 12)); ("fontName"%string, VFont interRegular);
      ("fills"%string, VPaints [SolidPaint black None]);
      ("width"%string, VNum Num.zero); ("height"%string, VNum Num.zero) ].

(** [figma.createRectangle()]: a 100 by 100 rectangle with a gray fill. *)
Definition rectangleDefaults : gmap string Value :=
  list_to_map
    [ ("name"%string, VStr "Rectangle"); ("width"%string, VNum n100);
      ("height"%string, VNum n100); ("fills"%string, VPaints [SolidPaint defaultGray None]) ].

Definition createNode (t : NodeType) (props : gmap string Value) (w : World) : nat * World :=
  let id := nextId (doc w) in
  (id, updDoc (fun d => setNextId (S id)
                 (updPageChildren (fun l => l ++ [id])
                    (updNodes (insert id (MkNode t [] props)) d))) w).

Definition createFrame : World -> nat * World := createNode FRAME frameDefaults.
Definition createText : World -> nat * World := createNode TEXT textDefaults.
Definition createRectangle : World -> nat * World := createNode RECTANGLE rectangleDefaults.

Definition getNode (w : World) (id : nat) : option Node := nodes (doc w) !! id.

Definition typeOf (w : World) (id : nat) : option NodeType := ntype <$> getNode w id.

Definition childrenOf (w : World) (id : nat) : list nat :=
  match getNode w id with Some n => nchildren n | None => [] end.

Definition prop (w : World) (id : nat) (key : string) : option Value :=
  match getNode w id with Some n => nprops n !! key | None => None end.

Definition numProp (w : World) (id : nat) (key : string) : Number :=
  match prop w id key with Some (VNum n) => n | _ => Num.NaN end.

Definition strProp (w : World) (id : nat) (key : string) : string :=
  match prop w id key with Some (VStr s) => s | _ => "" end.

(** [node.key = v] *)
Definition setProp (id : nat) (key : string) (v : Value) (w : World) : World :=
  updDoc (updNodes (alter (fun n => MkNode (ntype n) (nchildren n) (<[key:=v]> (nprops n))) id)) w.

Definition removeId (c : nat) (l : list nat) : list nat :=
  List.filter (fun x => negb (x =? c)%nat) l.

(** [parent.appendChild(child)]: the child leaves the children of its
    former parent (a node or the page) and becomes the last child. *)
Definition appendChild (parent child : nat) (w : World) : World :=
  updDoc (fun d =>
    updPageChildren (removeId child)
      (updNodes (fun ns =>
         alter (fun n => MkNode (ntype n) (nchildren n ++ [child]) (nprops n)) parent
           ((fun n => MkNode (ntype n) (removeId child (nchildren n)) (nprops n)) <$> ns)) d)) w.

(** [figma.currentPage.appendChild(node)] *)
Definition appendToPage (child : nat) (w : World) : World :=
  updDoc (fun d =>
    updPageChildren (fun l => removeId child l ++ [child])
      (updNodes (fun ns =>
         (fun n => MkNode (ntype n) (removeId child (nchildren n)) (nprops n)) <$> ns) d)) w.

(** [node.resize(width, height)] *)
Definition resize (id : nat) (width height : Number) (w : World) : World :=
  setProp id "height" (VNum height) (setProp id "width" (VNum width) w).

(** The nodes below the page in document order ([findAll]); the fuel
    bounds the depth. *)
Fixpoint descendants (fuel : nat) (w : World) (ids : list nat) : list nat :=
  match fuel with
  | O => []
  | S fuel' => flat_map (fun id => id :: descendants fuel' w (childrenOf w id)) ids
  end.

Definition findAll (w : World) : list nat :=
  descendants (S (size (nodes (doc w)))) w (pageChildren (doc w)).

(** The printed form of a non-negative integer; other numbers are
    printed by the run time ([numberText]). *)
Fixpoint decDigitsGo (fuel : nat) (n : Z) (acc : chars) : chars :=
  match fuel with
  | O => acc
  | S fuel' =>
      let acc' := ascii_of_nat (Z.to_nat (48 + n mod 10)) :: acc in
      if (n <? 10)%Z then acc' else decDigitsGo fuel' (n / 10)%Z acc'
  end.

Definition decOfZ (n : Z) : string :=
  Str.toString (decDigitsGo (S (Z.to_nat (Z.log2 n))) n []).

Definition isSmallInteger (x : Number) : option Z :=
  match x with
  | S754_zero _ => Some 0%Z
  | S754_finite false m e =>
      match e with
      | Zneg k => if (Zpos m mod 2 ^ Zpos k =? 0)%Z then Some (Zpos m / 2 ^ Zpos k)%Z else None
      | _ => if (Zpos m * 2 ^ e <? 2 ^ 53)%Z then Some (Zpos m * 2 ^ e)%Z else None
      end
  | _ => None
  end.

(** The run time and the host, as far as the engine does not determine
    them. *)
Record Host := MkHost {
  (** [figma.loadFontAsync(font)] resolves. *)
  loadFontAsync : FontValue -> bool;
  Math_cos : Number -> Number;
  Math_sin : Number -> Number;
  gradientParser_parse : string -> option (list GradientNode);
  (** The bytes behind a source that is not a [data:] URI, when
      [fetch] answers with an [ok] response. *)
  fetchBytes : string -> option (list nat);
  base64Decode : string -> list nat;
  (** The hash of [figma.createImage(bytes)], when it does not throw. *)
  createImage : list nat -> option string;
  (** [figma.createNodeFromSvg(svg)] does not throw. *)
  createNodeFromSvg : string -> bool;
  (** The printed form of a number that is not a small integer. *)
  numberText : Number -> string;
  (** The printed form of the member every object inherits under a name. *)
  inheritedText : string -> string
}.

Definition numberToString (h : Host) (x : Number) : string :=
  match isSmallInteger x with
  | Some z => decOfZ z
  | None => numberText h x
  end.

(** ** Layout resolver *)

Definition nat2num (n : nat) : Number := Num.ofZ (Z.of_nat n).

(** The array index a number denotes. *)
Definition indexOf (x : Number) : nat := Z.to_nat (default 0%Z (Num.truncZ x)).

(** [if (x)] for an optional number. *)
Definition truthyOpt (x : option Number) : bool :=
  match x with Some n => Num.truthy n | None => false end.

Definition initGridMeta (frame : nat) (style : Style) (w : World) : World :=
  let cols :=
    let c := countGridTracks (style !! "grid-template-columns") in
    if Num.truthy c then c else Num.ofZ 2 in
  let columnWidths := parseGridColumnWidths (style !! "grid-template-columns") in
  let columnGap :=
    orElse (orElseOpt (parsePx (style !! "column-gap")) (parsePx (style !! "gap"))) Num.zero in
  let rowGap :=
    orElse (orElseOpt (parsePx (style !! "row-gap")) (parsePx (style !! "gap"))) Num.zero in
  let totalWidth :=
    if (0 <? length columnWidths)%nat
    then Some (Num.add (fold_left Num.add columnWidths Num.zero)
                 (Num.mul columnGap (Num.sub (nat2num (length columnWidths)) Num.one)))
    else None in
  let meta :=
    MkGridMeta (Num.max Num.one cols) columnGap rowGap Num.zero ∅ columnWidths totalWidth in
  let w := updGlobals (updGridMetaMap (insert frame meta)) w in
  let w := setProp frame "layoutMode" (VStr "VERTICAL") w in
  let w := setProp frame "primaryAxisSizingMode" (VStr "AUTO") w in
  let w := setProp frame "counterAxisSizingMode"
             (VStr (if truthyOpt totalWidth then "FIXED" else "AUTO")) w in
  let w :=
    match totalWidth with
    | Some tw => if Num.truthy tw then resize frame tw (numProp w frame "height") w else w
    | None => w
    end in
  setProp frame "itemSpacing" (VNum rowGap) w.

Definition isGridFrame (w : World) (node : nat) : bool :=
  match typeOf w node with
  | Some FRAME => bool_decide (is_Some (gridMetaMap (globals w) !! node))
  | _ => false
  end.

Section Engine.
  Variable h : Host.

Definition appendToGridFrame (parent child : nat) (w : World) : World :=
    match gridMetaMap (globals w) !! parent with
    | None => appendChild parent child w
    | Some meta =>
        let cols := Num.max Num.one (columns meta) in
        let index := childCount meta in
        let rowIndex := Num.floor (Num.div index cols) in
        let colIndex := Num.rem index cols in
        let '(row, w, newRow) :=
          match rows meta !! indexOf rowIndex with
          | Some row => (row, w, false)
          | None =>
              let '(row, w) := createFrame w in
              let w := setProp row "name"
                         (VStr (cat "row-" (numberToString h (Num.add rowIndex Num.one)))) w in
              let w := setProp row "layoutMode" (VStr "HORIZONTAL") w in
              let w := setProp row "primaryAxisSizingMode"
                         (VStr (if truthyOpt (totalWidth meta) then "FIXED" else "AUTO")) w in
              let w := setProp row "counterAxisSizingMode" (VStr "AUTO") w in
              let w :=
                match totalWidth meta with
                | Some tw =>
                    if Num.truthy tw
                    then setProp row "layoutSizingHorizontal" (VStr "FIXED")
                           (resize row tw (numProp w row "height") w)
                    else setProp row "layoutSizingHorizontal" (VStr "FILL") w
                | None => setProp row "layoutSizingHorizontal" (VStr "FILL") w
                end in
              let w := setProp row "layoutSizingVertical" (VStr "HUG") w in
              let w := setProp row "paddingTop" (VNum Num.zero) w in
              let w := setProp row "paddingRight" (VNum Num.zero) w in
              let w := setProp row "paddingBottom" (VNum Num.zero) w in
              let w := setProp row "paddingLeft" (VNum Num.zero) w in
              let w := setProp row "itemSpacing" (VNum (columnGap meta)) w in
              let w := setProp row "fills" (VPaints []) w in
              let w := setProp row "strokes" (VPaints []) w in
              let w := setProp row "clipsContent" (VBool false) w in
              (row, appendChild parent row w, true)
          end in
        let rows' := if newRow then <[indexOf rowIndex := row]> (rows meta) else rows meta in
        let w :=
          if Num.gtb (nat2num (length (columnWidths meta))) colIndex
             && bool_decide (typeOf w child = Some FRAME)
          then
            let colWidth := nth (indexOf colIndex) (columnWidths meta) Num.NaN in
            let w := setProp child "layoutSizingHorizontal" (VStr "FIXED") w in
            let w := setProp child "layoutSizingVertical" (VStr "HUG") w in
            resize child colWidth (numProp w child "height") w
          else setProp child "layoutGrow" (VNum Num.one) w in
        let w := appendChild row child w in
        updGlobals (updGridMetaMap (insert parent
          (MkGridMeta (columns meta) (columnGap meta) (rowGap meta)
             (Num.add index Num.one) rows' (columnWidths meta) (totalWidth meta)))) w
    end.
End Engine.

Definition solidOf (c : RGBA) : Paint :=
  SolidPaint (MkRGB (ar c) (ag c) (ab c)) (Some (aa c)).

Definition visibleColor (c : option RGBA) : option RGBA :=
  match c with
  | Some rgba => if Num.gtb (aa rgba) Num.zero then Some rgba else None
  | None => None
  end.

Definition applyBorder (node : nat) (style : Style) (w : World) : World :=
  let width := parsePx (style !! "border-width") in
  let color := parseColorWithAlpha (style !! "border-color") in
  let '(width, color) :=
    match nonEmptyStr (style !! "border") with
    | Some shorthand =>
        fold_left
          (fun '(width, color) tk =>
             let tk := Some (Str.toString tk) in
             (orElseOpt (parsePx tk) width, orElseOpt (parseColorWithAlpha tk) color))
          (Str.splitWs shorthand) (width, color)
    | None => (width, color)
    end in
  match width, visibleColor color with
  | Some width, Some color =>
      let w := setProp node "strokes" (VPaints [solidOf color]) w in
      let w := setProp node "strokeAlign" (VStr "INSIDE") w in
      setProp node "strokeWeight" (VNum width) w
  | _, _ => w
  end.

Definition defaultShadowColor : RGBA :=
  MkRGBA Num.zero Num.zero Num.zero (Num.ofRatio false 1 4).

Definition applyBoxShadow (node : nat) (style : Style) (w : World) : World :=
  match nonEmptyStr (style !! "box-shadow") with
  | None => w
  | Some sh =>
      if Str.eqbChars sh (Str.ofString "none") then w
      else
        let effects :=
          omap (fun entry =>
                  match parseShadowDefinition entry with
                  | None => None
                  | Some parsed =>
                      Some (MkEffect (if inset parsed then "INNER_SHADOW" else "DROP_SHADOW")
                              (blur parsed) (spread parsed) (offsetX parsed, offsetY parsed)
                              (default defaultShadowColor (shadowColor parsed)))
                  end) (splitShadowList sh) in
        match effects with
        | [] => w
        | _ => setProp node "effects" (VEffects effects) w
        end
  end.

Definition applyCornerRadiiFromStyle (node : nat) (style : Style) (w : World) : World :=
  let w :=
    match parsePx (style !! "border-radius") with
    | Some uniformRadius => setProp node "cornerRadius" (VNum uniformRadius) w
    | None => w
    end in
  let tl := parsePx (style !! "border-top-left-radius") in
  let tr := parsePx (style !! "border-top-right-radius") in
  let br := parsePx (style !! "border-bottom-right-radius") in
  let bl := parsePx (style !! "border-bottom-left-radius") in
  match tl, tr, br, bl with
  | None, None, None, None => w
  | _, _, _, _ =>
      let baseRadius :=
        match prop w node "cornerRadius" with Some (VNum n) => n | _ => Num.zero end in
      let w := setProp node "topLeftRadius" (VNum (orElse tl baseRadius)) w in
      let w := setProp node "topRightRadius" (VNum (orElse tr baseRadius)) w in
      let w := setProp node "bottomRightRadius" (VNum (orElse br baseRadius)) w in
      setProp node "bottomLeftRadius" (VNum (orElse bl baseRadius)) w
  end.

Definition applyOpacityFromStyle (node : nat) (style : Style) (w : World) : World :=
  match parseNumber (style !! "opacity") with
  | None => w
  | Some opacity =>
      setProp node "opacity" (VNum (Num.max Num.zero (Num.min Num.one opacity))) w
  end.

Definition mapPrimaryAlign (value : chars) : string :=
  if Str.includes (Str.ofString "space-between") value then "SPACE_BETWEEN"
  else if Str.includes (Str.ofString "center") value then "CENTER"
  else if Str.includes (Str.ofString "end") value then "MAX"
  else "MIN".

Definition mapCounterAlign (value : chars) : string :=
  if Str.includes (Str.ofString "center") value then "CENTER"
  else if Str.includes (Str.ofString "end") value then "MAX"
  else "MIN".

Definition lowerOf (v : option string) : chars :=
  Str.toLowerCase (Str.ofString (default ""%string v)).

Definition isStr (s : chars) (t : string) : bool := Str.eqbChars s (Str.ofString t).

Definition configureLayoutForFrame (node : nat) (style : Style) (autoLayout : bool)
    (w : World) : World :=
  let display := lowerOf (style !! "display") in
  if isStr display "grid" || isStr display "inline-grid" then initGridMeta node style w
  else
    let wantsAuto :=
      autoLayout || isStr display "flex" || isStr display "inline-flex"
      || isStr display "block" || isStr display "" in
    if negb wantsAuto then setProp node "layoutMode" (VStr "NONE") w
    else
      let isFlex := isStr display "flex" || isStr display "inline-flex" in
      let direction :=
        if isFlex
        then Str.toLowerCase
               (default (Str.ofString "row") (nonEmptyStr (style !! "flex-direction")))
        else Str.ofString "column" in
      let isRow := isStr direction "row" in
      let w := setProp node "layoutMode" (VStr (if isRow then "HORIZONTAL" else "VERTICAL")) w in
      let w := setProp node "primaryAxisSizingMode" (VStr "AUTO") w in
      let w := setProp node "counterAxisSizingMode" (VStr "AUTO") w in
      let padding := getBox style "padding" in
      let w := setProp node "paddingTop" (VNum (box_top padding)) w in
      let w := setProp node "paddingRight" (VNum (box_right padding)) w in
      let w := setProp node "paddingBottom" (VNum (box_bottom padding)) w in
      let w := setProp node "paddingLeft" (VNum (box_left padding)) w in
      let gapAll := parsePx (style !! "gap") in
      let rowGap := parsePx (style !! "row-gap") in
      let columnGap := parsePx (style !! "column-gap") in
      let six := Num.ofZ 6 in
      let w := setProp node "itemSpacing"
                 (VNum (if isRow then orElse (orElseOpt columnGap gapAll) six
                        else orElse (orElseOpt rowGap gapAll) six)) w in
      let justify := lowerOf (style !! "justify-content") in
      let align := lowerOf (style !! "align-items") in
      let w := setProp node "primaryAxisAlignItems" (VStr (mapPrimaryAlign justify)) w in
      setProp node "counterAxisAlignItems" (VStr (mapCounterAlign align)) w.

Definition applyExplicitSizing (node : nat) (style : Style) (w : World) : World :=
  let width := parsePx (style !! "width") in
  let height := parsePx (style !! "height") in
  let minHeight := parsePx (style !! "min-height") in
  match width, height, minHeight with
  | None, None, None => w
  | _, _, _ =>
      let isVertical := String.eqb (strProp w node "layoutMode") "VERTICAL" in
      let w :=
        match width with
        | Some _ =>
            if isVertical then setProp node "counterAxisSizingMode" (VStr "FIXED") w
            else setProp node "primaryAxisSizingMode" (VStr "FIXED") w
        | None => w
        end in
      let effectiveHeight := orElseOpt height minHeight in
      let w :=
        match effectiveHeight with
        | Some _ =>
            if isVertical then setProp node "primaryAxisSizingMode" (VStr "FIXED") w
            else setProp node "counterAxisSizingMode" (VStr "FIXED") w
        | None => w
        end in
      let newWidth := orElse width (numProp w node "width") in
      let newHeight := orElse effectiveHeight (numProp w node "height") in
      if Num.gtb newWidth Num.zero && Num.gtb newHeight Num.zero
      then resize node newWidth newHeight w
      else w
  end.

Section Builder.
  Variable h : Host.

  (** The options of the import message. *)
Record Options := MkOptions {
    autoLayout : bool;
    createStyles : bool;
    prototypeLinks : bool;
    viewport : option (Number * Number)
  }.

  Variable opts : Options.

Definition scheduleBackgroundFill (node : nat) (style : Style) (w : World) : bool * World :=
    match parseGradientPaint (Math_cos h) (Math_sin h) (gradientParser_parse h)
            (style !! "background-image") with
    | Some appliedGradient => (true, setProp node "fills" (VPaints [appliedGradient]) w)
    | None =>
        match nonEmptyStr (extractImageReference (style !! "background-image")) with
        | Some imageRef =>
            (true, updCtx (pushPending (MkFillTask node (Str.toString imageRef) style)) w)
        | None => (false, w)
        end
    end.

Definition scheduleImageFill (node : nat) (src : option string) (style : Style)
      (w : World) : World :=
    match nonEmptyStr src with
    | None => w
    | Some src => updCtx (pushPending (MkFillTask node (Str.toString src) style)) w
    end.

Definition applyBackgroundPaint (node : nat) (style : Style) (w : World) : World :=
    let '(backgroundHandled, w) := scheduleBackgroundFill node style w in
    if backgroundHandled then w
    else
      match visibleColor (parseColorWithAlpha (style !! "background-color")) with
      | Some rgba => setProp node "fills" (VPaints [solidOf rgba]) w
      | None => setProp node "fills" (VPaints []) w
      end.

Definition applyFrameBoxStyle (f : nat) (style : Style) (autoLayout : bool)
      (w : World) : World :=
    let w := setProp f "clipsContent" (VBool false) w in
    let w := applyBackgroundPaint f style w in
    let w := applyCornerRadiiFromStyle f style w in
    let w := applyBorder f style w in
    let w := applyBoxShadow f style w in
    let w := applyOpacityFromStyle f style w in
    let w := configureLayoutForFrame f style autoLayout w in
    applyExplicitSizing f style w.

Definition appendWithMargin (parent child : nat) (style : Style) (w : World) : World :=
    if isGridFrame w parent then appendToGridFrame h parent child w
    else
      let margin := getBox style "margin" in
      let hasMargin :=
        Num.truthy (box_top margin) || Num.truthy (box_right margin)
        || Num.truthy (box_bottom margin) || Num.truthy (box_left margin) in
      let isAutoLayout :=
        negb (String.eqb (strProp w parent "layoutMode") "NONE") in
      if isAutoLayout && hasMargin then
        let '(wrap, w) := createFrame w in
        let w := setProp wrap "name" (VStr "margin") w in
        let w := setProp wrap "fills" (VPaints []) w in
        let w := setProp wrap "layoutMode" (VStr "VERTICAL") w in
        let w := setProp wrap "primaryAxisSizingMode" (VStr "AUTO") w in
        let w := setProp wrap "counterAxisSizingMode" (VStr "AUTO") w in
        let w := setProp wrap "paddingTop" (VNum (box_top margin)) w in
        let w := setProp wrap "paddingRight" (VNum (box_right margin)) w in
        let w := setProp wrap "paddingBottom" (VNum (box_bottom margin)) w in
        let w := setProp wrap "paddingLeft" (VNum (box_left margin)) w in
        let w := appendChild parent wrap w in
        let w := appendChild wrap child w in
        let w := setProp wrap "layoutSizingHorizontal" (VStr "FILL") w in
        if bool_decide (typeOf w child = Some FRAME)
        then setProp child "layoutSizingHorizontal" (VStr "FILL") w
        else w
      else appendChild parent child w.

  (** The font a text run of this style asks for: the recorded alias,
      else the requested font itself. *)
Definition fontFor (style : Style) (w : World) : FontValue :=
    let family := resolveFontFamily style in
    let styleName := resolveFontStyleName style in
    default (Font (fontNameOf family styleName))
      (fontAliasMap (globals w) !! cat family (cat "__" styleName)).

  (** Assigning [fontName] is refused by the host (an exception the
      caller swallows) unless the font is loaded; every caller has asked
      for this very font just before, so it is loaded exactly when it
      can be loaded. *)
Definition applyTextStyle (t : nat) (style : Style) (w : World) : World :=
    let w :=
      match parsePx (style !! "font-size") with
      | Some size => if Num.truthy size then setProp t "fontSize" (VNum size) w else w
      | None => w
      end in
    let w :=
      match visibleColor (parseColorWithAlpha (style !! "color")) with
      | Some color => setProp t "fills" (VPaints [solidOf color]) w
      | None => w
      end in
    let w :=
      let font := fontFor style w in
      if loadFontAsync h font then setProp t "fontName" (VFont font) w else w in
    let w :=
      match nonEmptyStr (style !! "line-height") with
      | Some lhRaw =>
          if isStr lhRaw "normal" then w
          else
            match parsePxChars lhRaw with
            | Some lhPx =>
                if Num.truthy lhPx then setProp t "lineHeight" (VMeasure "PIXELS" lhPx) w
                else
                  let lhNum := Str.parseFloat lhRaw in
                  if negb (Num.isNaN lhNum) && Num.gtb lhNum Num.zero
                  then setProp t "lineHeight" (VMeasure "PERCENT" (Num.mul lhNum n100)) w
                  else w
            | None =>
                let lhNum := Str.parseFloat lhRaw in
                if negb (Num.isNaN lhNum) && Num.gtb lhNum Num.zero
                then setProp t "lineHeight" (VMeasure "PERCENT" (Num.mul lhNum n100)) w
                else w
            end
      | None => w
      end in
    let w :=
      match parsePx (style !! "letter-spacing") with
      | Some ls => setProp t "letterSpacing" (VMeasure "PIXELS" ls) w
      | None => w
      end in
    let td := lowerOf (style !! "text-decoration") in
    let w :=
      if Str.includes (Str.ofString "underline") td
      then setProp t "textDecoration" (VStr "UNDERLINE") w else w in
    let w :=
      if Str.includes (Str.ofString "line-through") td
         || Str.includes (Str.ofString "strikethrough") td
      then setProp t "textDecoration" (VStr "STRIKETHROUGH") w else w in
    let ta := lowerOf (style !! "text-align") in
    let w :=
      setProp t "textAlignHorizontal"
        (VStr (if isStr ta "center" then "CENTER"
               else if isStr ta "right" then "RIGHT" else "LEFT")) w in
    let tt := lowerOf (style !! "text-transform") in
    let w :=
      if isStr tt "uppercase" then setProp t "textCase" (VStr "UPPER") w
      else if isStr tt "lowercase" then setProp t "textCase" (VStr "LOWER") w
      else if isStr tt "capitalize" then setProp t "textCase" (VStr "TITLE") w
      else w in
    match parseNumber (style !! "opacity") with
    | Some opacity =>
        setProp t "opacity" (VNum (Num.max Num.zero (Num.min Num.one opacity))) w
    | None => w
    end.
End Builder.

(** ** Vector markup *)

Definition escapeXmlAttr (value : string) : string :=
  Str.toString
    (flat_map (fun c =>
       if Str.ceqb c dquote then Str.ofString "&quot;"
       else if Str.ceqb c "<" then Str.ofString "&lt;"
       else if Str.ceqb c ">" then Str.ofString "&gt;"
       else [c]) (Str.ofString value)).

Definition attrPair (key value : string) : string :=
  cat key (cat "=" (cat (Str.toString [dquote])
    (cat (escapeXmlAttr value) (Str.toString [dquote])))).

Definition styleDrivenAttrs : list string :=
  [ "fill"; "stroke"; "stroke-width"; "stroke-linecap"; "stroke-linejoin";
    "stroke-miterlimit"; "fill-opacity"; "stroke-opacity"; "opacity" ]%string.

Definition selfClosing : list string :=
  [ "path"; "circle"; "rect"; "line"; "polyline"; "polygon"; "ellipse"; "use" ]%string.

Definition hasKey (attrs : list (string * string)) (key : string) : bool :=
  existsb (fun kv => String.eqb (fst kv) key) attrs.

Definition svgTagString (tag : string) (attrs : list (string * string)) (computedStyle : Style)
    (noChildren : bool) (children : string) : string :=
  let existingAttrPairs :=
    map (fun kv => attrPair (fst kv) (snd kv))
      (List.filter (fun kv => negb (String.eqb (fst kv) "class")
                              && negb (String.eqb (fst kv) "style")) attrs) in
  let computedAttrPairs :=
    map (fun key => attrPair key (default ""%string (computedStyle !! key)))
      (List.filter (fun key => bool_decide (is_Some (nonEmptyStr (computedStyle !! key)))
                               && negb (hasKey attrs key)) styleDrivenAttrs) in
  let allAttrPairs := existingAttrPairs ++ computedAttrPairs in
  let attrsStr :=
    match allAttrPairs with
    | [] => ""%string
    | _ => cat " " (joinWith " " allAttrPairs)
    end in
  if existsb (String.eqb tag) selfClosing && noChildren
  then cat "<" (cat tag (cat attrsStr "/>"))
  else cat "<" (cat tag (cat attrsStr (cat ">" (cat children (cat "</" (cat tag ">")))))).

Fixpoint buildSvgElementString (node : JsonNode) : string :=
  match node with
  | JText text => text
  | JElement tag attrs style children =>
      svgTagString tag attrs style
        (match children with [] => true | _ => false end)
        ((fix each (cs : list JsonNode) : string :=
            match cs with
            | [] => ""%string
            | c :: rest => cat (buildSvgElementString c) (each rest)
            end) children)
  end.

(** [{ ...attrs, xmlns: ... }] when [attrs.xmlns] is missing or empty. *)
Fixpoint withXmlns (attrs : list (string * string)) : list (string * string) :=
  match attrs with
  | [] => [("xmlns", "http://www.w3.org/2000/svg")]%string
  | (k, v) :: rest =>
      if String.eqb k "xmlns"
      then (if String.eqb v "" then (k, "http://www.w3.org/2000/svg"%string) :: rest else attrs)
      else (k, v) :: withXmlns rest
  end.

Definition reconstructSvgString (tag : string) (attrs : list (string * string))
    (style : Style) (children : list JsonNode) : option string :=
  Some (buildSvgElementString (JElement tag (withXmlns attrs) style children)).

(** ** Scene graph builder *)

Inductive Outcome :=
| Ok (w : World)
| Throw (w : World).

Definition andThen (o : Outcome) (k : World -> Outcome) : Outcome :=
  match o with
  | Ok w => k w
  | Throw w => Throw w
  end.

Definition HEADING_TAGS : list string := [ "h1"; "h2"; "h3"; "h4"; "h5"; "h6" ]%string.
Definition INLINE_TEXT_TAGS : list string :=
  [ "p"; "span"; "a"; "li"; "strong"; "em"; "u"; "s"; "b"; "i"; "label"; "small";
    "mark"; "code"; "pre"; "blockquote" ]%string.
Definition LIST_CONTAINER_TAGS : list string := [ "ul"; "ol" ]%string.
Definition BUTTON_TAGS : list string := [ "button"; "input"; "textarea" ]%string.
Definition SVG_TAGS : list string :=
  [ "svg"; "path"; "circle"; "rect"; "line"; "polyline"; "polygon"; "ellipse"; "g";
    "defs"; "use"; "symbol"; "text"; "tspan" ]%string.
Definition HEADING_SIZES : list (string * Z) :=
  [ ("h1", 32); ("h2", 24); ("h3", 20); ("h4", 18); ("h5", 16); ("h6", 14) ]%string%Z.

Definition has (set : list string) (x : string) : bool := existsb (String.eqb x) set.

(** The list bullet literal of the source, the three characters U+00E2,
    U+20AC and U+00A2, in the UTF-8 bytes the source file holds. *)
Definition bulletText : string :=
  Str.toString (map ascii_of_nat [195; 162; 226; 130; 172; 194; 162]).

Section Renderer.
  Variable h : Host.
  Variable opts : Options.

Definition registerNodeRef (nodeId : option string) (node : nat) (w : World) : World :=
    match nonEmptyStr nodeId with
    | Some _ => updCtx (updIdToNode (insert (default ""%string nodeId) node)) w
    | None => w
    end.

Definition bumpCreated (w : World) : World := updCtx incrCreated w.

Definition getNodeId (style : Style) : option string := style !! "--node-id".

Definition queuePrototypeLink (node : nat) (attrs : list (string * string)) (w : World)
      : World :=
    if negb (prototypeLinks opts) then w
    else
      match attr attrs "href" with
      | Some targetHref =>
          match Str.ofString targetHref with
          | c :: rest =>
              if Str.ceqb c "#"
              then setProp node "__pendingTargetId" (VStr (Str.toString rest)) w
              else w
          | [] => w
          end
      | None => w
      end.

  (** The font preamble of every text run: the wanted font is loaded and
      assigned; when that fails Inter Regular is, and when even that
      fails the exception leaves the renderer. *)
Definition loadTextFont (textNode : nat) (style : Style) (w : World) : Outcome :=
    let fontToUse := fontFor style w in
    if loadFontAsync h fontToUse then Ok (setProp textNode "fontName" (VFont fontToUse) w)
    else if loadFontAsync h interRegular
    then Ok (setProp textNode "fontName" (VFont interRegular) w)
    else Throw w.

Definition renderPlainTextNode (text : string) (parent : nat)
      (inheritedStyle : option Style) (w : World) : Outcome :=
    let '(textNode, w) := createText w in
    let style := default ∅ inheritedStyle in
    andThen (loadTextFont textNode style w) (fun w =>
      let w := setProp textNode "characters" (VStr text) w in
      let w := if bool_decide (style = ∅) then w else applyTextStyle h textNode style w in
      let w := setProp textNode "textAutoResize" (VStr "WIDTH_AND_HEIGHT") w in
      let w := appendWithMargin h parent textNode style w in
      Ok (bumpCreated w)).

Definition orText (a b : string) : string := if String.eqb a "" then b else a.

Definition renderHeading (attrs : list (string * string)) (style0 : Style)
      (children : list JsonNode) (parent : nat) (nodeId : option string) (tag : string)
      (w : World) : Outcome :=
    let '(textNode, w) := createText w in
    let style :=
      match nonEmptyStr (style0 !! "font-weight") with
      | Some _ => style0
      | None => <["font-weight" := "700"%string]> style0
      end in
    andThen (loadTextFont textNode style w) (fun w =>
      let w := setProp textNode "characters"
                 (VStr (orText (childrenText children)
                          (Str.toString (Str.toUpperCase (Str.ofString tag))))) w in
      let w := setProp textNode "fontSize"
                 (VNum (Num.ofZ (default 16%Z (lookupZ tag HEADING_SIZES)))) w in
      let w := applyTextStyle h textNode style w in
      let w := setProp textNode "textAutoResize" (VStr "WIDTH_AND_HEIGHT") w in
      let w := appendWithMargin h parent textNode style w in
      let w := registerNodeRef nodeId textNode w in
      Ok (bumpCreated w)).

Definition renderInlineText (attrs : list (string * string)) (style0 : Style)
      (children : list JsonNode) (parent : nat) (nodeId : option string) (tag : string)
      (w : World) : Outcome :=
    let '(textNode, w) := createText w in
    let textContent := childrenText children in
    let textContent :=
      if String.eqb tag "li" && String.eqb textContent "" then bulletText else textContent in
    let isLink :=
      String.eqb tag "a" && bool_decide (is_Some (nonEmptyStr (attr attrs "href"))) in
    let w :=
      if isLink
      then setProp textNode "name" (VStr (cat "link: " (default ""%string (attr attrs "href")))) w
      else w in
    let style :=
      if isLink
      then match nonEmptyStr (style0 !! "text-decoration") with
           | Some _ => style0
           | None => <["text-decoration" := "underline"%string]> style0
           end
      else style0 in
    andThen (loadTextFont textNode style w) (fun w =>
      let w := setProp textNode "characters" (VStr textContent) w in
      let w := applyTextStyle h textNode style w in
      let w := setProp textNode "textAutoResize" (VStr "WIDTH_AND_HEIGHT") w in
      let w := appendWithMargin h parent textNode style w in
      let w := registerNodeRef nodeId textNode w in
      let w := if String.eqb tag "a" then queuePrototypeLink textNode attrs w else w in
      Ok (bumpCreated w)).

Definition renderButtonElement (tag : string) (attrs : list (string * string))
      (style : Style) (children : list JsonNode) (parent : nat) (nodeId : option string)
      (w : World) : Outcome :=
    let '(frame, w) := createFrame w in
    let w := setProp frame "name" (VStr tag) w in
    let w := applyFrameBoxStyle h frame style true w in
    let buttonText :=
      orText (childrenText children) (default ""%string (attr attrs "value")) in
    andThen
      (if String.eqb buttonText "" then Ok w
       else
         let '(textNode, w) := createText w in
         andThen (loadTextFont textNode style w) (fun w =>
           let w := setProp textNode "characters" (VStr buttonText) w in
           let w := applyTextStyle h textNode style w in
           Ok (appendChild frame textNode w)))
      (fun w =>
         let w := appendWithMargin h parent frame style w in
         let w := registerNodeRef nodeId frame w in
         Ok (bumpCreated w)).

Definition renderImageElement (attrs : list (string * string)) (style : Style)
      (parent : nat) (nodeId : option string) (w : World) : World :=
    let '(rect, w) := createRectangle w in
    let w := resize rect (Num.ofZ 200) (Num.ofZ 120) w in
    let w :=
      setProp rect "name"
        (VStr (match nonEmptyStr (attr attrs "alt") with
               | Some _ => cat "img: " (default ""%string (attr attrs "alt"))
               | None => "image"%string
               end)) w in
    let width := parsePx (style !! "width") in
    let height := parsePx (style !! "height") in
    let w :=
      if truthyOpt width || truthyOpt height
      then resize rect (orElse width (numProp w rect "width"))
             (orElse height (numProp w rect "height")) w
      else w in
    let w := applyBorder rect style w in
    let w := applyBoxShadow rect style w in
    let w :=
      match parseNumber (style !! "opacity") with
      | Some opacity =>
          setProp rect "opacity" (VNum (Num.max Num.zero (Num.min Num.one opacity))) w
      | None => w
      end in
    let w := appendWithMargin h parent rect style w in
    let w := registerNodeRef nodeId rect w in
    let w := bumpCreated w in
    scheduleImageFill rect (attr attrs "src") style w.

Definition svgPlaceholder (name : string) (fills : list Paint) (style : Style)
      (parent : nat) (nodeId : option string) (w : World) : World :=
    let '(placeholder, w) := createFrame w in
    let w := setProp placeholder "name" (VStr name) w in
    let w := resize placeholder (Num.ofZ 24) (Num.ofZ 24) w in
    let w := setProp placeholder "fills" (VPaints fills) w in
    let w := appendWithMargin h parent placeholder style w in
    let w := registerNodeRef nodeId placeholder w in
    bumpCreated w.

  (** [a || b] on optional numbers. *)
Definition orNum (a b : option Number) : option Number :=
    if truthyOpt a then a else b.

Definition renderSvgElement (tag : string) (attrs : list (string * string)) (style : Style)
      (children : list JsonNode) (parent : nat) (nodeId : option string) (w : World)
      : World :=
    match reconstructSvgString tag attrs style children with
    | None | Some EmptyString => svgPlaceholder "svg" [] style parent nodeId w
    | Some svgString =>
        if createNodeFromSvg h svgString then
          let '(svgNode, w) := createFrame w in
          let w := setProp svgNode "name" (VStr "icon") w in
          let attrPx key := parsePx (Some (cat (default "undefined"%string (attr attrs key)) "px")) in
          let width := orNum (parsePx (style !! "width")) (attrPx "width"%string) in
          let height := orNum (parsePx (style !! "height")) (attrPx "height"%string) in
          let w :=
            match width, height with
            | Some wd, Some ht =>
                if Num.truthy wd && Num.truthy ht then resize svgNode wd ht w else w
            | _, _ => w
            end in
          let w := appendWithMargin h parent svgNode style w in
          let w := registerNodeRef nodeId svgNode w in
          bumpCreated w
        else
          let gray := Num.ofRatio false 9 10 in
          svgPlaceholder "svg-error" [SolidPaint (MkRGB gray gray gray) None]
            style parent nodeId w
    end.

  (** The frame of a generic container or of a list, before its children
      are rendered. *)
Definition openListContainer (tag : string) (style : Style) (parent : nat)
      (nodeId : option string) (w : World) : nat * World :=
    let '(frame, w) := createFrame w in
    let w := setProp frame "name" (VStr tag) w in
    let w := applyFrameBoxStyle h frame style true w in
    let w := setProp frame "itemSpacing" (VNum (Num.ofZ 4)) w in
    let w := appendWithMargin h parent frame style w in
    let w :=
      if negb (String.eqb (strProp w parent "layoutMode") "NONE")
      then setProp frame "layoutSizingHorizontal" (VStr "FILL") w
      else w in
    let w := registerNodeRef nodeId frame w in
    (frame, bumpCreated w).

Definition openGenericFrame (tag : string) (attrs : list (string * string)) (style : Style)
      (parent : nat) (nodeId : option string) (w : World) : nat * World :=
    let '(frame, w) := createFrame w in
    let w := setProp frame "name"
               (VStr (match nonEmptyStr (attr attrs "id") with
                      | Some _ => default ""%string (attr attrs "id")
                      | None => tag
                      end)) w in
    let w := applyFrameBoxStyle h frame style (autoLayout opts) w in
    let w := appendWithMargin h parent frame style w in
    let explicitWidth := parsePx (style !! "width") in
    let explicitHeight :=
      orElseOpt (parsePx (style !! "height")) (parsePx (style !! "min-height")) in
    let w :=
      if negb (String.eqb (strProp w parent "layoutMode") "NONE") then
        let w :=
          match explicitWidth with
          | Some ew =>
              let w := setProp frame "layoutSizingHorizontal" (VStr "FIXED") w in
              resize frame ew (numProp w frame "height") w
          | None =>
              let display := lowerOf (style !! "display") in
              if isStr display "block" || isStr display "flex" || isStr display "grid"
                 || isStr display ""
              then setProp frame "layoutSizingHorizontal" (VStr "FILL") w
              else setProp frame "layoutSizingHorizontal" (VStr "HUG") w
          end in
        match explicitHeight with
        | Some eh =>
            let w := setProp frame "layoutSizingVertical" (VStr "FIXED") w in
            resize frame (numProp w frame "width") eh w
        | None => setProp frame "layoutSizingVertical" (VStr "HUG") w
        end
      else w in
    let w := registerNodeRef nodeId frame w in
    (frame, bumpCreated w).

  (** [renderNodes] on one node; [parentStyle] is what [renderNodes]
      received.  The cooperative yield every 300 created nodes changes
      nothing in the store. *)
Fixpoint renderNode (node : JsonNode) (parent : nat) (parentStyle : option Style)
      (w : World) {struct node} : Outcome :=
    match node with
    | JText text => renderPlainTextNode text parent parentStyle w
    | JElement tag0 attrs style children =>
        let tag := Str.toString (Str.toLowerCase (Str.ofString tag0)) in
        let nodeId := getNodeId style in
        let renderChildren (frame : nat) :=
          fix each (cs : list JsonNode) (w : World) {struct cs} : Outcome :=
            match cs with
            | [] => Ok w
            | c :: rest => andThen (renderNode c frame (Some style) w) (each rest)
            end in
        if has HEADING_TAGS tag then renderHeading attrs style children parent nodeId tag w
        else if has INLINE_TEXT_TAGS tag
        then renderInlineText attrs style children parent nodeId tag w
        else if has LIST_CONTAINER_TAGS tag then
          let '(frame, w) := openListContainer tag0 style parent nodeId w in
          renderChildren frame children w
        else if String.eqb tag "img" then Ok (renderImageElement attrs style parent nodeId w)
        else if has BUTTON_TAGS tag
        then renderButtonElement tag0 attrs style children parent nodeId w
        else if String.eqb tag "svg"
        then Ok (renderSvgElement tag0 attrs style children parent nodeId w)
        else if has SVG_TAGS tag then Ok w
        else
          let '(frame, w) := openGenericFrame tag0 attrs style parent nodeId w in
          renderChildren frame children w
    end.

Fixpoint renderNodes (nodes : list JsonNode) (parent : nat) (parentStyle : option Style)
      (w : World) : Outcome :=
    match nodes with
    | [] => Ok w
    | n :: rest =>
        andThen (renderNode n parent parentStyle w) (renderNodes rest parent parentStyle)
    end.
End Renderer.

(** ** Font resolver *)

Section Fonts.
  Variable h : Host.

Fixpoint tryAttempts (font : FontName) (attempts : list FontValue)
      : option (FontValue * bool) :=
    match attempts with
    | [] => None
    | attempt :: rest =>
        if loadFontAsync h attempt
        then Some (attempt,
                   match attempt with
                   | Font f =>
                       negb (String.eqb (family f) (family font))
                       || negb (String.eqb (fstyle f) (fstyle font))
                   | InheritedFont _ _ => true
                   end)
        else tryAttempts font rest
    end.

Definition loadFontWithFallback (font : FontName) : option (FontValue * bool) :=
    tryAttempts font (buildFontAttempts font).

  (** The report of [ensureFonts] and the local set [loaded]. *)
Record FontReport := MkFontReport {
    loaded : list string;
    missing : list FontName;
    substitutions : list (string * string)
  }.

  (** [`${fontName.family} ${fontName.style}`] *)
Definition fontText (v : FontValue) : string :=
    match v with
    | Font f => cat (family f) (cat " " (fstyle f))
    | InheritedFont member style => cat (inheritedText h member) (cat " " style)
    end.

Definition ensureFont (acc : FontReport * gmap string FontValue) (font : FontName)
      : FontReport * gmap string FontValue :=
    let '(rep, aliases) := acc in
    let key := fontKey font in
    if has (loaded rep) key then acc
    else
      match loadFontWithFallback font with
      | Some (fontName, substituted) =>
          (MkFontReport (loaded rep ++ [key]) (missing rep)
             (if substituted
              then substitutions rep
                     ++ [(cat (family font) (cat " " (fstyle font)), fontText fontName)]
              else substitutions rep),
           <[key := fontName]> aliases)
      | None =>
          (MkFontReport (loaded rep) (missing rep ++ [font]) (substitutions rep), aliases)
      end.

Definition ensureFonts (fonts : list FontName) (aliases : gmap string FontValue)
      : FontReport * gmap string FontValue :=
    fold_left ensureFont fonts (MkFontReport [] [] [], aliases).
End Fonts.

Definition texty : list string :=
  [ "h1"; "h2"; "h3"; "h4"; "h5"; "h6"; "p"; "span"; "a"; "li"; "strong"; "em"; "u"; "s";
    "button"; "label"; "input"; "textarea" ]%string.

(** [out.add(key)] on a [Set<string>], which keeps insertion order. *)
Definition setAdd (key : string) (out : list string) : list string :=
  if has out key then out else out ++ [key].

Fixpoint collectFontsFromNode (n : JsonNode) (out : list string) : list string :=
  match n with
  | JText _ => out
  | JElement tag _ style children =>
      let out :=
        if has texty tag || hasTextChildren children
        then setAdd (cat (resolveFontFamily style) (cat "__" (resolveFontStyleName style))) out
        else out in
      (fix each (cs : list JsonNode) (out : list string) {struct cs} : list string :=
         match cs with
         | [] => out
         | c :: rest => each rest (collectFontsFromNode c out)
         end) children out
  end.

Definition collectFontsFromNodes (nodes : list JsonNode) (out : list string) : list string :=
  fold_left (fun out n => collectFontsFromNode n out) nodes out.

(** [s.split(sep)] for a separator string. *)
Fixpoint splitOnGo (sep : chars) (skip : nat) (cur : chars) (s : chars) : list chars :=
  match s with
  | [] => [rev cur]
  | c :: s' =>
      match skip with
      | S k => splitOnGo sep k cur s'
      | O =>
          if Str.startsWith sep s then rev cur :: splitOnGo sep (length sep - 1) [] s'
          else splitOnGo sep 0 (c :: cur) s'
      end
  end.

Definition fontOfKey (key : string) : FontName :=
  let parts := splitOnGo (Str.ofString "__") 0 [] (Str.ofString key) in
  fontNameOf (Str.toString (nth 0 parts [])) (Str.toString (nth 1 parts (Str.ofString "undefined"))).

(** ** The import *)

Definition emptyWorld : World :=
  MkWorld (MkDoc ∅ 0 [] [] [] []) (MkGlobals ∅ ∅ ∅) (MkCtx 0 ∅ []) [].

Section Importer.
  Variable h : Host.

Definition prepareFontsForPayload (nodes : list JsonNode) (w : World)
      : FontReport * World :=
    let fontKeys := collectFontsFromNodes nodes [] in
    let fontKeys := match fontKeys with [] => ["Inter__Regular"%string] | _ => fontKeys end in
    let '(rep, aliases) := ensureFonts h (map fontOfKey fontKeys) (fontAliasMap (globals w)) in
    (rep, updGlobals (updFontAliasMap (fun _ => aliases)) w).

Definition rootBackground : RGB :=
    MkRGB (Num.ofRatio false 957 1000) (Num.ofRatio false 969 1000) (Num.ofRatio false 996 1000).

Definition createRootFrame (viewport : option (Number * Number)) (w : World) : nat * World :=
    let '(frame, w) := createFrame w in
    let w := setProp frame "name" (VStr "Imported HTML") w in
    let w := setProp frame "layoutMode" (VStr "VERTICAL") w in
    let w := setProp frame "primaryAxisSizingMode" (VStr "AUTO") w in
    let w := setProp frame "counterAxisSizingMode" (VStr "FIXED") w in
    let frameWidth :=
      match viewport with
      | Some (width, _) => if Num.truthy width then width else Num.ofZ 1920
      | None => Num.ofZ 1920
      end in
    let w := resize frame frameWidth n100 w in
    let w := setProp frame "paddingTop" (VNum (Num.ofZ 32)) w in
    let w := setProp frame "paddingRight" (VNum (Num.ofZ 40)) w in
    let w := setProp frame "paddingBottom" (VNum (Num.ofZ 32)) w in
    let w := setProp frame "paddingLeft" (VNum (Num.ofZ 40)) w in
    let w := setProp frame "itemSpacing" (VNum (Num.ofZ 32)) w in
    let w := setProp frame "fills" (VPaints [SolidPaint rootBackground None]) w in
    let w := setProp frame "clipsContent" (VBool false) w in
    (frame, appendToPage frame w).

  (** [fetchImageBytes]: the cache holds what the first request for a
      source gave. *)
Definition fetchImageBytes (src : string) (w : World) : option (list nat) * World :=
    match Str.ofString src with
    | [] => (None, w)
    | cs =>
        match imagePaintCache (globals w) !! src with
        | Some cached => (cached, w)
        | None =>
            let bytes :=
              if Str.startsWith (Str.ofString "data:") cs
              then match nth_error (Str.splitChar "," cs) 1 with
                   | Some (c :: b64) => Some (base64Decode h (Str.toString (c :: b64)))
                   | _ => None
                   end
              else fetchBytes h src in
            (bytes, updGlobals (updImagePaintCache (insert src bytes)) w)
        end
    end.

Definition createImagePaintFromSource (src : string) (style : Style) (w : World)
      : option Paint * World :=
    let '(bytes, w) := fetchImageBytes src w in
    match bytes with
    | None => (None, w)
    | Some bytes =>
        match createImage h bytes with
        | None => (None, w)
        | Some hash =>
            let size := lowerOf (style !! "background-size") in
            let scaleMode :=
              if Str.includes (Str.ofString "contain") size then "FIT"%string
              else if Str.includes (Str.ofString "tile") size then "TILE"%string
              else "FILL"%string in
            (Some (ImagePaint hash scaleMode), w)
        end
    end.

  (** One scheduled fill coming to its end: the paint is attached when
      the bytes arrived and gave an image. *)
Definition runFillTask (w : World) (t : FillTask) : World :=
    let '(paint, w) := createImagePaintFromSource (task_src t) (task_style t) w in
    match paint with
    | Some paint => setProp (task_node t) "fills" (VPaints [paint]) w
    | None => w
    end.

  (** The barrier: every scheduled fill has settled. *)
Definition waitForPending (w : World) : World :=
    fold_left runFillTask (pendingFills (ctx w)) w.

Definition nameMap (w : World) (allNodes : list nat) : gmap string nat :=
    fold_left (fun m node => <[strProp w node "name" := node]> m) allNodes ∅.

Definition resolvePrototypeLinksForPage (opts : Options) (w : World) : World :=
    if negb (prototypeLinks opts) then w
    else
      let allNodes := findAll w in
      let byName := nameMap w allNodes in
      fold_left
        (fun w' node =>
           match prop w' node "__pendingTargetId" with
           | Some (VStr pendingId) =>
               if String.eqb pendingId "" then w'
               else
                 let w' :=
                   updDoc (updNodes (alter (fun n =>
                     MkNode (ntype n) (nchildren n) (delete "__pendingTargetId"%string (nprops n)))
                     node)) w' in
                 match orElseOpt (idToNode (ctx w') !! pendingId) (byName !! pendingId) with
                 | Some destination => setProp node "reactions" (VReactions [destination]) w'
                 | None => w'
                 end
           | _ => w'
           end)
        allNodes w.
End Importer.

(** ** Style pass *)

Section Styles.
  Variable h : Host.

  (** The two local maps of one run: font size to text style and hex
      colour to paint style, a style being known by its position among
      the local styles of the document. *)
Record StyleMaps := MkStyleMaps {
    sizeSet : list (Number * nat);
    colorSet : list (string * nat)
  }.

Fixpoint sizeLookup (size : Number) (m : list (Number * nat)) : option nat :=
    match m with
    | [] => None
    | (k, v) :: rest => if Num.sameValueZero k size then Some v else sizeLookup size rest
    end.

Fixpoint colorLookup (key : string) (m : list (string * nat)) : option nat :=
    match m with
    | [] => None
    | (k, v) :: rest => if String.eqb k key then Some v else colorLookup key rest
    end.

Definition firstSolid (w : World) (node : nat) : option RGB :=
    match prop w node "fills" with
    | Some (VPaints fills) =>
        head (omap (fun p => match p with SolidPaint c _ => Some c | _ => None end) fills)
    | _ => None
    end.

Definition fontLoads (w : World) (node : nat) : bool :=
    match prop w node "fontName" with
    | Some (VFont fontName) => loadFontAsync h fontName
    | _ => true
    end.

Definition styleNode (acc : World * StyleMaps) (node : nat) : World * StyleMaps :=
    let '(w, maps) := acc in
    if negb (bool_decide (typeOf w node = Some TEXT)) then acc
    else if negb (fontLoads w node) then acc
    else
      let '(w, maps) :=
        match prop w node "fontSize" with
        | Some (VNum fontSize) =>
            match sizeLookup fontSize (sizeSet maps) with
            | Some _ => (w, maps)
            | None =>
                let id := length (textStyles (doc w)) in
                let textStyle :=
                  MkTextStyle (cat "Text/" (numberToString h fontSize)) fontSize in
                let w := updDoc (addTextStyle textStyle) w in
                let maps := MkStyleMaps (sizeSet maps ++ [(fontSize, id)]) (colorSet maps) in
                (setProp node "textStyleId" (VStyleId id) w, maps)
            end
        | _ => (w, maps)
        end in
      match firstSolid w node with
      | None => (w, maps)
      | Some color =>
          let colorKey := hexOf color in
          let '(id, w, maps) :=
            match colorLookup colorKey (colorSet maps) with
            | Some id => (id, w, maps)
            | None =>
                let id := length (paintStyles (doc w)) in
                let paintStyle :=
                  MkPaintStyle (cat "Color/" colorKey) [SolidPaint color None] in
                (id, updDoc (addPaintStyle paintStyle) w,
                 MkStyleMaps (sizeSet maps) (colorSet maps ++ [(colorKey, id)]))
            end in
          let w := setProp node "fillStyleId" (VStyleId id) w in
          let w :=
            match nth_error (paintStyles (doc w)) id with
            | Some st => setProp node "fills" (VPaints (ps_paints st)) w
            | None => w
            end in
          (w, maps)
      end.

Definition createLocalStylesFromDocument (w : World) : World :=
    fst (fold_left styleNode (findAll w) (w, MkStyleMaps [] [])).
End Styles.

Section Process.
  Variable h : Host.

Definition processImportMessage (payload : list JsonNode) (opts : Options) (w : World)
      : Outcome :=
    let '(rep, w) := prepareFontsForPayload h payload w in
    let w := match missing rep with [] => w | fonts => postMessage (MissingFonts fonts) w end in
    let w :=
      match substitutions rep with
      | [] => w
      | items => postMessage (FontSubstitutions items) w
      end in
    let '(frame, w) := createRootFrame (viewport opts) w in
    let w := updCtx (fun _ => MkCtx 0 ∅ []) w in
    andThen (renderNodes h opts payload frame None w) (fun w =>
      let w := waitForPending h w in
      let w := resolvePrototypeLinksForPage opts w in
      let w := if createStyles opts then createLocalStylesFromDocument h w else w in
      let w := updDoc (setSelection [frame]) w in
      Ok (postMessage Done w)).
End Process.

(** * Vocabulary of the properties *)

(** Two hosts for concrete runs: one that loads every font and
    reaches no image, one that has the Inter family only. *)
Definition hostAll : Host :=
  MkHost (fun _ => true) (fun x => x) (fun x => x) (fun _ => None) (fun _ => None)
    (fun _ => []) (fun _ => None) (fun _ => true) (fun _ => ""%string)
    (fun _ => ""%string).

Definition interOnly : Host :=
  MkHost (fun v => match v with
                   | Font f => String.eqb (family f) "Inter"
                   | InheritedFont _ _ => false
                   end)
    (fun x => x) (fun x => x)
    (fun _ => None) (fun _ => None) (fun _ => []) (fun _ => None) (fun _ => true)
    (fun _ => ""%string) (fun _ => ""%string).

(** The host [h] with another font loader. *)
Definition withLoader (loader : FontValue -> bool) (h : Host) : Host :=
  MkHost loader (Math_cos h) (Math_sin h) (gradientParser_parse h) (fetchBytes h)
    (base64Decode h) (createImage h) (createNodeFromSvg h) (numberText h)
    (inheritedText h).

(** The host [h] made to load [font] as well. *)
Definition alsoLoading (font : FontValue) (h : Host) : Host :=
  withLoader (fun f => bool_decide (f = font) || loadFontAsync h f) h.

(** The world an import leaves behind, and whether it came to its end. *)
Definition worldOf (o : Outcome) : World := match o with Ok w | Throw w => w end.
Definition completed (o : Outcome) : bool :=
  match o with Ok _ => true | Throw _ => false end.

Definition isFrame (w : World) (id : nat) : bool :=
  bool_decide (typeOf w id = Some FRAME).

Definition isText (w : World) (id : nat) : bool :=
  bool_decide (typeOf w id = Some TEXT).

(** The candidate list of the specification. *)
Definition candidates (font : FontName) : list FontName :=
  font ::
  match attr FONT_FALLBACKS (family font) with
  | Some fallback => [fontNameOf fallback (fstyle font); fontNameOf fallback "Regular"]
  | None => []
  end ++ [fontNameOf "Inter" "Regular"].

(** The values of the shorthand tokens, as [getBox] computes them, and
    the value of one longhand side. *)
Definition shorthandVals (style : Style) (base : string) : list (option Number) :=
  match nonEmptyStr (style !! base) with
  | Some cs => map (fun p => parsePx (Some (Str.toString p))) (Str.nonEmpty (Str.splitWs cs))
  | None => []
  end.

Definition longhand (style : Style) (base side : string) : Number :=
  orElse (parsePx (style !! (base +:+ side))) Num.zero.

(** The shorthands [getBox] expands: one, two or three tokens that are
    all lengths, or four tokens. *)
Definition expandable (vals : list (option Number)) : bool :=
  match vals with
  | [Some _] | [Some _; Some _] | [Some _; Some _; Some _] | [_; _; _; _] => true
  | _ => false
  end.

(** [margin: 10px auto] beside [margin-left: 7px], and an empty
    shorthand beside [margin-top: 5px]. *)
Definition marginAuto : Style :=
  <["margin-left" := "7px"%string]> (<["margin" := "10px auto"%string]> ∅).
Definition marginEmpty : Style :=
  <["margin-top" := "5px"%string]> (<["margin" := ""%string]> ∅).

Definition marginTwo : Style := <["margin" := "10px 20px"%string]> ∅.

Definition marginBoth : Style :=
  <["margin-top" := "5px"%string]> (<["margin" := "10px"%string]> ∅).

Definition isHexDigit (c : ascii) : bool := Str.isRadixDigit 16 c.

(** A string of the form [#rrggbb]. *)
Definition isHex6 (s : string) : bool :=
  match Str.ofString s with
  | c :: ds => Str.ceqb c "#" && (length ds =? 6)%nat && forallb isHexDigit ds
  | [] => false
  end.

Definition hexChars : chars := Str.ofString "0123456789abcdefABCDEF".

(** One colour channel: two hex digits, lower-cased, read by
    [parseInt], divided by 255, and printed again by [hexByte]. *)
Definition channelRoundtrip (a b : ascii) : bool :=
  Str.eqbChars
    (Str.toUpperCase
       (hexByte (Num.div (Str.parseInt16 [Str.lowerChar a; Str.lowerChar b]) n255)))
    [Str.upperChar a; Str.upperChar b].

Definition pxSuffix : chars := Str.ofString "px".

(** The string has, somewhere, a digit directly followed by [px]. *)
Definition containsPx (s : chars) : Prop :=
  exists pre d suf, s = pre ++ d :: pxSuffix ++ suf /\ Str.isDigit d = true.

(** The numeral the length pattern finds at the very start of [s]: an
    optional minus sign, then all the digits there are (at least one),
    then possibly a dot with all the digits after it (at least one),
    and directly after that [px]. *)
Definition numeralAfter (sign r : chars) : option chars :=
  let ds := Str.takeWhile Str.isDigit r in
  let r1 := Str.dropWhile Str.isDigit r in
  match ds with
  | [] => None
  | _ =>
      if Str.startsWith pxSuffix r1 then Some (sign ++ ds)
      else
        match r1 with
        | c :: r2 =>
            if Str.ceqb "." c then
              match Str.takeWhile Str.isDigit r2 with
              | [] => None
              | fs =>
                  if Str.startsWith pxSuffix (Str.dropWhile Str.isDigit r2)
                  then Some (sign ++ ds ++ "."%char :: fs)
                  else None
              end
            else None
        | [] => None
        end
  end.

Definition pxNumeralAt (s : chars) : option chars :=
  match s with
  | c :: r => if Str.ceqb "-" c then numeralAfter ["-"%char] r else numeralAfter [] s
  | [] => None
  end.

(** The numeral of the leftmost place of [s] that has one. *)
Fixpoint firstPxNumeral (s : chars) : option chars :=
  match pxNumeralAt s with
  | Some n => Some n
  | None =>
      match s with
      | [] => None
      | _ :: s' => firstPxNumeral s'
      end
  end.

(** What the specification says of the strings that have a value: the
    whole trimmed string is a number followed by [px]. *)
Definition isNumberPx (v : string) : Prop := lang pxRegex (Str.trim (Str.ofString v)).

Definition spanOf (text : string) : JsonNode := JElement "span" [] ∅ [JText text].

(** [<div style="display:flex;gap:8px"><span>A</span><span>B</span></div>] *)
Definition flexRow : JsonNode :=
  JElement "div" [] (<["gap" := "8px"%string]> (<["display" := "flex"%string]> ∅))
    [spanOf "A"; spanOf "B"].

Definition horizontalFrames (w : World) : list nat :=
  List.filter (fun id => isFrame w id && String.eqb (strProp w id "layoutMode") "HORIZONTAL")
    (findAll w).

Definition textRuns (w : World) : list nat := List.filter (isText w) (findAll w).

Definition plainOptions : Options := MkOptions true false false None.

(** [<p style="margin:8px">x</p>] *)
Definition marginParagraph : JsonNode :=
  JElement "p" [] (<["margin" := "8px"%string]> ∅) [JText "x"].

(** [<div style="background-image:url(https://example.com/bg.png)"></div>] *)
Definition pictureDiv : JsonNode :=
  JElement "div" []
    (<["background-image" := "url(https://example.com/bg.png)"%string]> ∅) [].

(** A host that loads every font and reaches every image. *)
Definition hostOnline : Host :=
  MkHost (fun _ => true) (fun x => x) (fun x => x) (fun _ => None) (fun _ => Some [1; 2; 3])
    (fun _ => []) (fun _ => Some "hash"%string) (fun _ => true) (fun _ => ""%string)
    (fun _ => ""%string).

(** The text runs the style pass looks at (those whose font loads),
    the font size of a text run and the hex colour of its first solid
    fill. *)
Definition styled (h : Host) (w : World) (n : nat) : bool := isText w n && fontLoads h w n.

Definition sizeOf (w : World) (n : nat) : option Number :=
  match prop w n "fontSize" with
  | Some (VNum x) => Some x
  | _ => None
  end.

Definition colorKeyOf (w : World) (n : nat) : option string := hexOf <$> firstSolid w n.

Definition textSizes (h : Host) (w : World) : list Number :=
  omap (sizeOf w) (List.filter (styled h w) (findAll w)).

Definition textColors (h : Host) (w : World) : list string :=
  omap (colorKeyOf w) (List.filter (styled h w) (findAll w)).

(** The distinct values of a list, each at its first occurrence:
    numbers up to the key equality of a [Map], strings up to equality. *)
Fixpoint distinctSizes (seen l : list Number) : list Number :=
  match l with
  | [] => []
  | x :: rest =>
      if existsb (fun k => Num.sameValueZero k x) seen then distinctSizes seen rest
      else x :: distinctSizes (seen ++ [x]) rest
  end.

Fixpoint distinctKeys (seen l : list string) : list string :=
  match l with
  | [] => []
  | x :: rest =>
      if existsb (fun k => String.eqb k x) seen then distinctKeys seen rest
      else x :: distinctKeys (seen ++ [x]) rest
  end.

Definition textStyleOf (h : Host) (size : Number) : TextStyle :=
  MkTextStyle (cat "Text/" (numberToString h size)) size.

(** A colour style as the pass makes it: one solid paint, named by the
    hex form of its colour. *)
Definition isColorStyle (st : PaintStyle) : Prop :=
  exists c, st = MkPaintStyle (cat "Color/" (hexOf c)) [SolidPaint c None].

(** A document with one black 12 px text run. *)
Definition oneTextDoc : World :=
  worldOf (processImportMessage hostAll [spanOf "A"] plainOptions emptyWorld).

(** What the style pass started from [w0] keeps of every node while it
    runs, and what its local colour map knows of the colour styles. *)
Definition passInv (w0 w : World) (maps : StyleMaps) : Prop :=
  (forall m, typeOf w m = typeOf w0 m)
  /\ (forall m, prop w m "fontName" = prop w0 m "fontName")
  /\ (forall m, prop w m "fontSize" = prop w0 m "fontSize")
  /\ (forall m, colorKeyOf w m = colorKeyOf w0 m)
  /\ (forall key id, colorLookup key (colorSet maps) = Some id ->
        exists c, nth_error (paintStyles (doc w)) id
                  = Some (MkPaintStyle (cat "Color/" (hexOf c)) [SolidPaint c None])
                  /\ hexOf c = key).

(** ** Vocabulary of grid packing *)

Definition threeColumns : string := "100px 100px 100px".

(** The column gap [initGridMeta] reads from a style. *)
Definition gridGapOf (style : Style) : Number :=
  orElse (orElseOpt (parsePx (style !! "column-gap")) (parsePx (style !! "gap"))) Num.zero.

(** [300 + columnGap * 2] *)
Definition gridWidthOf (style : Style) : Number :=
  Num.add (Num.ofZ 300) (Num.mul (gridGapOf style) (Num.ofZ 2)).

(** The width of a synthetic row: a row is resized only when the total
    width is truthy, otherwise it keeps the width it was created with. *)
Definition rowWidthOf (tw : Number) : Number := if Num.truthy tw then tw else n100.

(** [row] is one of the row frames recorded for the grid container [frame]. *)
Definition rowOf (w : World) (frame row : nat) : Prop :=
  exists m i, gridMetaMap (globals w) !! frame = Some m /\ rows m !! i = Some row.

(** What rendering a child may do to a grid container between two
    appends: it creates nodes and works on them, and leaves the
    container, its rows and its bookkeeping as they are. *)
Definition gridStable (frame : nat) (w w1 : World) : Prop :=
  gridMetaMap (globals w1) !! frame = gridMetaMap (globals w) !! frame
  /\ nextId (doc w) <= nextId (doc w1)
  /\ forall q, q = frame \/ rowOf w frame q ->
       typeOf w1 q = typeOf w q
       /\ childrenOf w1 q = childrenOf w q
       /\ forall k, prop w1 q k = prop w q k.

Definition isRow (w : World) (tw : option Number) (row : nat) (kids : list nat) : Prop :=
  row < nextId (doc w) /\ is_Some (getNode w row) /\ childrenOf w row = kids
  /\ prop w row "width" = Some (VNum (default n100 (rowWidthOf <$> tw)))
  /\ strProp w row "layoutMode" = "HORIZONTAL"%string
  /\ forall k, In k kids -> k < nextId (doc w).

(** The state of a grid container [frame] whose rows so far are the
    frames [rowsL], holding the children [kidsL]. *)
Definition gridState (frame : nat) (cols : Number) (widths : list Number)
    (tw : option Number) (w : World) (count : Number) (rowsL : list nat)
    (kidsL : list (list nat)) : Prop :=
  typeOf w frame = Some FRAME
  /\ (exists m, gridMetaMap (globals w) !! frame = Some m /\ columns m = cols
     /\ columnWidths m = widths /\ totalWidth m = tw /\ childCount m = count
     /\ forall i, rows m !! i = rowsL !! i)
  /\ frame < nextId (doc w)
  /\ childrenOf w frame = rowsL
  /\ ~ In frame rowsL
  /\ NoDup rowsL
  /\ length rowsL = length kidsL
  /\ (forall i row kids, rowsL !! i = Some row -> kidsL !! i = Some kids ->
        isRow w tw row kids).

(** The rows of a filled container [frame]: three horizontal frames that
    hold the cells [cs] in order, three, three and one. *)
Definition packedRows (w : World) (frame : nat) (cs : list nat) : Prop :=
  exists c0 c1 c2 c3 c4 c5 c6 r0 r1 r2,
    cs = [c0; c1; c2; c3; c4; c5; c6]
    /\ childrenOf w frame = [r0; r1; r2]
    /\ childrenOf w r0 = [c0; c1; c2]
    /\ childrenOf w r1 = [c3; c4; c5]
    /\ childrenOf w r2 = [c6]
    /\ Forall (fun row => strProp w row "layoutMode" = "HORIZONTAL"%string) [r0; r1; r2].

(** The widths of the rows of a container. *)
Definition rowWidths (w : World) (frame : nat) : list (option Value) :=
  map (fun row => prop w row "width") (childrenOf w frame).

(** A three-column grid style with the given column gap. *)
Definition gridStyle (gap : string) : Style :=
  <["column-gap" := gap]>
    (<["grid-template-columns" := threeColumns]> (<["display" := "grid"%string]> ∅)).

Definition sevenSpans : list JsonNode :=
  map spanOf ["1"; "2"; "3"; "4"; "5"; "6"; "7"]%string.

(** Seven numbered cells in a three-column grid with the given column gap. *)
Definition gridOf (gap : string) : JsonNode := JElement "div" [] (gridStyle gap) sevenSpans.

Definition rowFrames (w : World) : list nat :=
  List.filter (fun id => String.eqb (strProp w id "layoutMode") "HORIZONTAL") (findAll w).

(** A document holding one frame. *)
Definition oneFrame : World := snd (createFrame emptyWorld).

(** The document built from [gridOf gap]. *)
Definition gridWorld (gap : string) : World :=
  worldOf (processImportMessage hostAll [gridOf gap] plainOptions emptyWorld).

(** ** Vocabulary of the further properties *)

(** [0 <= x <= 1] on numbers ([NaN] is outside). *)
Definition inUnit (x : Number) : bool := Num.geb x Num.zero && Num.geb Num.one x.

(** The three characters [escapeXmlAttr] replaces. *)
Definition isMarkupChar (c : ascii) : bool :=
  Str.ceqb c dquote || Str.ceqb c "<" || Str.ceqb c ">".

Definition plainText (s : string) : bool :=
  forallb (fun c => negb (isMarkupChar c)) (Str.ofString s).

(** A string that neither starts nor ends with white space. *)
Definition trimmed (s : chars) : bool :=
  match s with [] => true | c :: _ => negb (Str.isSpace c) end
  && match rev s with [] => true | c :: _ => negb (Str.isSpace c) end.

(** What [ensureFonts] has established after the fonts [processed],
    starting from the aliases [before]. *)
Definition ensured (h : Host) (before : gmap string FontValue) (processed : list FontName)
    (rep : FontReport) (aliases : gmap string FontValue) : Prop :=
  (forall key f, aliases !! key = Some f ->
     before !! key = Some f \/ loadFontAsync h f = true)
  /\ (forall key, In key (loaded rep) ->
        exists f, aliases !! key = Some f /\ loadFontAsync h f = true)
  /\ (forall font, In font processed ->
        In (fontKey font) (loaded rep) \/ In font (missing rep))
  /\ (forall font, In font (missing rep) ->
        In font processed
        /\ Forall (fun a => loadFontAsync h a = false) (buildFontAttempts font))
  /\ (forall key, ~ In key (map fontKey processed) -> aliases !! key = before !! key).

Definition noUnderscore (s : string) : bool :=
  forallb (fun c => negb (Str.ceqb "_" c)) (Str.ofString s).

Definition styleNames : list string := ["Regular"; "Italic"; "Bold"; "Bold Italic"]%string.

(** The questions [configureLayoutForFrame] asks of a style. *)
Definition displayOf (style : Style) : chars := lowerOf (style !! "display").

Definition isGridDisplay (style : Style) : bool :=
  isStr (displayOf style) "grid" || isStr (displayOf style) "inline-grid".

Definition isFlexDisplay (style : Style) : bool :=
  isStr (displayOf style) "flex" || isStr (displayOf style) "inline-flex".

Definition isBlockDisplay (style : Style) : bool :=
  isStr (displayOf style) "block" || isStr (displayOf style) "".

(** [flex-direction], lower-cased, is [row] (the value when there is none). *)
Definition rowDirection (style : Style) : bool :=
  isStr (Str.toLowerCase (default (Str.ofString "row") (nonEmptyStr (style !! "flex-direction"))))
    "row".

Definition gapAlong (style : Style) (axis : string) : Number :=
  orElse (orElseOpt (parsePx (style !! axis)) (parsePx (style !! "gap"))) (Num.ofZ 6).

(** [margin.top || margin.right || margin.bottom || margin.left] *)
Definition hasMargin (style : Style) : bool :=
  Num.truthy (box_top (getBox style "margin")) || Num.truthy (box_right (getBox style "margin"))
  || Num.truthy (box_bottom (getBox style "margin"))
  || Num.truthy (box_left (getBox style "margin")).

(** [parent.layoutMode !== 'NONE'] *)
Definition isAutoLayout (w : World) (parent : nat) : bool :=
  negb (String.eqb (strProp w parent "layoutMode") "NONE").

(** An image in a frame: a world with the frame 0 and the rectangle 1. *)
Definition frameAndImage : World := snd (createRectangle oneFrame).

(** The tags of [SVG_TAGS] other than [svg] itself. *)
Definition svgChildTags : list string :=
  List.filter (fun t => negb (String.eqb t "svg")) SVG_TAGS.

Definition lowerTag (tag : string) : string :=
  Str.toString (Str.toLowerCase (Str.ofString tag)).

(** A frame with vertical auto layout and a rectangle beside it. *)
Definition stackAndImage : World :=
  setProp 0 "layoutMode" (VStr "VERTICAL") frameAndImage.

(** A document whose nodes list only children that exist, and whose
    grid book-keeping is about frames that exist. *)
Definition wellFormed (w : World) : Prop :=
  (forall id n, getNode w id = Some n ->
     Forall (fun c => c < nextId (doc w)) (nchildren n))
  /\ (forall k, is_Some (gridMetaMap (globals w) !! k) -> k < nextId (doc w)).

(** The nodes a step of the builder may work on: the node [c] it was
    handed and the nodes created since the document had [n1] of them. *)
Definition touchable (c n1 id : nat) : Prop := id = c \/ n1 <= id.

(** What the builder keeps of the nodes [P] while it works on [c] and on
    the nodes it creates, from the world [w0] on: the nodes [P] (all of
    them older than [n1], with older children) and their grid
    book-keeping are what they were, the image fills scheduled since are
    for other nodes, and the rows of the grids it works on are other
    nodes of the document. *)
Definition kept (P : nat -> Prop) (c n1 : nat) (w0 w : World) : Prop :=
  (~ P c
   /\ (forall id, P id -> id < n1)
   /\ (forall id n, P id -> getNode w0 id = Some n ->
         Forall (fun x => x < n1) (nchildren n)))
  /\ n1 <= nextId (doc w)
  /\ (forall id, P id -> getNode w id = getNode w0 id)
  /\ (forall k, P k -> gridMetaMap (globals w) !! k = gridMetaMap (globals w0) !! k)
  /\ (exists new, pendingFills (ctx w) = pendingFills (ctx w0) ++ new
                  /\ Forall (fun t => ~ P (task_node t)) new)
  /\ (forall k m i r, touchable c n1 k -> gridMetaMap (globals w) !! k = Some m ->
        rows m !! i = Some r -> ~ P r /\ r < nextId (doc w)).

(** The link a node still waits for: a non-empty [__pendingTargetId]. *)
Definition pendingTarget (w : World) (node : nat) : option string :=
  match prop w node "__pendingTargetId" with
  | Some (VStr s) => if String.eqb s "" then None else Some s
  | _ => None
  end.

Definition linkOptions : Options := MkOptions true false true None.

(** A frame on the page that waits for the link to [hero]. *)
Definition linkedFrame : World :=
  setProp 0 "__pendingTargetId" (VStr "hero") oneFrame.

(** ** Vocabulary of grid cells *)

(** The container [frame] and its rows. *)
Definition gridNodes (frame : nat) (rowsL : list nat) (id : nat) : Prop :=
  id = frame \/ In id rowsL.

(** The grid book-keeping is about nodes the document has handed out:
    the containers and their rows. *)
Definition gridsKnown (w : World) : Prop :=
  forall k m, gridMetaMap (globals w) !! k = Some m ->
    k < nextId (doc w) /\ forall i r, rows m !! i = Some r -> r < nextId (doc w).

(** The book-keeping of nodes not handed out yet has no row among [P]. *)
Definition freshGrids (P : nat -> Prop) (w : World) : Prop :=
  forall k m i r, nextId (doc w) <= k -> gridMetaMap (globals w) !! k = Some m ->
    rows m !! i = Some r -> ~ P r /\ r < nextId (doc w).

(** A frame that is being set up: it has no child yet, its book-keeping
    is [om], and no other grid has it as a row. *)
Definition opened (frame : nat) (om : option GridMeta) (w : World) : Prop :=
  typeOf w frame = Some FRAME
  /\ frame < nextId (doc w)
  /\ childrenOf w frame = []
  /\ gridMetaMap (globals w) !! frame = om
  /\ (forall k m, k <> frame -> gridMetaMap (globals w) !! k = Some m ->
        k < nextId (doc w)
        /\ forall i r, rows m !! i = Some r -> r <> frame /\ r < nextId (doc w)).

(** From [w] to [w'] the builder has worked on the node [c] and on nodes
    created since, whatever else there is to keep. *)
Definition keeps (c : nat) (w w' : World) : Prop :=
  forall P n1 w0, kept P c n1 w0 w -> kept P c n1 w0 w'.

(** The course of rendering one child into [parent], from the world [w]
    in which its node [c] has just been created: the node is prepared,
    appended to the parent, and what follows completes. *)
Definition cellShape (h : Host) (o : Outcome) (parent c : nat) (w : World) : Prop :=
  exists wA sty post,
    o = post (appendWithMargin h parent c sty wA)
    /\ keeps c w wA
    /\ forall wB, exists w', post wB = Ok w' /\ keeps c wB w'.

(** The tags rendered as a frame that holds the rendered children. *)
Definition isContainerTag (tag : string) : bool :=
  negb (has HEADING_TAGS (lowerTag tag) || has INLINE_TEXT_TAGS (lowerTag tag)
        || String.eqb (lowerTag tag) "img" || has BUTTON_TAGS (lowerTag tag)
        || has SVG_TAGS (lowerTag tag)).

(** The nodes for which [renderNodes] creates a node: all but the
    elements with a tag of [SVG_TAGS] other than [svg]. *)
Definition rendersNode (n : JsonNode) : bool :=
  match n with
  | JText _ => true
  | JElement tag _ _ _ => negb (has svgChildTags (lowerTag tag))
  end.

(** The frame of a container and the world in which its children are
    rendered. *)
Definition openContainer (h : Host) (opts : Options) (tag : string)
    (attrs : list (string * string)) (style : Style) (parent : nat) (w : World)
    : nat * World :=
  if has LIST_CONTAINER_TAGS (lowerTag tag)
  then openListContainer h tag style parent (getNodeId style) w
  else openGenericFrame h opts tag attrs style parent (getNodeId style) w.

(** The node of each child of a container: the first node created when
    the child is rendered. *)
Fixpoint cellNodes (h : Host) (opts : Options) (children : list JsonNode) (frame : nat)
    (ps : option Style) (w : World) : list nat :=
  match children with
  | [] => []
  | child :: rest =>
      nextId (doc w)
      :: cellNodes h opts rest frame ps (worldOf (renderNode h opts child frame ps w))
  end.

(** A link laid out as a grid, and a grid one of whose seven children is
    a [path]. *)
Definition linkGrid : JsonNode := JElement "a" [] (gridStyle "10px") sevenSpans.

Definition pathGrid : JsonNode :=
  JElement "div" [] (gridStyle "10px")
    (map spanOf ["1"; "2"; "3"]%string ++ [JElement "path" [] ∅ []]
     ++ map spanOf ["5"; "6"; "7"]%string).

(** A host that loads no font at all. *)
Definition hostNoFont : Host := withLoader (fun _ => false) hostAll.

(** A shift record with a mantissa of [d] binary digits. *)
Definition ofDigits (d : Z) (mrs : shr_record) : Prop :=
  exists q, shr_m mrs = Zpos q /\ Zpos (digits2_pos q) = d.

(** * Properties *)

(** ** Grid track count *)

(** C7: on the template [repeat(3, 1fr)] the track count of the code is
    4, not 3: only the prefix [repeat(3,] is cut out before the
    remaining tokens are counted, so [1fr)] is counted as a track. *)
Theorem countGridTracks_repeat3 :
  countGridTracks (Some "repeat(3, 1fr)"%string) = Num.ofZ 4
  /\ Str.toString (replaceAll repeatRegex [" "%char] (Str.ofString "repeat(3, 1fr)"))
     = "  1fr)"%string.
Proof. split; vm_compute; reflexivity. Qed.

(** ** Font resolver *)

Section FontFacts.
  Variable h : Host.

Lemma tryAttempts_find font attempts :
    tryAttempts h font attempts
    = (fun a => (a, match a with
                    | Font f =>
                        negb (String.eqb (family f) (family font))
                        || negb (String.eqb (fstyle f) (fstyle font))
                    | InheritedFont _ _ => true
                    end))
      <$> List.find (loadFontAsync h) attempts.
  Proof.
    induction attempts as [|a rest IH]; simpl; [done|].
    destruct (loadFontAsync h a); [done|]. apply IH.
  Qed.
End FontFacts.

Lemma attr_In attrs key v : attr attrs key = Some v -> In v (map snd attrs).
Proof.
  induction attrs as [|[k x] rest IH]; simpl; [done|].
  destruct (String.eqb k key); [intros [= ->]; by left|]. intros; right; auto.
Qed.

(** C3: the candidate list of a family that has no entry in the
    fallback table but is the name of a member every object inherits
    ([constructor], [toString], [__proto__], ...).  For such a family the
    code makes four attempts, not two: between the requested font and
    Inter Regular it tries, at the requested style and at Regular, a
    font whose family is the inherited member itself; so for
    [constructor] in Bold.  For every other family the attempts are the
    candidates the specification lists: two for a family without entry,
    as [Helvetica], and four for a family with an entry, as [Roboto]. *)
Theorem buildFontAttempts_inherited :
  (attr FONT_FALLBACKS "constructor" = None
   /\ candidates (fontNameOf "constructor" "Bold")
      = [fontNameOf "constructor" "Bold"; fontNameOf "Inter" "Regular"]
   /\ buildFontAttempts (fontNameOf "constructor" "Bold")
      = [Font (fontNameOf "constructor" "Bold"); InheritedFont "constructor" "Bold";
         InheritedFont "constructor" "Regular"; Font (fontNameOf "Inter" "Regular")])
  /\ (forall font,
        attr FONT_FALLBACKS (family font) = None ->
        has OBJECT_PROTOTYPE (family font) = true ->
        buildFontAttempts font
        = [Font font; InheritedFont (family font) (fstyle font);
           InheritedFont (family font) "Regular"; Font (fontNameOf "Inter" "Regular")])
  /\ (forall font,
        has OBJECT_PROTOTYPE (family font) = false ->
        buildFontAttempts font = map Font (candidates font))
  /\ buildFontAttempts (fontNameOf "Helvetica" "Bold")
     = [Font (fontNameOf "Helvetica" "Bold"); Font (fontNameOf "Inter" "Regular")]
  /\ buildFontAttempts (fontNameOf "Roboto" "Bold")
     = map Font [fontNameOf "Roboto" "Bold"; fontNameOf "Inter" "Bold";
                 fontNameOf "Inter" "Regular"; fontNameOf "Inter" "Regular"].
Proof.
  split; [repeat split; vm_compute; reflexivity|].
  split; [|split; [|split; vm_compute; reflexivity]].
  - intros [fam sty] Hattr Hin. unfold buildFontAttempts, has in *. cbn [family fstyle] in *.
    rewrite Hattr, Hin. reflexivity.
  - intros [fam sty] Hnot. unfold buildFontAttempts, candidates, has in *.
    cbn [family fstyle] in *. rewrite Hnot.
    destruct (attr FONT_FALLBACKS fam) as [fb|] eqn:E; [|reflexivity].
    apply attr_In in E. cbn in E.
    repeat (destruct E as [<-|E]; [reflexivity|]). destruct E.
Qed.

(** ** Box edges *)

Lemma getBox_vals style base :
  getBox style base
  = match shorthandVals style base with
    | [Some v0] => MkBox v0 v0 v0 v0
    | [Some v0; Some v1] => MkBox v0 v1 v0 v1
    | [Some v0; Some v1; Some v2] => MkBox v0 v1 v2 v1
    | [v0; v1; v2; v3] =>
        MkBox (orElse v0 Num.zero) (orElse v1 Num.zero) (orElse v2 Num.zero)
          (orElse v3 Num.zero)
    | _ => MkBox (longhand style base "-top") (longhand style base "-right")
             (longhand style base "-bottom") (longhand style base "-left")
    end.
Proof.
  unfold getBox, shorthandVals, longhand.
  destruct (nonEmptyStr (style !! base)) as [cs|]; [|reflexivity].
  destruct (map _ _) as [|[v0|] [|[v1|] [|[v2|] [|v3 [|? ?]]]]]; reflexivity.
Qed.

(** C4 (as the code has it): a shorthand of one, two or three length
    tokens, or of four tokens, is expanded by the CSS rules and then
    decides all four sides, whatever the longhands say; the longhand
    values are used when the shorthand is missing, and whenever its
    tokens are of no such shape, as for an empty shorthand or for
    [10px auto].  A side without a value is 0. *)
Theorem getBox_shorthand_first (style : Style) (base : string) :
  (forall a, shorthandVals style base = [Some a] ->
     getBox style base = MkBox a a a a)
  /\ (forall a b, shorthandVals style base = [Some a; Some b] ->
     getBox style base = MkBox a b a b)
  /\ (forall a b c, shorthandVals style base = [Some a; Some b; Some c] ->
     getBox style base = MkBox a b c b)
  /\ (forall a b c d, shorthandVals style base = [a; b; c; d] ->
     getBox style base
     = MkBox (orElse a Num.zero) (orElse b Num.zero) (orElse c Num.zero) (orElse d Num.zero))
  /\ (style !! base = None ->
     getBox style base
     = MkBox (longhand style base "-top") (longhand style base "-right")
         (longhand style base "-bottom") (longhand style base "-left"))
  /\ (expandable (shorthandVals style base) = false ->
     getBox style base
     = MkBox (longhand style base "-top") (longhand style base "-right")
         (longhand style base "-bottom") (longhand style base "-left"))
  /\ (style !! base = Some ""%string -> expandable (shorthandVals style base) = false)
  /\ getBox (<["margin" := "10px 20px"%string]> ∅) "margin"
     = MkBox (Num.ofZ 10) (Num.ofZ 20) (Num.ofZ 10) (Num.ofZ 20)
  /\ getBox marginAuto "margin" = MkBox Num.zero Num.zero Num.zero (Num.ofZ 7)
  /\ getBox marginEmpty "margin" = MkBox (Num.ofZ 5) Num.zero Num.zero Num.zero.
Proof.
  split; [|split; [|split; [|split; [|split; [|split; [|split; [|split; [|split]]]]]]]].
  - intros a H. rewrite getBox_vals, H. reflexivity.
  - intros a b H. rewrite getBox_vals, H. reflexivity.
  - intros a b c H. rewrite getBox_vals, H. reflexivity.
  - intros a b c d H. rewrite getBox_vals, H. destruct a, b, c, d; reflexivity.
  - intros H. rewrite getBox_vals. unfold shorthandVals. rewrite H. reflexivity.
  - intros H. rewrite getBox_vals.
    destruct (shorthandVals style base) as [|[v0|] [|[v1|] [|[v2|] [|v3 [|? ?]]]]];
      first [discriminate H|reflexivity].
  - intros H. unfold shorthandVals. rewrite H. reflexivity.
  - vm_compute. reflexivity.
  - vm_compute. reflexivity.
  - vm_compute. reflexivity.
Qed.

Lemma getBox_shorthand_first_witness :
  getBox marginTwo "margin" = MkBox (Num.ofZ 10) (Num.ofZ 20) (Num.ofZ 10) (Num.ofZ 20).
Proof.
  apply (proj1 (proj2 (getBox_shorthand_first marginTwo "margin"))).
  vm_compute. reflexivity.
Defined.

(** C4, the claim as written fails: with [margin: 10px] and
    [margin-top: 5px] the top edge is the shorthand's 10, not the
    longhand's 5. *)
Lemma getBox_longhand_does_not_override :
  parsePx (marginBoth !! "margin-top"%string) = Some (Num.ofZ 5)
  /\ box_top (getBox marginBoth "margin") = Num.ofZ 10
  /\ box_top (getBox marginBoth "margin") <> Num.ofZ 5.
Proof. vm_compute. repeat split; discriminate. Qed.

(** ** Colours *)

Lemma isHexDigit_In c : isHexDigit c = true -> In c hexChars.
Proof.
  destruct c as [[] [] [] [] [] [] [] []]; vm_compute; intros H;
    try discriminate H; tauto.
Qed.

Lemma channelRoundtrip_all :
  forallb (fun a => forallb (channelRoundtrip a) hexChars) hexChars = true.
Proof. vm_compute. reflexivity. Qed.

Lemma eqbChars_eq a b : Str.eqbChars a b = true -> a = b.
Proof.
  revert b; induction a as [|x a IH]; intros [|y b]; simpl; try done.
  intros [Hx Hb]%andb_prop. apply Ascii.eqb_eq in Hx. f_equal; auto.
Qed.

Lemma channel_ok a b :
  isHexDigit a = true -> isHexDigit b = true ->
  Str.toUpperCase
    (hexByte (Num.div (Str.parseInt16 [Str.lowerChar a; Str.lowerChar b]) n255))
  = [Str.upperChar a; Str.upperChar b].
Proof.
  intros Ha%isHexDigit_In Hb%isHexDigit_In.
  pose proof channelRoundtrip_all as H.
  rewrite forallb_forall in H. specialize (H a Ha).
  rewrite forallb_forall in H. specialize (H b Hb).
  by apply eqbChars_eq.
Qed.

Lemma isHexDigit_not_space c : isHexDigit c = true -> Str.isSpace c = false.
Proof.
  intros H%isHexDigit_In. simpl in H.
  repeat (destruct H as [<-|H]; [reflexivity|]). done.
Qed.

(** C6: for a colour [#rrggbb], parsing and printing again gives the
    same string in upper case. *)
Theorem hexOf_parseColor (s : string) :
  isHex6 s = true ->
  hexOf <$> parseColor (Some s) = Some (Str.toString (Str.toUpperCase (Str.ofString s))).
Proof.
  unfold isHex6, parseColor, nonEmptyStr.
  destruct (Str.ofString s) as [|c [|c1 [|c2 [|c3 [|c4 [|c5 [|c6 [|? ?]]]]]]]] eqn:E;
    try (simpl; rewrite ?andb_false_r; discriminate).
  simpl forallb. simpl length. simpl Nat.eqb.
  rewrite !andb_true_iff. intros [[Hc _] (H1 & H2 & H3 & H4 & H5 & H6 & _)].
  apply Ascii.eqb_eq in Hc. subst c.
  assert (Htrim : Str.trim ["#"%char; c1; c2; c3; c4; c5; c6]
                  = ["#"%char; c1; c2; c3; c4; c5; c6]).
  { unfold Str.trim, Str.trimStart, Str.trimEnd. simpl.
    by rewrite (isHexDigit_not_space c6). }
  unfold parseColorChars. rewrite Htrim.
  simpl. unfold hexOf. simpl cr. simpl cg. simpl cb.
  f_equal. f_equal. unfold slice. simpl.
  change (Str.toUpperCase ("#"%char :: ?l)) with ("#"%char :: Str.toUpperCase l).
  unfold Str.toUpperCase. rewrite !map_app.
  fold (Str.toUpperCase (hexByte (Num.div (Str.parseInt16 [Str.lowerChar c1; Str.lowerChar c2]) n255))).
  fold (Str.toUpperCase (hexByte (Num.div (Str.parseInt16 [Str.lowerChar c3; Str.lowerChar c4]) n255))).
  fold (Str.toUpperCase (hexByte (Num.div (Str.parseInt16 [Str.lowerChar c5; Str.lowerChar c6]) n255))).
  rewrite !channel_ok by assumption. reflexivity.
Qed.

Lemma hexOf_parseColor_witness :
  hexOf <$> parseColor (Some "#1a2B3c"%string) = Some "#1A2B3C"%string.
Proof. apply (hexOf_parseColor "#1a2B3c"). vm_compute. reflexivity. Defined.

(** ** The matcher against the words of a regular expression *)

Section MatcherFacts.
  Context {R : Type}.
  Variable whole : nat.

Lemma starLoop_sound (a : regex) g (k : chars -> captures -> option R) x :
    (forall s caps (k' : chars -> captures -> option R) y,
       rmatch whole a s caps k' = Some y ->
       exists w s' c', s = w ++ s' /\ lang a w /\ k' s' c' = Some y) ->
    forall fuel s caps,
      starLoop (rmatch whole a) g k fuel s caps = Some x ->
      exists w s' c', s = w ++ s' /\ lang (Star g a) w /\ k s' c' = Some x.
  Proof.
    intros IHa fuel. induction fuel as [|fuel IH]; intros s caps H.
    - simpl in H. exists [], s, caps. split; [done|]. split; [by exists []|].
      destruct g; [done|]. by destruct (k s caps).
    - simpl in H.
      assert (Hiter : rmatch whole a s caps
                (fun s1 c1 => if (length s1 <? length s)%nat
                              then starLoop (rmatch whole a) g k fuel s1 c1 else None)
                = Some x ->
                exists w s' c', s = w ++ s' /\ lang (Star g a) w /\ k s' c' = Some x).
      { intros E. destruct (IHa _ _ _ _ E) as (w1 & s1 & c1 & -> & Hw1 & H1).
        simpl in H1. destruct (length s1 <? length (w1 ++ s1))%nat; [|done].
        destruct (IH _ _ H1) as (w2 & s2 & c2 & -> & (ws & -> & Hws) & H2).
        exists (w1 ++ concat ws), s2, c2. rewrite <- app_assoc. split; [done|].
        split; [|done]. exists (w1 :: ws). split; [done|by constructor]. }
      assert (Hk : k s caps = Some x ->
                exists w s' c', s = w ++ s' /\ lang (Star g a) w /\ k s' c' = Some x).
      { intros E. exists [], s, caps. split; [done|]. split; [by exists []|done]. }
      destruct g.
      + match type of H with
        | context [rmatch whole a s caps ?kk] =>
            destruct (rmatch whole a s caps kk) as [y|] eqn:E
        end; [|apply Hk; exact H].
        apply Hiter. congruence.
      + destruct (k s caps) as [y|] eqn:E; [|apply Hiter; exact H].
        apply Hk. congruence.
  Qed.

Lemma rmatch_sound r :
    plain r = true ->
    forall s caps (k : chars -> captures -> option R) x,
      rmatch whole r s caps k = Some x ->
      exists w s' c', s = w ++ s' /\ lang r w /\ k s' c' = Some x.
  Proof.
    induction r as [|p|a IHa b IHb|a IHa b IHb|g a IHa|i a IHa|i| |]; simpl; try done.
    - intros _ s caps k x H. by exists [], s, caps.
    - intros _ [|c s] caps k x H; [done|].
      destruct (p c) eqn:Hp; [|done]. exists [c], s, caps. eauto.
    - intros [Ha Hb]%andb_prop s caps k x H.
      destruct (IHa Ha _ _ _ _ H) as (w1 & s1 & c1 & -> & Hw1 & H1).
      destruct (IHb Hb _ _ _ _ H1) as (w2 & s2 & c2 & -> & Hw2 & H2).
      exists (w1 ++ w2), s2, c2. rewrite <- app_assoc. eauto 10.
    - intros [Ha Hb]%andb_prop s caps k x H.
      destruct (rmatch whole a s caps k) as [y|] eqn:E.
      + destruct (IHa Ha _ _ _ _ E) as (w & s' & c' & ? & ? & ?).
        exists w, s', c'. simplify_eq. eauto.
      + destruct (IHb Hb _ _ _ _ H) as (w & s' & c' & ? & ? & ?).
        exists w, s', c'. eauto.
    - intros Ha s caps k x H.
      apply (starLoop_sound a g k x (IHa Ha)) in H. exact H.
    - intros Ha s caps k x H.
      destruct (IHa Ha _ _ _ _ H) as (w & s' & c' & -> & Hw & H').
      eauto 10.
  Qed.

Lemma starLoop_complete (a : regex) g (k : chars -> captures -> option R) s' :
    (forall w s' caps (k' : chars -> captures -> option R),
       lang a w -> (forall c', is_Some (k' s' c')) ->
       is_Some (rmatch whole a (w ++ s') caps k')) ->
    (forall c', is_Some (k s' c')) ->
    forall ws, Forall (lang a) ws ->
    forall fuel caps, (length (concat ws ++ s') <= fuel)%nat ->
      is_Some (starLoop (rmatch whole a) g k fuel (concat ws ++ s') caps).
  Proof.
    intros IHa Hk ws Hws. induction Hws as [|w1 ws Hw1 Hws IH]; intros fuel caps Hfuel.
    - simpl concat. simpl app.
      destruct fuel; simpl; destruct g.
      + apply Hk.
      + by destruct (Hk caps) as [y ->].
      + match goal with
        | |- context [rmatch whole a s' caps ?kk] => destruct (rmatch whole a s' caps kk)
        end; [done|apply Hk].
      + by destruct (Hk caps) as [y ->].
    - destruct (decide (w1 = [])) as [->|Hne]; [by apply IH|].
      assert (0 < length w1)%nat as Hpos by (destruct w1; simpl; [done|lia]).
      change (concat (w1 :: ws)) with (w1 ++ concat ws) in *.
      rewrite <- app_assoc in *.
      destruct fuel as [|fuel]; [rewrite length_app in Hfuel; lia|].
      simpl starLoop.
      assert (Hit : is_Some (rmatch whole a (w1 ++ concat ws ++ s') caps
                (fun s1 c1 => if (length s1 <? length (w1 ++ concat ws ++ s'))%nat
                              then starLoop (rmatch whole a) g k fuel s1 c1 else None))).
      { apply IHa; [done|]. intros c'.
        rewrite (length_app w1) in *.
        destruct (Nat.ltb_spec (length (concat ws ++ s'))
                    (length w1 + length (concat ws ++ s'))) as [_|Hge]; [|lia].
        apply IH. lia. }
      destruct Hit as [y Hy]. destruct g.
      + by rewrite Hy.
      + destruct (k _ caps); [done|]. by rewrite Hy.
  Qed.

Lemma rmatch_complete r :
    plain r = true ->
    forall w s' caps (k : chars -> captures -> option R),
      lang r w -> (forall c', is_Some (k s' c')) ->
      is_Some (rmatch whole r (w ++ s') caps k).
  Proof.
    induction r as [|p|a IHa b IHb|a IHa b IHb|g a IHa|i a IHa|i| |]; simpl; try done.
    - intros _ w s' caps k -> Hk. apply Hk.
    - intros _ w s' caps k (c & -> & Hp) Hk. simpl. rewrite Hp. apply Hk.
    - intros [Ha Hb]%andb_prop w s' caps k (w1 & w2 & -> & H1 & H2) Hk.
      rewrite <- app_assoc. apply IHa; [done..|].
      intros c'. by apply IHb.
    - intros [Ha Hb]%andb_prop w s' caps k [H|H] Hk.
      + destruct (IHa Ha w s' caps k H Hk) as [y ->]. done.
      + destruct (rmatch whole a (w ++ s') caps k); [done|]. by apply IHb.
    - intros Ha w s' caps k (ws & -> & Hws) Hk.
      apply starLoop_complete; auto.
    - intros Ha w s' caps k Hw Hk. apply IHa; [done..|]. intros c'. apply Hk.
  Qed.
End MatcherFacts.

Lemma searchFrom_sound r whole s m :
  plain r = true -> searchFrom r whole s = Some m ->
  exists pre w suf, s = pre ++ w ++ suf /\ lang r w.
Proof.
  intros Hr. induction s as [|c s IH]; simpl.
  - destruct (matchAt r whole []) eqn:E; [|done]. intros _.
    apply rmatch_sound in E as (w & s' & c' & ? & ? & ?); [|done].
    by exists [], w, s'.
  - destruct (matchAt r whole (c :: s)) eqn:E.
    + intros _. apply rmatch_sound in E as (w & s' & c' & ? & ? & ?); [|done].
      by exists [], w, s'.
    + intros (pre & w & suf & -> & Hw)%IH. by exists (c :: pre), w, suf.
Qed.

Lemma searchFrom_complete r whole pre w suf :
  plain r = true -> lang r w -> is_Some (searchFrom r whole (pre ++ w ++ suf)).
Proof.
  intros Hr Hw.
  assert (Hat : forall s, is_Some (matchAt r whole (w ++ s))).
  { intros s. unfold matchAt. apply rmatch_complete; [done..|]. by eexists. }
  induction pre as [|c pre IH].
  - simpl app. destruct (Hat suf) as [m Hm].
    destruct (w ++ suf); simpl; by rewrite Hm.
  - simpl. by destruct (matchAt r whole (c :: pre ++ w ++ suf)).
Qed.

(** A match exists exactly when some part of the subject is a word of
    the expression. *)
Lemma exec_is_Some r s :
  plain r = true ->
  is_Some (exec r s) <-> exists pre w suf, s = pre ++ w ++ suf /\ lang r w.
Proof.
  intros Hr. unfold exec. split.
  - intros [m Hm]. by eapply searchFrom_sound.
  - intros (pre & w & suf & -> & Hw). by apply searchFrom_complete.
Qed.

(** ** Lengths *)

Lemma plain_pxRegex : plain pxRegex = true.
Proof. reflexivity. Qed.

Lemma ceqb_eq a b : Str.ceqb a b = true -> a = b.
Proof. apply Ascii.eqb_eq. Qed.

Lemma lang_plus_digit_last u :
  lang (Plus digit) u -> exists u' d, u = u' ++ [d] /\ Str.isDigit d = true.
Proof.
  intros (w1 & w2 & -> & (c & -> & Hc) & (ws & -> & Hws)).
  destruct ws as [|wl ws0 _] using rev_ind.
  - by exists [], c.
  - apply Forall_app in Hws as [_ Hl]. apply Forall_inv in Hl as (d & -> & Hd).
    exists ([c] ++ concat ws0), d. by rewrite concat_app.
Qed.

(** A word of the length pattern ends with a digit and [px]. *)
Lemma pxRegex_lang_ends w :
  lang pxRegex w -> exists pre d, w = pre ++ d :: pxSuffix /\ Str.isDigit d = true.
Proof.
  intros (g & px & -> & Hg & Hpx).
  destruct Hpx as (p & x & -> & (cp & -> & Hp) & (cx & -> & Hx)).
  apply ceqb_eq in Hp, Hx. subst cp cx.
  destruct Hg as (sg & rest & -> & _ & (int & fr & -> & Hint & Hfr)).
  destruct Hfr as [(dot & fd & -> & _ & Hfd)| ->].
  - apply lang_plus_digit_last in Hfd as (u' & d & -> & Hd).
    exists (sg ++ int ++ dot ++ u'), d. split; [|done].
    by rewrite <- !app_assoc.
  - apply lang_plus_digit_last in Hint as (u' & d & -> & Hd).
    exists (sg ++ u'), d. split; [|done].
    by rewrite app_nil_r, <- !app_assoc.
Qed.

Lemma pxRegex_lang_digit d : Str.isDigit d = true -> lang pxRegex (d :: pxSuffix).
Proof.
  intros Hd. exists [d], pxSuffix. split; [done|]. split.
  - exists [], [d]. split; [done|]. split; [by right|].
    exists [d], []. split; [done|]. split; [|by right].
    exists [d], []. split; [done|]. split; [by exists d|]. by exists [].
  - exists ["p"%char], ["x"%char]. split; [done|].
    split; [by exists "p"%char|by exists "x"%char].
Qed.

Lemma dropWhile_keeps p pre d rest :
  p d = false -> exists pre', Str.dropWhile p (pre ++ d :: rest) = pre' ++ d :: rest.
Proof.
  intros Hd. induction pre as [|c pre IH]; simpl.
  - rewrite Hd. by exists [].
  - destruct (p c); [done|]. by exists (c :: pre).
Qed.

Lemma dropWhile_suffix p s : exists l, s = l ++ Str.dropWhile p s.
Proof.
  induction s as [|c s [l IH]]; simpl; [by exists []|].
  destruct (p c); [|by exists []]. exists (c :: l). simpl. by f_equal.
Qed.

Lemma trim_keeps pre a b c suf :
  Str.isSpace a = false -> Str.isSpace c = false ->
  exists pre' suf', Str.trim (pre ++ a :: b :: c :: suf) = pre' ++ a :: b :: c :: suf'.
Proof.
  intros Ha Hc. unfold Str.trim, Str.trimStart, Str.trimEnd.
  destruct (dropWhile_keeps Str.isSpace pre a (b :: c :: suf) Ha) as [pre' ->].
  replace (rev (pre' ++ a :: b :: c :: suf)) with (rev suf ++ c :: rev (pre' ++ [a; b])).
  2:{ rewrite !rev_app_distr. simpl. by rewrite <- !app_assoc. }
  destruct (dropWhile_keeps Str.isSpace (rev suf) c (rev (pre' ++ [a; b])) Hc) as [suf' ->].
  exists pre', (rev suf'). rewrite rev_app_distr. simpl. rewrite rev_involutive.
  by rewrite <- !app_assoc.
Qed.

Lemma trim_inside s : exists l r, s = l ++ Str.trim s ++ r.
Proof.
  unfold Str.trim, Str.trimStart, Str.trimEnd.
  destruct (dropWhile_suffix Str.isSpace s) as [l Hl].
  destruct (dropWhile_suffix Str.isSpace (rev (Str.dropWhile Str.isSpace s))) as [r Hr].
  exists l, (rev r). rewrite <- rev_app_distr, <- Hr, rev_involutive. exact Hl.
Qed.

Lemma isDigit_not_space d : Str.isDigit d = true -> Str.isSpace d = false.
Proof.
  destruct d as [[] [] [] [] [] [] [] []]; vm_compute; congruence.
Qed.

Lemma parsePxChars_is_Some s : is_Some (parsePxChars s) <-> containsPx s.
Proof.
  unfold parsePxChars.
  assert (is_Some (exec pxRegex (Str.trim s)) <-> containsPx s) as <-.
  { rewrite exec_is_Some by apply plain_pxRegex. split.
    - intros (pre & w & suf & Ht & (p & d & -> & Hd)%pxRegex_lang_ends).
      destruct (trim_inside s) as (l & r & Hs). rewrite Ht in Hs.
      exists (l ++ pre ++ p), d, (suf ++ r). split; [|done].
      rewrite Hs at 1. by repeat (rewrite <- app_assoc; simpl).
    - intros (pre & d & suf & -> & Hd).
      change (d :: pxSuffix ++ suf) with (d :: "p"%char :: "x"%char :: suf).
      destruct (trim_keeps pre d "p" "x" suf) as (pre' & suf' & ->);
        [by apply isDigit_not_space|done|].
      exists pre', (d :: pxSuffix), suf'. split; [done|].
      by apply pxRegex_lang_digit. }
  destruct (exec pxRegex (Str.trim s));
    [split; intros _; by eexists|split; intros [? ?]; done].
Qed.

(** *** The value of a length *)

Section PxMatcher.
  Context {R : Type}.
  Variable whole : nat.

Lemma starLoop_digits (k : chars -> captures -> option R) :
    (forall d t c, Str.isDigit d = true -> k (d :: t) c = None) ->
    forall fuel s caps, length s <= fuel ->
      starLoop (rmatch whole digit) true k fuel s caps = k (Str.dropWhile Str.isDigit s) caps.
  Proof.
    intros Hk fuel. induction fuel as [|fuel IH]; intros s caps Hlen.
    - destruct s; [reflexivity|simpl in Hlen; lia].
    - destruct s as [|c t]; [reflexivity|].
      cbn [starLoop rmatch digit Str.dropWhile]. unfold digit. cbn [rmatch].
      destruct (Str.isDigit c) eqn:Hc.
      + assert (Hlt : (length t <? length (c :: t))%nat = true)
          by (apply Nat.ltb_lt; simpl; lia).
        rewrite Hlt, IH by (simpl in Hlen; lia).
        destruct (k (Str.dropWhile Str.isDigit t) caps); [reflexivity|].
        by apply Hk.
      + reflexivity.
  Qed.

Lemma rmatch_plus_digit (k : chars -> captures -> option R) s caps :
    (forall d t c, Str.isDigit d = true -> k (d :: t) c = None) ->
    rmatch whole (Plus digit) s caps k
    = match s with
      | d :: t => if Str.isDigit d then k (Str.dropWhile Str.isDigit t) caps else None
      | [] => None
      end.
  Proof.
    intros Hk. unfold Plus, digit. cbn [rmatch].
    destruct s as [|d t]; [reflexivity|]. destruct (Str.isDigit d); [|reflexivity].
    by apply (starLoop_digits k Hk).
  Qed.
End PxMatcher.

Lemma span_digits s : Str.takeWhile Str.isDigit s ++ Str.dropWhile Str.isDigit s = s.
Proof.
  induction s as [|c s IH]; [reflexivity|]. simpl.
  destruct (Str.isDigit c); [simpl; by rewrite IH|reflexivity].
Qed.

Lemma take_prefix {A} (l r : list A) : take (length (l ++ r) - length r) (l ++ r) = l.
Proof.
  rewrite length_app. replace (length l + length r - length r) with (length l) by lia.
  by rewrite take_app_length.
Qed.

Lemma startsWith_px s :
  Str.startsWith pxSuffix s = true -> exists t, s = "p"%char :: "x"%char :: t.
Proof.
  unfold pxSuffix. change (Str.ofString "px") with ["p"%char; "x"%char].
  destruct s as [|a [|b t]]; cbn [Str.startsWith]; unfold Str.ceqb; try done;
    [by rewrite andb_false_r|].
  intros [Ha [Hb _]%andb_prop]%andb_prop.
  apply Ascii.eqb_eq in Ha, Hb. subst. by exists t.
Qed.

Section PxNumeral.
  Variable whole : nat.
  Variable S : chars.

  (** The continuations of the pattern after the numeral. *)
Let kend : chars -> captures -> option rmatchResult :=
    fun s' c => Some (MkMatch (whole - length S) (take (length S - length s') S) c s').
Let kpx : chars -> captures -> option rmatchResult :=
    fun s3 c3 =>
      rmatch whole (lit (Str.ofString "px")) s3 ((1, take (length S - length s3) S) :: c3) kend.
Let kfrac : chars -> captures -> option rmatchResult :=
    fun s0 c0 =>
      match rmatch whole (chr ".") s0 c0 (fun s2 c2 => rmatch whole (Plus digit) s2 c2 kpx) with
      | Some x => Some x
      | None => kpx s0 c0
      end.

Lemma kpx_value s3 c3 :
    (fun m => group 1 m) <$> kpx s3 c3
    = if Str.startsWith pxSuffix s3 then Some (Some (take (length S - length s3) S)) else None.
  Proof.
    unfold kpx, pxSuffix. change (Str.ofString "px") with ["p"%char; "x"%char].
    cbn [lit rmatch chr Str.startsWith]. 
    destruct s3 as [|a [|b t]]; [reflexivity|cbn [Str.startsWith]..].
    - destruct (Str.ceqb "p" a); reflexivity.
    - destruct (Str.ceqb "p" a); [|reflexivity]. destruct (Str.ceqb "x" b); reflexivity.
  Qed.

Lemma kpx_digit d t c : Str.isDigit d = true -> kpx (d :: t) c = None.
  Proof.
    intros Hd. unfold kpx. change (Str.ofString "px") with ["p"%char; "x"%char].
    cbn [lit rmatch chr]. destruct (Str.ceqb "p" d) eqn:E; [|reflexivity].
    apply Ascii.eqb_eq in E. subst d. discriminate Hd.
  Qed.

Lemma kfrac_digit d t c : Str.isDigit d = true -> kfrac (d :: t) c = None.
  Proof.
    intros Hd. unfold kfrac. rewrite kpx_digit by done. cbn [rmatch chr].
    destruct (Str.ceqb "." d) eqn:E; [|reflexivity].
    apply Ascii.eqb_eq in E. subst d. discriminate Hd.
  Qed.

Lemma numeral_after sign r c :
    S = sign ++ r ->
    (fun m => group 1 m) <$> rmatch whole (Plus digit) r c kfrac
    = Some <$> numeralAfter sign r.
  Proof.
    intros HS. rewrite (rmatch_plus_digit whole kfrac) by apply kfrac_digit.
    unfold numeralAfter. destruct r as [|d t]; [reflexivity|].
    cbn [Str.takeWhile Str.dropWhile]. destruct (Str.isDigit d) eqn:Hd; [|reflexivity].
    set (ds := d :: Str.takeWhile Str.isDigit t).
    set (r1 := Str.dropWhile Str.isDigit t).
    assert (HS1 : S = (sign ++ ds) ++ r1).
    { rewrite HS, <- app_assoc. f_equal. subst ds r1. simpl. by rewrite span_digits. }
    unfold kfrac.
    pose proof (kpx_value r1 c) as Hpx.
    destruct (Str.startsWith pxSuffix r1) eqn:Hst.
    - destruct (startsWith_px _ Hst) as [t' Hr1]. rewrite Hr1 at 1. cbn [rmatch chr].
      change (Str.ceqb "." "p") with false. cbv iota. rewrite Hpx.
      rewrite HS1 at 1 2. by rewrite take_prefix.
    - assert (Hn : kpx r1 c = None) by (destruct (kpx r1 c); [discriminate Hpx|done]).
      rewrite Hn. destruct r1 as [|c0 r2] eqn:Er1; [reflexivity|].
      cbn [rmatch chr]. destruct (Str.ceqb "." c0) eqn:Ec; [|reflexivity].
      rewrite (rmatch_plus_digit whole kpx) by apply kpx_digit.
      destruct r2 as [|d2 t2]; [reflexivity|].
      cbn [Str.takeWhile Str.dropWhile]. destruct (Str.isDigit d2) eqn:Hd2; [|reflexivity].
      set (fs := d2 :: Str.takeWhile Str.isDigit t2).
      set (r3 := Str.dropWhile Str.isDigit t2).
      assert (HS3 : S = (sign ++ ds ++ "."%char :: fs) ++ r3).
      { rewrite HS1. apply Ascii.eqb_eq in Ec. subst c0.
        rewrite <- !app_assoc. do 2 f_equal. simpl. do 2 f_equal.
        subst r3. by rewrite span_digits. }
      pose proof (kpx_value r3 c) as Hpx3.
      rewrite HS3 in Hpx3 at 1 2. rewrite take_prefix in Hpx3.
      destruct (Str.startsWith pxSuffix r3), (kpx r3 c) as [m|];
        try discriminate Hpx3; [|reflexivity].
      cbn in Hpx3 |- *. by injection Hpx3 as ->.
  Qed.
End PxNumeral.

Lemma matchAt_px whole s :
  (fun m => group 1 m) <$> matchAt pxRegex whole s = Some <$> pxNumeralAt s.
Proof.
  unfold matchAt, pxRegex, Opt, pxNumeralAt. cbn [rmatch].
  destruct s as [|c r]; [reflexivity|].
  cbn [rmatch chr]. destruct (Str.ceqb "-" c) eqn:E.
  - apply Ascii.eqb_eq in E. subst c.
    pose proof (numeral_after whole ("-"%char :: r) ["-"%char] r [] eq_refl) as H.
    cbv beta in H.
    match goal with
    | |- _ <$> match ?X with Some x => Some x | None => ?Y end = _ =>
        assert (HY : Y = None) by reflexivity; rewrite HY; clear HY;
        replace (match X with Some x => Some x | None => None end) with X
          by (by destruct X)
    end.
    exact H.
  - exact (numeral_after whole (c :: r) [] (c :: r) [] eq_refl).
Qed.

Lemma searchFrom_px whole s :
  (fun m => group 1 m) <$> searchFrom pxRegex whole s = Some <$> firstPxNumeral s.
Proof.
  induction s as [|c s IH].
  - reflexivity.
  - cbn [searchFrom firstPxNumeral]. pose proof (matchAt_px whole (c :: s)) as H.
    destruct (matchAt pxRegex whole (c :: s)) as [m|], (pxNumeralAt (c :: s)) as [n|];
      try discriminate H; [exact H|exact IH].
Qed.

Lemma parsePxChars_value s :
  parsePxChars s = Str.toNumber <$> firstPxNumeral (Str.trim s).
Proof.
  unfold parsePxChars, exec.
  pose proof (searchFrom_px (length (Str.trim s)) (Str.trim s)) as H.
  destruct (searchFrom pxRegex _ _) as [m|], (firstPxNumeral _) as [n|];
    try discriminate H; [|reflexivity].
  cbn in H |- *. injection H as ->. reflexivity.
Qed.

(** C8 (as the code has it): the length parser gives a pixel value
    exactly for the strings that contain, anywhere, a digit directly
    followed by [px]; every other input, and a missing one, gives
    absent.  The value is the number written by the numeral at the
    leftmost place that has one: an optional minus sign, all the digits
    there, possibly a dot and all the digits after it, and then [px].
    So [16px] gives 16, [4.5px] gives 4.5, [-5px] gives -5, and the
    pattern not being anchored [1px solid red] gives 1, [.5px] gives 5
    and [1e3px] gives 3; [auto] and [1.5em] give absent. *)
Theorem parsePx_contains :
  (forall v : string,
     is_Some (parsePx (Some v))
     <-> exists pre d suf,
           Str.ofString v = pre ++ d :: Str.ofString "px" ++ suf /\ Str.isDigit d = true)
  /\ (forall v : string,
        parsePx (Some v)
        = match Str.ofString v with
          | [] => None
          | cs => Str.toNumber <$> firstPxNumeral (Str.trim cs)
          end)
  /\ parsePx None = None
  /\ parsePx (Some "16px"%string) = Some (Num.ofZ 16)
  /\ parsePx (Some "auto"%string) = None
  /\ parsePx (Some "1.5em"%string) = None
  /\ parsePx (Some "1px solid red"%string) = Some (Num.ofZ 1)
  /\ parsePx (Some "4.5px"%string) = Some (Num.ofRatio false 9 2)
  /\ parsePx (Some "-5px"%string) = Some (Num.ofZ (-5))
  /\ parsePx (Some ".5px"%string) = Some (Num.ofZ 5)
  /\ parsePx (Some "1e3px"%string) = Some (Num.ofZ 3).
Proof.
  split; [|split; [|by vm_compute]].
  - intros v. unfold parsePx, nonEmptyStr.
    destruct (Str.ofString v) as [|c cs] eqn:E.
    + split; [by intros [? ?]|]. intros (pre & d & suf & H & _). by destruct pre.
    + apply parsePxChars_is_Some.
  - intros v. unfold parsePx, nonEmptyStr.
    destruct (Str.ofString v) as [|c cs]; [reflexivity|]. apply parsePxChars_value.
Qed.

(** C8, the claim as written fails: [1px solid red] is not a number
    followed by [px], and it has the value 1. *)
Lemma parsePx_not_anchored :
  ~ isNumberPx "1px solid red" /\ parsePx (Some "1px solid red"%string) = Some (Num.ofZ 1).
Proof.
  split; [|by vm_compute].
  intros (pre & d & H & _)%pxRegex_lang_ends.
  apply (f_equal (@rev _)) in H. rewrite rev_app_distr in H.
  vm_compute in H. discriminate H.
Qed.

(** ** Induction on the input tree *)

Lemma JsonNode_tree_ind (P : JsonNode -> Prop) :
  (forall text, P (JText text)) ->
  (forall tag attrs style children,
     Forall P children -> P (JElement tag attrs style children)) ->
  forall n, P n.
Proof.
  intros Htext Hel. fix IH 1. intros [text|tag attrs style children].
  - apply Htext.
  - apply Hel. induction children as [|c cs IHcs]; constructor; [apply IH|apply IHcs].
Qed.

(** ** The host enters the engine through its answers only *)

Section HostExt.
  Variable h : Host.
  Variable loader : FontValue -> bool.
  Hypothesis Hfont : forall f, loadFontAsync h f = loader f.

  Local Abbreviation h' := (withLoader loader h).

Lemma tryAttempts_ext font attempts :
    tryAttempts h font attempts = tryAttempts h' font attempts.
  Proof.
    induction attempts as [|a rest IH]; simpl; [done|]. by rewrite Hfont, IH.
  Qed.

Lemma ensureFonts_ext fonts aliases :
    ensureFonts h fonts aliases = ensureFonts h' fonts aliases.
  Proof.
    unfold ensureFonts. generalize (MkFontReport [] [] [], aliases).
    induction fonts as [|f fonts IH]; intros acc; simpl; [done|].
    rewrite <- IH. f_equal. unfold ensureFont, loadFontWithFallback.
    by rewrite tryAttempts_ext.
  Qed.

Lemma prepareFontsForPayload_ext nodes w :
    prepareFontsForPayload h nodes w = prepareFontsForPayload h' nodes w.
  Proof. unfold prepareFontsForPayload. by rewrite ensureFonts_ext. Qed.

Lemma appendWithMargin_ext parent child style w :
    appendWithMargin h parent child style w = appendWithMargin h' parent child style w.
  Proof. reflexivity. Qed.

Lemma applyFrameBoxStyle_ext f style al w :
    applyFrameBoxStyle h f style al w = applyFrameBoxStyle h' f style al w.
  Proof. reflexivity. Qed.

Lemma applyTextStyle_ext t style w :
    applyTextStyle h t style w = applyTextStyle h' t style w.
  Proof. unfold applyTextStyle. by rewrite Hfont. Qed.

Lemma loadTextFont_ext t style w :
    loadTextFont h t style w = loadTextFont h' t style w.
  Proof. unfold loadTextFont. by rewrite !Hfont. Qed.

Lemma andThen_ext o k k' : (forall w, k w = k' w) -> andThen o k = andThen o k'.
  Proof. intros Hk. destruct o; simpl; [apply Hk|done]. Qed.

Lemma renderPlainTextNode_ext text parent ps w :
    renderPlainTextNode h text parent ps w = renderPlainTextNode h' text parent ps w.
  Proof.
    unfold renderPlainTextNode. destruct (createText w) as [t w1].
    rewrite loadTextFont_ext. apply andThen_ext. intros w2.
    rewrite applyTextStyle_ext, appendWithMargin_ext. reflexivity.
  Qed.

Lemma renderHeading_ext attrs style children parent nodeId tag w :
    renderHeading h attrs style children parent nodeId tag w
    = renderHeading h' attrs style children parent nodeId tag w.
  Proof.
    unfold renderHeading. destruct (createText w) as [t w1].
    rewrite loadTextFont_ext. apply andThen_ext. intros w2.
    rewrite applyTextStyle_ext, appendWithMargin_ext. reflexivity.
  Qed.

Lemma renderInlineText_ext opts attrs style children parent nodeId tag w :
    renderInlineText h opts attrs style children parent nodeId tag w
    = renderInlineText h' opts attrs style children parent nodeId tag w.
  Proof.
    unfold renderInlineText. destruct (createText w) as [t w1].
    rewrite loadTextFont_ext. apply andThen_ext. intros w2.
    rewrite applyTextStyle_ext, appendWithMargin_ext. reflexivity.
  Qed.

Lemma renderButtonElement_ext tag attrs style children parent nodeId w :
    renderButtonElement h tag attrs style children parent nodeId w
    = renderButtonElement h' tag attrs style children parent nodeId w.
  Proof.
    unfold renderButtonElement. destruct (createFrame w) as [f w1].
    rewrite applyFrameBoxStyle_ext.
    set (w2 := applyFrameBoxStyle h' f style true _).
    assert (Hinner :
      (if String.eqb (orText (childrenText children) (default ""%string (attr attrs "value"))) ""
       then Ok w2
       else let '(textNode, w) := createText w2 in
            andThen (loadTextFont h textNode style w)
              (fun w => Ok (appendChild f textNode
                 (applyTextStyle h textNode style
                    (setProp textNode "characters"
                       (VStr (orText (childrenText children)
                                (default ""%string (attr attrs "value")))) w)))))
      = (if String.eqb (orText (childrenText children) (default ""%string (attr attrs "value"))) ""
         then Ok w2
         else let '(textNode, w) := createText w2 in
              andThen (loadTextFont h' textNode style w)
                (fun w => Ok (appendChild f textNode
                   (applyTextStyle h' textNode style
                      (setProp textNode "characters"
                         (VStr (orText (childrenText children)
                                  (default ""%string (attr attrs "value")))) w)))))).
    { destruct (String.eqb _ _); [reflexivity|].
      destruct (createText w2) as [t w3].
      rewrite loadTextFont_ext. apply andThen_ext. intros w4.
      rewrite applyTextStyle_ext. reflexivity. }
    etransitivity; [|etransitivity; [exact (f_equal (fun o => andThen o
      (fun w => Ok (bumpCreated (registerNodeRef nodeId f
         (appendWithMargin h' parent f style w))))) Hinner)|]]; reflexivity.
  Qed.

Lemma renderImageElement_ext attrs style parent nodeId w :
    renderImageElement h attrs style parent nodeId w
    = renderImageElement h' attrs style parent nodeId w.
  Proof.
    unfold renderImageElement. destruct (createRectangle w) as [r w1].
    rewrite appendWithMargin_ext. reflexivity.
  Qed.

Lemma svgPlaceholder_ext name fills style parent nodeId w :
    svgPlaceholder h name fills style parent nodeId w
    = svgPlaceholder h' name fills style parent nodeId w.
  Proof.
    unfold svgPlaceholder. destruct (createFrame w) as [r w1].
    rewrite appendWithMargin_ext. reflexivity.
  Qed.

Lemma renderSvgElement_ext tag attrs style children parent nodeId w :
    renderSvgElement h tag attrs style children parent nodeId w
    = renderSvgElement h' tag attrs style children parent nodeId w.
  Proof.
    unfold renderSvgElement.
    destruct (reconstructSvgString tag attrs style children) as [[|c s]|];
      try apply svgPlaceholder_ext.
    change (createNodeFromSvg h') with (createNodeFromSvg h).
    destruct (createNodeFromSvg h _); [|apply svgPlaceholder_ext].
    destruct (createFrame w) as [r w1].
    rewrite appendWithMargin_ext. reflexivity.
  Qed.

Lemma openListContainer_ext tag style parent nodeId w :
    openListContainer h tag style parent nodeId w
    = openListContainer h' tag style parent nodeId w.
  Proof.
    unfold openListContainer. destruct (createFrame w) as [r w1].
    rewrite applyFrameBoxStyle_ext, appendWithMargin_ext. reflexivity.
  Qed.

Lemma openGenericFrame_ext opts tag attrs style parent nodeId w :
    openGenericFrame h opts tag attrs style parent nodeId w
    = openGenericFrame h' opts tag attrs style parent nodeId w.
  Proof.
    unfold openGenericFrame. destruct (createFrame w) as [r w1].
    rewrite applyFrameBoxStyle_ext, appendWithMargin_ext. reflexivity.
  Qed.

Lemma renderNode_ext opts node :
    forall parent ps w,
      renderNode h opts node parent ps w = renderNode h' opts node parent ps w.
  Proof.
    induction node as [text|tag attrs style children IH] using JsonNode_tree_ind;
      intros parent ps w.
    - apply renderPlainTextNode_ext.
    - cbn [renderNode].
      rewrite renderHeading_ext, renderInlineText_ext, renderButtonElement_ext,
        renderImageElement_ext, renderSvgElement_ext, openListContainer_ext,
        openGenericFrame_ext.
      assert (Hkids : forall frame w0,
        (fix each (cs : list JsonNode) (w1 : World) {struct cs} : Outcome :=
           match cs with
           | [] => Ok w1
           | c :: rest => andThen (renderNode h opts c frame (Some style) w1) (each rest)
           end) children w0
        = (fix each (cs : list JsonNode) (w1 : World) {struct cs} : Outcome :=
           match cs with
           | [] => Ok w1
           | c :: rest => andThen (renderNode h' opts c frame (Some style) w1) (each rest)
           end) children w0).
      { intros frame. induction IH as [|c cs Hc Hcs IHcs]; intros w0; [reflexivity|].
        rewrite Hc. apply andThen_ext. apply IHcs. }
      destruct (has HEADING_TAGS _); [reflexivity|].
      destruct (has INLINE_TEXT_TAGS _); [reflexivity|].
      destruct (has LIST_CONTAINER_TAGS _).
      { destruct (openListContainer _ _ _ _ _ _). apply Hkids. }
      destruct (String.eqb _ "img"); [reflexivity|].
      destruct (has BUTTON_TAGS _); [reflexivity|].
      destruct (String.eqb _ "svg"); [reflexivity|].
      destruct (has SVG_TAGS _); [reflexivity|].
      destruct (openGenericFrame _ _ _ _ _ _ _ _). apply Hkids.
  Qed.

Lemma renderNodes_ext opts nodes parent ps w :
    renderNodes h opts nodes parent ps w = renderNodes h' opts nodes parent ps w.
  Proof.
    revert w. induction nodes as [|n rest IH]; intros w; simpl; [done|].
    rewrite renderNode_ext. apply andThen_ext. exact IH.
  Qed.

Lemma createLocalStylesFromDocument_ext w :
    createLocalStylesFromDocument h w = createLocalStylesFromDocument h' w.
  Proof.
    unfold createLocalStylesFromDocument. f_equal.
    generalize (w, MkStyleMaps [] []). induction (findAll w) as [|n ns IH]; intros acc;
      simpl; [done|].
    rewrite <- IH. f_equal. unfold styleNode, fontLoads. destruct acc as [w0 maps].
    destruct (prop w0 n "fontName") as [[]|]; try reflexivity. rewrite Hfont. reflexivity.
  Qed.

Lemma processImportMessage_ext payload opts w :
    processImportMessage h payload opts w = processImportMessage h' payload opts w.
  Proof.
    unfold processImportMessage. rewrite prepareFontsForPayload_ext.
    destruct (prepareFontsForPayload h' payload w) as [rep w1].
    destruct (createRootFrame _ _) as [frame w2].
    rewrite renderNodes_ext. apply andThen_ext. intros w3.
    rewrite createLocalStylesFromDocument_ext. reflexivity.
  Qed.
End HostExt.

(** A host is known to the engine by its answers: with a font loader
    that answers alike the import is the same. *)
Lemma processImportMessage_loader h loader payload opts w :
  (forall f, loadFontAsync h f = loader f) ->
  processImportMessage h payload opts w
  = processImportMessage (withLoader loader h) payload opts w.
Proof. intros H. by apply processImportMessage_ext. Qed.

(** ** The store *)

Lemma getNode_setProp id key v w j :
  getNode (setProp id key v w) j
  = if decide (id = j)
    then (fun n => MkNode (ntype n) (nchildren n) (<[key := v]> (nprops n))) <$> getNode w id
    else getNode w j.
Proof. unfold getNode, setProp, updDoc, updNodes; simpl. apply lookup_alter. Qed.

Lemma typeOf_setProp id key v w j : typeOf (setProp id key v w) j = typeOf w j.
Proof.
  unfold typeOf. rewrite getNode_setProp. case_decide; [subst|done].
  by destruct (getNode w j).
Qed.

Lemma childrenOf_setProp id key v w j : childrenOf (setProp id key v w) j = childrenOf w j.
Proof.
  unfold childrenOf. rewrite getNode_setProp. case_decide; [subst|done].
  by destruct (getNode w j).
Qed.

Lemma prop_setProp_other_node id key v w j k : id <> j -> prop (setProp id key v w) j k = prop w j k.
Proof. intros H. unfold prop. rewrite getNode_setProp. by case_decide. Qed.

Lemma prop_setProp_other_key id key v w j k :
  key <> k -> prop (setProp id key v w) j k = prop w j k.
Proof.
  intros H. unfold prop. rewrite getNode_setProp. case_decide; [subst|done].
  destruct (getNode w j); simpl; [|done]. by rewrite lookup_insert_ne.
Qed.

Lemma prop_setProp_same id key v w :
  is_Some (getNode w id) -> prop (setProp id key v w) id key = Some v.
Proof.
  intros [n Hn]. unfold prop. rewrite getNode_setProp. case_decide; [|done].
  rewrite Hn. simpl. apply lookup_insert_eq.
Qed.

Lemma exists_setProp id key v w j :
  is_Some (getNode (setProp id key v w) j) <-> is_Some (getNode w j).
Proof.
  rewrite getNode_setProp. case_decide; [subst|done].
  destruct (getNode w j); simpl; split; intros [? ?]; by eexists.
Qed.

Lemma typeOf_resize id a b w j : typeOf (resize id a b w) j = typeOf w j.
Proof. unfold resize. by rewrite !typeOf_setProp. Qed.

Lemma childrenOf_resize id a b w j : childrenOf (resize id a b w) j = childrenOf w j.
Proof. unfold resize. by rewrite !childrenOf_setProp. Qed.

Lemma exists_resize id a b w j :
  is_Some (getNode (resize id a b w) j) <-> is_Some (getNode w j).
Proof. unfold resize. by rewrite !exists_setProp. Qed.

Lemma getNode_appendChild p c w q :
  getNode (appendChild p c w) q
  = if decide (p = q)
    then (fun n => MkNode (ntype n) (removeId c (nchildren n) ++ [c]) (nprops n)) <$> getNode w q
    else (fun n => MkNode (ntype n) (removeId c (nchildren n)) (nprops n)) <$> getNode w q.
Proof.
  unfold getNode, appendChild, updDoc, updNodes, updPageChildren; simpl.
  rewrite lookup_alter. case_decide; [subst|]; rewrite lookup_fmap; [|done].
  by destruct (nodes (doc w) !! q).
Qed.

Lemma childrenOf_appendChild p c w q :
  childrenOf (appendChild p c w) q
  = if decide (p = q)
    then (if getNode w q is Some _ then removeId c (childrenOf w q) ++ [c] else [])
    else removeId c (childrenOf w q).
Proof.
  unfold childrenOf. rewrite getNode_appendChild.
  case_decide; by destruct (getNode w q).
Qed.

Lemma prop_appendChild p c w q k : prop (appendChild p c w) q k = prop w q k.
Proof.
  unfold prop. rewrite getNode_appendChild. case_decide; by destruct (getNode w q).
Qed.

Lemma typeOf_appendChild p c w q : typeOf (appendChild p c w) q = typeOf w q.
Proof.
  unfold typeOf. rewrite getNode_appendChild. case_decide; by destruct (getNode w q).
Qed.

Lemma exists_appendChild p c w q :
  is_Some (getNode (appendChild p c w) q) <-> is_Some (getNode w q).
Proof.
  rewrite getNode_appendChild.
  case_decide; destruct (getNode w q); simpl; split; intros [? ?]; by eexists.
Qed.

Lemma getNode_createNode t props w q :
  getNode (snd (createNode t props w)) q
  = if decide (nextId (doc w) = q) then Some (MkNode t [] props) else getNode w q.
Proof.
  unfold getNode, createNode, updDoc, updNodes; simpl.
  case_decide; [subst; apply lookup_insert_eq|by apply lookup_insert_ne].
Qed.

Lemma prop_resize_other_node id a b w j k : id <> j -> prop (resize id a b w) j k = prop w j k.
Proof. intros H. unfold resize. by rewrite !prop_setProp_other_node. Qed.

Lemma prop_resize_width id a b w :
  is_Some (getNode w id) -> prop (resize id a b w) id "width" = Some (VNum a).
Proof.
  intros H. unfold resize. rewrite prop_setProp_other_key by done.
  by apply prop_setProp_same.
Qed.

Lemma removeId_notin c l : ~ In c l -> removeId c l = l.
Proof.
  induction l as [|x l IH]; simpl; [done|]. intros H.
  destruct (Nat.eqb_spec x c); [tauto|]. simpl. f_equal. tauto.
Qed.

Lemma removeId_app c l1 l2 : removeId c (l1 ++ l2) = removeId c l1 ++ removeId c l2.
Proof. apply List.filter_app. Qed.

(** ** End to end *)

Lemma processImportMessage_alsoLoading h font payload opts w :
  loadFontAsync h font = true ->
  processImportMessage h payload opts w
  = processImportMessage (alsoLoading font h) payload opts w.
Proof.
  intros H. apply processImportMessage_loader. intros f.
  case_bool_decide; [subst; by rewrite H|reflexivity].
Qed.

(** C1: the import of the flex row of two spans, on any host that can
    load Inter Regular and with any options, comes to its end with one
    horizontal frame, of item spacing 8, whose children are the two text
    runs of the document, [A] then [B]. *)
Theorem flexRow_end_to_end (h : Host) (opts : Options) :
  loadFontAsync h interRegular = true ->
  completed (processImportMessage h [flexRow] opts emptyWorld) = true
  /\ exists frame a b,
       let w := worldOf (processImportMessage h [flexRow] opts emptyWorld) in
       horizontalFrames w = [frame]
       /\ prop w frame "itemSpacing" = Some (VNum (Num.ofZ 8))
       /\ childrenOf w frame = [a; b]
       /\ textRuns w = [a; b]
       /\ strProp w a "characters" = "A"%string
       /\ strProp w b "characters" = "B"%string.
Proof.
  intros H. rewrite (processImportMessage_alsoLoading h interRegular) by exact H.
  clear H. destruct h as [lf mc ms gp fb bd ci svg nt].
  destruct opts as [[] [] [] vp];
    (split; [vm_compute; reflexivity|]; exists 1%nat, 2%nat, 3%nat; cbv zeta;
     repeat split; vm_compute; reflexivity).
Qed.

Lemma flexRow_end_to_end_witness :
  loadFontAsync interOnly interRegular = true
  /\ completed (processImportMessage interOnly [flexRow] plainOptions emptyWorld) = true
  /\ exists frame a b,
       let w := worldOf (processImportMessage interOnly [flexRow] plainOptions emptyWorld) in
       horizontalFrames w = [frame]
       /\ prop w frame "itemSpacing" = Some (VNum (Num.ofZ 8))
       /\ childrenOf w frame = [a; b]
       /\ textRuns w = [a; b]
       /\ strProp w a "characters" = "A"%string
       /\ strProp w b "characters" = "B"%string.
Proof.
  split; [reflexivity|].
  apply (flexRow_end_to_end interOnly plainOptions). reflexivity.
Defined.

(** C10: a paragraph with a margin is wrapped in a frame named
    [margin]; the builder never assigns [clipsContent] on that frame, so
    it keeps the clipping the host creates frames with, while the root
    frame has it disabled. *)
Theorem margin_wrapper_clips :
  let o := processImportMessage hostAll [marginParagraph] plainOptions emptyWorld in
  completed o = true
  /\ List.filter (isFrame (worldOf o)) (findAll (worldOf o)) = [0; 2]%nat
  /\ strProp (worldOf o) 2 "name" = "margin"%string
  /\ childrenOf (worldOf o) 2 = [1]%nat
  /\ prop (worldOf o) 2 "clipsContent" = Some (VBool true)
  /\ prop (worldOf o) 0 "clipsContent" = Some (VBool false).
Proof. cbv zeta. repeat split; vm_compute; reflexivity. Qed.

(** C9: a container whose background is a remote image keeps, from its
    creation on, the white fill the host creates frames with: the fills
    are not emptied when the fetch is scheduled, they are still the
    white fill when the fetch has failed, and they are the image paint
    when it has succeeded. *)
Theorem picture_frame_fills :
  extractImageReference (Some "url(https://example.com/bg.png)"%string)
  = Some "https://example.com/bg.png"%string
  /\ (let '(frame, w) :=
        openGenericFrame hostAll plainOptions "div" []
          (<["background-image" := "url(https://example.com/bg.png)"%string]> ∅)
          0 None (snd (createRootFrame None emptyWorld)) in
      frame = 1%nat
      /\ childrenOf w 0 = [1]%nat
      /\ prop w 1 "fills" = Some (VPaints [SolidPaint white None])
      /\ map task_node (pendingFills (ctx w)) = [1]%nat)
  /\ (let o := processImportMessage hostAll [pictureDiv] plainOptions emptyWorld in
      completed o = true
      /\ prop (worldOf o) 1 "fills" = Some (VPaints [SolidPaint white None]))
  /\ (let o := processImportMessage hostOnline [pictureDiv] plainOptions emptyWorld in
      completed o = true
      /\ prop (worldOf o) 1 "fills" = Some (VPaints [ImagePaint "hash" "FILL"])).
Proof. cbv zeta. repeat split; vm_compute; reflexivity. Qed.

(** ** Style pass *)

Lemma sizeLookup_seen x m :
  sizeLookup x m = None <-> existsb (fun k => Num.sameValueZero k x) (map fst m) = false.
Proof.
  induction m as [|[k v] m IH]; simpl; [done|].
  destruct (Num.sameValueZero k x); simpl; [split; discriminate|exact IH].
Qed.

Lemma colorLookup_seen x m :
  colorLookup x m = None <-> existsb (fun k => String.eqb k x) (map fst m) = false.
Proof.
  induction m as [|[k v] m IH]; simpl; [done|].
  destruct (String.eqb k x); simpl; [split; discriminate|exact IH].
Qed.

Lemma colorLookup_app x m k v :
  colorLookup x (m ++ [(k, v)])
  = match colorLookup x m with
    | Some id => Some id
    | None => if String.eqb k x then Some v else None
    end.
Proof.
  induction m as [|[k' v'] m IH]; simpl; [done|].
  by destruct (String.eqb k' x).
Qed.

Section StylePass.
  Variable h : Host.
  (** The document the pass starts from. *)
  Variable w0 : World.

Lemma passInv_styled w maps n : passInv w0 w maps -> styled h w n = styled h w0 n.
  Proof.
    intros (Ht & Hf & _). unfold styled, isText, fontLoads. by rewrite Ht, Hf.
  Qed.

Lemma colorKeyOf_fills id c w j :
    is_Some (getNode w id) ->
    colorKeyOf (setProp id "fills" (VPaints [SolidPaint c None]) w) j
    = if decide (id = j) then Some (hexOf c) else colorKeyOf w j.
  Proof.
    intros Hex. unfold colorKeyOf, firstSolid. case_decide.
    - subst. by rewrite prop_setProp_same.
    - by rewrite prop_setProp_other_node.
  Qed.

Lemma colorKeyOf_other_key id key v w j :
    key <> "fills"%string -> colorKeyOf (setProp id key v w) j = colorKeyOf w j.
  Proof.
    intros Hk. unfold colorKeyOf, firstSolid. by rewrite prop_setProp_other_key.
  Qed.

Lemma colorKeyOf_Some_exists w n key : colorKeyOf w n = Some key -> is_Some (getNode w n).
  Proof.
    unfold colorKeyOf, firstSolid, prop. destruct (getNode w n); [by eexists|done].
  Qed.

  (** One node of the pass. *)
Lemma styleNode_step w maps n :
    passInv w0 w maps ->
    let newSizes :=
      if styled h w0 n
      then match sizeOf w0 n with
           | Some x =>
               if existsb (fun k => Num.sameValueZero k x) (map fst (sizeSet maps))
               then [] else [x]
           | None => []
           end
      else [] in
    let newKeys :=
      if styled h w0 n
      then match colorKeyOf w0 n with
           | Some key =>
               if existsb (fun k => String.eqb k key) (map fst (colorSet maps))
               then [] else [key]
           | None => []
           end
      else [] in
    exists newPaints,
      passInv w0 (fst (styleNode h (w, maps) n)) (snd (styleNode h (w, maps) n))
      /\ textStyles (doc (fst (styleNode h (w, maps) n)))
         = textStyles (doc w) ++ map (textStyleOf h) newSizes
      /\ map fst (sizeSet (snd (styleNode h (w, maps) n)))
         = map fst (sizeSet maps) ++ newSizes
      /\ paintStyles (doc (fst (styleNode h (w, maps) n))) = paintStyles (doc w) ++ newPaints
      /\ map ps_name newPaints = map (cat "Color/") newKeys
      /\ Forall isColorStyle newPaints
      /\ map fst (colorSet (snd (styleNode h (w, maps) n)))
         = map fst (colorSet maps) ++ newKeys.
  Proof.
    intros Hinv. pose proof (passInv_styled w maps n Hinv) as Hst.
    destruct Hinv as (Ht & Hf & Hs & Hc & Hj).
    cbv zeta. rewrite <- Hst. unfold styleNode, styled, isText.
    destruct (bool_decide (typeOf w n = Some TEXT)) eqn:Etext; simpl negb; cbv iota.
    2:{ exists []. simpl. rewrite !app_nil_r. repeat split; try done. }
    destruct (fontLoads h w n) eqn:Efont; simpl negb; cbv iota.
    2:{ exists []. simpl. rewrite !app_nil_r. repeat split; try done. }
    simpl andb. cbv iota.
    (* the text style *)
    set (sizeStep :=
      match prop w n "fontSize" with
      | Some (VNum fontSize) =>
          match sizeLookup fontSize (sizeSet maps) with
          | Some _ => (w, maps)
          | None =>
              (setProp n "textStyleId" (VStyleId (length (textStyles (doc w))))
                 (updDoc (addTextStyle
                    (MkTextStyle (cat "Text/" (numberToString h fontSize)) fontSize)) w),
               MkStyleMaps (sizeSet maps ++ [(fontSize, length (textStyles (doc w)))])
                 (colorSet maps))
          end
      | _ => (w, maps)
      end).
    set (newSizes :=
      match sizeOf w0 n with
      | Some x =>
          if existsb (fun k => Num.sameValueZero k x) (map fst (sizeSet maps))
          then [] else [x]
      | None => []
      end).
    assert (Hsize :
      passInv w0 (fst sizeStep) (snd sizeStep)
      /\ textStyles (doc (fst sizeStep)) = textStyles (doc w) ++ map (textStyleOf h) newSizes
      /\ map fst (sizeSet (snd sizeStep)) = map fst (sizeSet maps) ++ newSizes
      /\ paintStyles (doc (fst sizeStep)) = paintStyles (doc w)
      /\ colorSet (snd sizeStep) = colorSet maps).
    { unfold sizeStep, newSizes, sizeOf. rewrite <- Hs.
      destruct (prop w n "fontSize") as [[]|];
        try (simpl; rewrite !app_nil_r; repeat split; done).
      destruct (sizeLookup n0 (sizeSet maps)) eqn:El.
      - assert (existsb (fun k => Num.sameValueZero k n0) (map fst (sizeSet maps)) = true)
          as ->.
        { destruct (existsb _ _) eqn:E; [done|]. apply sizeLookup_seen in E. congruence. }
        simpl. rewrite !app_nil_r. repeat split; try done.
      - apply sizeLookup_seen in El. rewrite El. simpl.
        split; [|repeat split; try reflexivity; by rewrite map_app].
        repeat split.
        + intros m. rewrite typeOf_setProp. apply Ht.
        + intros m. rewrite prop_setProp_other_key by done. apply Hf.
        + intros m. rewrite prop_setProp_other_key by done. apply Hs.
        + intros m. rewrite colorKeyOf_other_key by done. apply Hc.
        + exact Hj. }
    destruct sizeStep as [w1 maps1]. simpl fst in Hsize; simpl snd in Hsize.
    destruct Hsize as ((Ht1 & Hf1 & Hs1 & Hc1 & Hj1) & HT & HS & HP & HC).
    destruct maps1 as [sizes1 colors1]. simpl in HS, HC, Hj1. subst colors1. simpl.
    (* the colour style *)
    assert (Hkey : colorKeyOf w0 n = hexOf <$> firstSolid w1 n) by (by rewrite <- Hc1).
    rewrite Hkey.
    destruct (firstSolid w1 n) as [color|] eqn:Esolid; simpl fmap; cbv iota.
    2:{ exists []. simpl. rewrite !app_nil_r.
        split; [|repeat split; first [assumption | reflexivity | congruence | by constructor]].
        refine (conj _ (conj _ (conj _ (conj _ _)))); assumption. }
    assert (Hex : is_Some (getNode w1 n)).
    { apply (colorKeyOf_Some_exists w1 n (hexOf color)). unfold colorKeyOf. by rewrite Esolid. }
    destruct (colorLookup (hexOf color) (colorSet maps)) as [id|] eqn:El.
    - destruct (Hj1 _ _ El) as (c & Hnth & Hcol).
      assert (existsb (fun k => String.eqb k (hexOf color)) (map fst (colorSet maps)) = true)
        as ->.
      { destruct (existsb _ _) eqn:E; [done|].
        apply colorLookup_seen in E. congruence. }
      exists []. simpl. rewrite Hnth. simpl. rewrite !app_nil_r.
      split; [|repeat split; first [assumption | reflexivity | congruence | by constructor]].
      refine (conj _ (conj _ (conj _ (conj _ _)))).
      + intros m. rewrite !typeOf_setProp. apply Ht1.
      + intros m. rewrite !prop_setProp_other_key by done. apply Hf1.
      + intros m. rewrite !prop_setProp_other_key by done. apply Hs1.
      + intros m. rewrite colorKeyOf_fills by (by apply exists_setProp).
        rewrite colorKeyOf_other_key by done.
        destruct (decide (n = m)) as [Hm|Hm]; [|apply Hc1].
        rewrite <- Hm, <- Hc1. unfold colorKeyOf. rewrite Esolid. simpl. by rewrite Hcol.
      + intros key id' Hl. exact (Hj1 key id' Hl).
    - assert (existsb (fun k => String.eqb k (hexOf color)) (map fst (colorSet maps)) = false)
        as ->.
      { by apply colorLookup_seen. }
      exists [MkPaintStyle (cat "Color/" (hexOf color)) [SolidPaint color None]].
      simpl.
      assert (Hnth : nth_error (paintStyles (doc w1)
                       ++ [MkPaintStyle (cat "Color/" (hexOf color)) [SolidPaint color None]])
                       (length (paintStyles (doc w1)))
                     = Some (MkPaintStyle (cat "Color/" (hexOf color))
                               [SolidPaint color None])).
      { rewrite nth_error_app2 by lia. by rewrite Nat.sub_diag. }
      rewrite Hnth. simpl. rewrite HP, map_app. simpl.
      split; [|repeat split; try (assumption || reflexivity);
               constructor; [by exists color|constructor]].
      refine (conj _ (conj _ (conj _ (conj _ _)))).
      + intros m. rewrite !typeOf_setProp. apply Ht1.
      + intros m. rewrite !prop_setProp_other_key by done. apply Hf1.
      + intros m. rewrite !prop_setProp_other_key by done. apply Hs1.
      + intros m. rewrite colorKeyOf_fills.
        2:{ apply exists_setProp. exact Hex. }
        rewrite colorKeyOf_other_key by done.
        destruct (decide (n = m)) as [Hm|Hm]; [|apply Hc1].
        rewrite <- Hm, <- Hc1. unfold colorKeyOf. by rewrite Esolid.
      + intros key id' Hl. simpl in Hl |- *. rewrite ?HP in Hl |- *.
        rewrite colorLookup_app in Hl.
        destruct (colorLookup key (colorSet maps)) as [id''|] eqn:El'.
        * simplify_eq. destruct (Hj1 _ _ El') as (c & Hn & Hcol).
          exists c. split; [|done].
          rewrite nth_error_app1; [exact Hn|]. apply nth_error_Some. by rewrite Hn.
        * destruct (String.eqb_spec (hexOf color) key); [|done]. simplify_eq.
          exists color. split; [|done]. rewrite <- ?HP. exact Hnth.
  Qed.
End StylePass.

Lemma distinctSizes_cons seen x rest :
  (if existsb (fun k => Num.sameValueZero k x) seen then [] else [x])
  ++ distinctSizes
       (seen ++ (if existsb (fun k => Num.sameValueZero k x) seen then [] else [x])) rest
  = distinctSizes seen (x :: rest).
Proof. simpl. destruct (existsb _ _); simpl; by rewrite ?app_nil_r. Qed.

Lemma distinctKeys_cons seen x rest :
  (if existsb (fun k => String.eqb k x) seen then [] else [x])
  ++ distinctKeys
       (seen ++ (if existsb (fun k => String.eqb k x) seen then [] else [x])) rest
  = distinctKeys seen (x :: rest).
Proof. simpl. destruct (existsb _ _); simpl; by rewrite ?app_nil_r. Qed.

Lemma passInv_start w : passInv w w (MkStyleMaps [] []).
Proof. by repeat split. Qed.

(** The nodes of the pass, one after the other. *)
Lemma styleNodes_fold h w0 nodes :
  forall w maps,
    passInv w0 w maps ->
    exists newPaints,
      textStyles (doc (fst (fold_left (styleNode h) nodes (w, maps))))
      = textStyles (doc w)
        ++ map (textStyleOf h)
             (distinctSizes (map fst (sizeSet maps))
                (omap (sizeOf w0) (List.filter (styled h w0) nodes)))
      /\ paintStyles (doc (fst (fold_left (styleNode h) nodes (w, maps))))
         = paintStyles (doc w) ++ newPaints
      /\ map ps_name newPaints
         = map (cat "Color/")
             (distinctKeys (map fst (colorSet maps))
                (omap (colorKeyOf w0) (List.filter (styled h w0) nodes)))
      /\ Forall isColorStyle newPaints.
Proof.
  induction nodes as [|n rest IH]; intros w maps Hinv.
  - exists []. simpl. by rewrite !app_nil_r.
  - destruct (styleNode_step h w0 w maps n Hinv)
      as (newP & Hinv' & HT & HS & HP & HN & HF & HK).
    change (fold_left (styleNode h) (n :: rest) (w, maps))
      with (fold_left (styleNode h) rest (styleNode h (w, maps) n)).
    destruct (styleNode h (w, maps) n) as [w1 maps1]. simpl fst in *; simpl snd in *.
    destruct (IH w1 maps1 Hinv') as (restP & HT' & HP' & HN' & HF').
    exists (newP ++ restP).
    rewrite HT', HP', HT, HP, HS, !map_app, HN', HN, HK, <- !app_assoc.
    clear -HF HF'. simpl List.filter.
    split; [|split; [done|split; [|by apply Forall_app]]].
    + f_equal. rewrite <- map_app. f_equal.
      destruct (styled h w0 n); [|by rewrite app_nil_r].
      simpl omap. destruct (sizeOf w0 n) as [x|]; [|by rewrite app_nil_r].
      apply distinctSizes_cons.
    + rewrite <- map_app. f_equal.
      destruct (styled h w0 n); [|by rewrite app_nil_r].
      simpl omap. destruct (colorKeyOf w0 n) as [x|]; [|by rewrite app_nil_r].
      apply distinctKeys_cons.
Qed.

Lemma distinctKeys_spec l :
  forall seen,
    NoDup (distinctKeys seen l)
    /\ (forall k, In k (distinctKeys seen l) <-> In k l /\ ~ In k seen).
Proof.
  induction l as [|x rest IH]; intros seen; simpl.
  - split; [constructor|]. tauto.
  - destruct (existsb (fun k => String.eqb k x) seen) eqn:E.
    + destruct (IH seen) as [Hnd Hin]. split; [done|]. intros k. rewrite Hin.
      apply existsb_exists in E as (y & Hy & ->%String.eqb_eq).
      split; [tauto|]. intros [[->|H] Hn]; [done|tauto].
    + destruct (IH (seen ++ [x])) as [Hnd Hin].
      assert (Hx : ~ In x seen).
      { intros Hx. assert (existsb (fun k => String.eqb k x) seen = true); [|congruence].
        apply existsb_exists. exists x. by rewrite String.eqb_refl. }
      split.
      * apply NoDup_cons_2; [|done]. rewrite list_elem_of_In, Hin, in_app_iff. simpl. tauto.
      * intros k. simpl. rewrite Hin, in_app_iff. simpl.
        destruct (decide (x = k)) as [->|Hne]; [tauto|]. tauto.
Qed.

Lemma distinctSizes_spec l :
  forall seen,
    ForallOrdPairs (fun a b => Num.sameValueZero a b = false) (distinctSizes seen l)
    /\ Forall (fun y => existsb (fun k => Num.sameValueZero k y) seen = false)
         (distinctSizes seen l)
    /\ (forall x, In x l ->
          existsb (fun k => Num.sameValueZero k x) (seen ++ distinctSizes seen l) = true)
    /\ (forall y, In y (distinctSizes seen l) -> In y l).
Proof.
  induction l as [|x rest IH]; intros seen; simpl.
  - repeat split; try constructor; tauto.
  - destruct (existsb (fun k => Num.sameValueZero k x) seen) eqn:E.
    + destruct (IH seen) as (Hp & Hs & Hc & Hi). repeat split; try done.
      * intros y [->|Hy]; [|by apply Hc]. rewrite existsb_app, E. done.
      * intros y Hy. right. by apply Hi.
    + destruct (IH (seen ++ [x])) as (Hp & Hs & Hc & Hi). repeat split.
      * constructor; [|done].
        eapply Forall_impl; [exact Hs|]. intros y Hy. cbv beta in Hy.
        rewrite existsb_app in Hy. apply orb_false_elim in Hy as [_ Hy].
        simpl in Hy. by apply orb_false_elim in Hy as [Hy _].
      * constructor; [done|].
        eapply Forall_impl; [exact Hs|]. intros y Hy. cbv beta in Hy.
        rewrite existsb_app in Hy. by apply orb_false_elim in Hy as [Hy _].
      * intros y Hy. specialize (Hc y).
        replace (seen ++ x :: distinctSizes (seen ++ [x]) rest)
          with ((seen ++ [x]) ++ distinctSizes (seen ++ [x]) rest)
          by (by rewrite <- app_assoc).
        destruct Hy as [->|Hy]; [|by apply Hc].
        rewrite !existsb_app. simpl.
        assert (Num.sameValueZero y y = true) as ->; [|by rewrite !orb_true_r].
        clear. destruct y as [[]|[]| |[] m e]; try reflexivity;
          unfold Num.sameValueZero, Num.eqb, SFeqb, SFcompare;
          rewrite Z.compare_refl, ?Pos.compare_cont_refl; reflexivity.
      * intros y [->|Hy]; [by left|]. right. by apply Hi.
Qed.

(** C5 (as the code has it): a run of the style pass looks at no
    record that exists; it appends one text style for every distinct
    font size of the text runs whose font loads and one colour style,
    named by the hex form, for every distinct hex colour of their first
    solid fill.  No two of the sizes are the same number, every size of
    such a text run is among them, and likewise for the hex colours. *)
Theorem createLocalStyles_appends (h : Host) (w : World) :
  exists newPaints,
    textStyles (doc (createLocalStylesFromDocument h w))
    = textStyles (doc w) ++ map (textStyleOf h) (distinctSizes [] (textSizes h w))
    /\ paintStyles (doc (createLocalStylesFromDocument h w)) = paintStyles (doc w) ++ newPaints
    /\ map ps_name newPaints = map (cat "Color/") (distinctKeys [] (textColors h w))
    /\ Forall isColorStyle newPaints
    /\ ForallOrdPairs (fun a b => Num.sameValueZero a b = false)
         (distinctSizes [] (textSizes h w))
    /\ (forall x, In x (textSizes h w) ->
          existsb (fun k => Num.sameValueZero k x) (distinctSizes [] (textSizes h w)) = true)
    /\ NoDup (distinctKeys [] (textColors h w))
    /\ (forall k, In k (distinctKeys [] (textColors h w)) <-> In k (textColors h w)).
Proof.
  destruct (styleNodes_fold h w (findAll w) w (MkStyleMaps [] []) (passInv_start w))
    as (newPaints & HT & HP & HN & HF).
  exists newPaints. unfold createLocalStylesFromDocument, textSizes, textColors.
  split; [exact HT|]. split; [exact HP|]. split; [exact HN|]. split; [exact HF|].
  destruct (distinctSizes_spec (omap (sizeOf w) (List.filter (styled h w) (findAll w))) [])
    as (Hp & _ & Hc & _).
  destruct (distinctKeys_spec (omap (colorKeyOf w) (List.filter (styled h w) (findAll w))) [])
    as (Hnd & Hin).
  split; [exact Hp|]. split; [exact Hc|]. split; [exact Hnd|].
  intros k. rewrite Hin. simpl. tauto.
Qed.

(** C5, the claim as written fails: on a document with one text run a
    second run of the pass creates the text style and the colour style
    once more. *)
Lemma createLocalStyles_second_run :
  map ts_name (textStyles (doc (createLocalStylesFromDocument hostAll oneTextDoc)))
  = ["Text/12"]%string
  /\ map ps_name (paintStyles (doc (createLocalStylesFromDocument hostAll oneTextDoc)))
     = ["Color/#000000"]%string
  /\ map ts_name
       (textStyles (doc (createLocalStylesFromDocument hostAll
                           (createLocalStylesFromDocument hostAll oneTextDoc))))
     = ["Text/12"; "Text/12"]%string
  /\ map ps_name
       (paintStyles (doc (createLocalStylesFromDocument hostAll
                            (createLocalStylesFromDocument hostAll oneTextDoc))))
     = ["Color/#000000"; "Color/#000000"]%string.
Proof. repeat split; vm_compute; reflexivity. Qed.

(** ** Grid packing *)

Lemma globals_setProp id key v w : globals (setProp id key v w) = globals w.
Proof. reflexivity. Qed.

Lemma globals_resize id a b w : globals (resize id a b w) = globals w.
Proof. reflexivity. Qed.

Lemma globals_appendChild p c w : globals (appendChild p c w) = globals w.
Proof. reflexivity. Qed.

Lemma nextId_setProp id key v w : nextId (doc (setProp id key v w)) = nextId (doc w).
Proof. reflexivity. Qed.

Lemma nextId_resize id a b w : nextId (doc (resize id a b w)) = nextId (doc w).
Proof. reflexivity. Qed.

Lemma nextId_appendChild p c w : nextId (doc (appendChild p c w)) = nextId (doc w).
Proof. reflexivity. Qed.

Lemma getNode_updGlobals f w q : getNode (updGlobals f w) q = getNode w q.
Proof. reflexivity. Qed.

Lemma childrenOf_updGlobals f w q : childrenOf (updGlobals f w) q = childrenOf w q.
Proof. reflexivity. Qed.

Lemma prop_updGlobals f w q k : prop (updGlobals f w) q k = prop w q k.
Proof. reflexivity. Qed.

Lemma typeOf_updGlobals f w q : typeOf (updGlobals f w) q = typeOf w q.
Proof. reflexivity. Qed.

Lemma typeOf_is_Some w q t : typeOf w q = Some t -> is_Some (getNode w q).
Proof. unfold typeOf. destruct (getNode w q); [by eexists|done]. Qed.

Lemma nextId_updGlobals f w : nextId (doc (updGlobals f w)) = nextId (doc w).
Proof. reflexivity. Qed.

Lemma prop_resize_other_key id a b w j k :
  k <> "width"%string -> k <> "height"%string -> prop (resize id a b w) j k = prop w j k.
Proof. intros H1 H2. unfold resize. by rewrite !prop_setProp_other_key. Qed.

Lemma childrenOf_appendChild_parent p c w :
  is_Some (getNode w p) -> childrenOf (appendChild p c w) p = removeId c (childrenOf w p) ++ [c].
Proof.
  intros [n Hn]. rewrite childrenOf_appendChild. case_decide; [|done]. by rewrite Hn.
Qed.

Lemma childrenOf_appendChild_other p c w q :
  p <> q -> childrenOf (appendChild p c w) q = removeId c (childrenOf w q).
Proof. intros H. rewrite childrenOf_appendChild. by case_decide. Qed.

Lemma threeColumns_tracks :
  countGridTracks (Some threeColumns) = Num.ofZ 3
  /\ parseGridColumnWidths (Some threeColumns) = [n100; n100; n100].
Proof. split; vm_compute; reflexivity. Qed.

Ltac store_step :=
  first
    [ rewrite childrenOf_updGlobals | rewrite childrenOf_setProp | rewrite childrenOf_resize
    | rewrite prop_updGlobals | rewrite prop_appendChild
    | rewrite prop_setProp_other_node by lia
    | rewrite prop_resize_other_node by lia
    | rewrite prop_setProp_other_key by done
    | rewrite globals_setProp | rewrite globals_resize | rewrite globals_appendChild
    | rewrite nextId_setProp | rewrite nextId_resize | rewrite nextId_appendChild
    | rewrite getNode_updGlobals | rewrite nextId_updGlobals
    | rewrite prop_resize_other_key by done
    | rewrite exists_setProp | rewrite exists_resize | rewrite exists_appendChild
    | rewrite typeOf_updGlobals | rewrite typeOf_setProp | rewrite typeOf_resize
    | rewrite typeOf_appendChild ].

Lemma initGridMeta_state frame style w :
  style !! "grid-template-columns" = Some threeColumns ->
  typeOf w frame = Some FRAME -> frame < nextId (doc w) -> childrenOf w frame = [] ->
  gridState frame (Num.ofZ 3) [n100; n100; n100]
    (Some (gridWidthOf style)) (initGridMeta frame style w) Num.zero [] [].
Proof.
  intros Hs Hf Hlt Hch. unfold initGridMeta. rewrite Hs.
  destruct threeColumns_tracks as [-> ->].
  change (Num.max Num.one (if Num.truthy (Num.ofZ 3) then Num.ofZ 3 else Num.ofZ 2))
    with (Num.ofZ 3).
  change (if (0 <? length [n100; n100; n100])%nat then ?a else ?b) with a.
  change (Num.add (fold_left Num.add [n100; n100; n100] Num.zero)
            (Num.mul (orElse (orElseOpt (parsePx (style !! "column-gap"))
                                (parsePx (style !! "gap"))) Num.zero)
               (Num.sub (nat2num (length [n100; n100; n100])) Num.one)))
    with (gridWidthOf style).
  cbv zeta. generalize (gridWidthOf style) as tw. intros tw.
  set (meta := MkGridMeta _ _ _ _ _ _ _).
  assert (Hmeta : forall w', globals w' = globals (updGlobals (updGridMetaMap (insert frame meta)) w) ->
            exists m, gridMetaMap (globals w') !! frame = Some m /\ columns m = Num.ofZ 3
              /\ columnWidths m = [n100; n100; n100] /\ totalWidth m = Some tw
              /\ childCount m = Num.zero
              /\ forall i, rows m !! i = (@nil nat) !! i).
  { intros w' ->. exists meta. simpl. rewrite lookup_insert_eq. repeat split. }
  unfold gridState.
  destruct (Num.truthy tw).
  - split; [by rewrite typeOf_setProp, typeOf_resize, !typeOf_setProp|].
    split; [by apply Hmeta|]. split; [done|].
    split; [by repeat store_step|].
    split; [by intros []|]. split; [constructor|]. split; [done|].
    by intros i row kids; rewrite lookup_nil.
  - split; [by rewrite !typeOf_setProp|].
    split; [by apply Hmeta|]. split; [done|].
    split; [by repeat store_step|].
    split; [by intros []|]. split; [constructor|]. split; [done|].
    by intros i row kids; rewrite lookup_nil.
Qed.

Lemma snoc_lookup {A} (l : list A) (x : A) i :
  (l ++ [x]) !! i = if decide (i = length l) then Some x else l !! i.
Proof.
  case_decide.
  - subst. rewrite lookup_app_r by lia. by rewrite Nat.sub_diag.
  - destruct (decide (i < length l)).
    + by rewrite lookup_app_l by lia.
    + rewrite !lookup_ge_None_2; [done| |]; rewrite ?length_app; simpl; lia.
Qed.

Lemma gridState_rows_lt frame cols widths tw w count rowsL kidsL q :
  gridState frame cols widths tw w count rowsL kidsL -> In q rowsL ->
  q < nextId (doc w) /\ q <> frame.
Proof.
  intros (_ & _ & _ & _ & Hfr & _ & Hlen & Hrows) Hq.
  split; [|by intros ->].
  apply list_elem_of_In, list_elem_of_lookup in Hq as [i Hi].
  destruct (lookup_lt_is_Some_2 kidsL i) as [kids Hk].
  { rewrite <- Hlen. by eapply lookup_lt_Some. }
  by destruct (Hrows i q kids Hi Hk) as (? & _).
Qed.

Lemma gridState_new h frame cols widths tw w count rowsL kidsL c :
  gridState frame cols widths tw w count rowsL kidsL ->
  indexOf (Num.floor (Num.div count (Num.max Num.one cols))) = length rowsL ->
  c < nextId (doc w) -> c <> frame -> ~ In c rowsL ->
  (forall kids, In kids kidsL -> ~ In c kids) ->
  gridState frame cols widths tw (appendToGridFrame h frame c w)
    (Num.add count Num.one) (rowsL ++ [nextId (doc w)]) (kidsL ++ [[c]]).
Proof.
  intros HS Hri Hc Hcf Hcr Hfresh.
  pose proof (fun q => gridState_rows_lt _ _ _ _ _ _ _ _ q HS) as Hrlt.
  destruct HS as (Hty & Hm & Hlt & Ho & Hfr & Hnd & Hlen & Hrows).
  pose proof (typeOf_is_Some _ _ _ Hty) as Hf.
  destruct Hm as (m & Hm & Hcols & Hw & Htw & Hcount & Hr).
  unfold appendToGridFrame. rewrite Hm. cbv zeta. rewrite Hcols, Hcount, Hri, Hr.
  rewrite lookup_ge_None_2 by lia.
  destruct (createFrame w) as [row W0] eqn:HW0.
  assert (HW0g : globals W0 = globals w) by (by inversion HW0).
  assert (HW0n : nextId (doc W0) = S (nextId (doc w))) by (by inversion HW0).
  assert (Hrow : nextId (doc w) = row) by (by inversion HW0).
  pose proof (getNode_createNode FRAME frameDefaults w) as HW0get.
  unfold createFrame in HW0. rewrite HW0 in HW0get. simpl in HW0get.
  clear HW0.
  assert (Hold : forall q, q <> row -> getNode W0 q = getNode w q).
  { intros q Hq. rewrite HW0get. case_decide; [lia|done]. }
  assert (Hnew : getNode W0 row = Some (MkNode FRAME [] frameDefaults)).
  { rewrite HW0get. case_decide; [done|lia]. }
  assert (HoldC : forall q, q <> row -> childrenOf W0 q = childrenOf w q).
  { intros q Hq. unfold childrenOf. by rewrite Hold. }
  assert (HoldP : forall q k, q <> row -> prop W0 q k = prop w q k).
  { intros q k Hq. unfold prop. by rewrite Hold. }
  assert (HnewC : childrenOf W0 row = []) by (unfold childrenOf; by rewrite Hnew).
  assert (HnewP : forall k, prop W0 row k = frameDefaults !! k).
  { intros k. unfold prop. by rewrite Hnew. }
  clear HW0get. rewrite Htw, Hrow.
  assert (Hrr : ~ In row rowsL) by (intros Hq; apply Hrlt in Hq; lia).
  destruct tw as [t|]; [destruct (Num.truthy t) eqn:Ht|]; destruct (_ && _);
    ((split; [|split; [|split; [|split; [|split; [|split; [|split]]]]]]);
    [ repeat store_step; unfold typeOf in *; by rewrite Hold by lia
    | eexists; split;
        [cbn [globals updGlobals updGridMetaMap gridMetaMap]; apply lookup_insert_eq|];
      cbn [columns columnWidths totalWidth childCount rows];
      repeat (split; [done|]); intros i;
      rewrite snoc_lookup; case_decide; [subst; by rewrite lookup_insert_eq|];
      by rewrite lookup_insert_ne
    | repeat store_step; lia
    | repeat store_step; rewrite childrenOf_appendChild_other by lia;
      repeat store_step;
      rewrite childrenOf_appendChild_parent
        by (repeat store_step; rewrite Hold by lia; done);
      repeat store_step; rewrite HoldC, Ho by lia;
      rewrite !removeId_app, (removeId_notin row rowsL), (removeId_notin c rowsL) by done;
      simpl; destruct (Nat.eqb_spec row c); [lia|]; done
    | rewrite in_app_iff; simpl; intros [?|[?|[]]]; [done|lia]
    | apply NoDup_app; split; [done|]; split; [|apply NoDup_singleton];
      intros x Hx%list_elem_of_In ->%list_elem_of_singleton; done
    | rewrite !length_app; simpl; lia
    | intros i q kids Hq Hi; rewrite snoc_lookup in Hq; rewrite snoc_lookup in Hi; rewrite <- Hlen in Hi;
      case_decide;
      [ injection Hq as <-; injection Hi as <-;
        (split; [|split; [|split; [|split; [|split]]]]);
        [ repeat store_step; lia
        | repeat store_step; by rewrite Hnew
        | repeat store_step;
          rewrite childrenOf_appendChild_parent by (repeat store_step; by rewrite Hnew);
          repeat store_step; rewrite childrenOf_appendChild_other by lia;
          repeat store_step; by rewrite HnewC
        | repeat store_step;
          rewrite ?prop_resize_width by (repeat store_step; by rewrite Hnew);
          rewrite ?HnewP; simpl; unfold rowWidthOf; by rewrite ?Ht
        | unfold strProp; repeat store_step;
          rewrite prop_setProp_same by (repeat store_step; by rewrite Hnew); done
        | intros k [<-|[]]; repeat store_step; lia ]
      | destruct (Hrows i q kids Hq Hi) as (Hql & Hex & Hch & Hwd & Hlm & Hbd);
        assert (Hinq : In q rowsL)
          by (apply list_elem_of_In; by eapply list_elem_of_lookup_2);
        assert (Hin : In kids kidsL)
          by (apply list_elem_of_In; by eapply list_elem_of_lookup_2);
        assert (q <> frame) by (by intros ->);
        assert (q <> c) by (by intros ->);
        (split; [|split; [|split; [|split; [|split]]]]);
        [ repeat store_step; lia
        | repeat store_step; by rewrite Hold by lia
        | repeat store_step; rewrite childrenOf_appendChild_other by lia;
          repeat store_step; rewrite childrenOf_appendChild_other by lia;
          repeat store_step; rewrite HoldC, Hch by lia;
          rewrite (removeId_notin row), (removeId_notin c); [done|by apply Hfresh|];
          intros Hk; apply Hbd in Hk; lia
        | repeat store_step; by rewrite HoldP by lia
        | unfold strProp in *; repeat store_step; by rewrite HoldP by lia
        | intros k Hk; apply Hbd in Hk; repeat store_step; lia ] ] ]).
Qed.

Lemma gridState_same h frame cols widths tw w count rowsL kidsL c ri kids :
  gridState frame cols widths tw w count rowsL kidsL ->
  indexOf (Num.floor (Num.div count (Num.max Num.one cols))) = ri ->
  kidsL !! ri = Some kids ->
  c < nextId (doc w) -> c <> frame -> ~ In c rowsL ->
  (forall ks, In ks kidsL -> ~ In c ks) ->
  gridState frame cols widths tw (appendToGridFrame h frame c w)
    (Num.add count Num.one) rowsL (<[ri := kids ++ [c]]> kidsL).
Proof.
  intros HS Hri Hkids Hc Hcf Hcr Hfresh.
  pose proof (fun q => gridState_rows_lt _ _ _ _ _ _ _ _ q HS) as Hrlt.
  destruct HS as (Hty & Hm & Hlt & Ho & Hfr & Hnd & Hlen & Hrows).
  pose proof (typeOf_is_Some _ _ _ Hty) as Hf.
  destruct Hm as (m & Hm & Hcols & Hw & Htw & Hcount & Hr).
  assert (Hri' : ri < length kidsL) by (by eapply lookup_lt_Some).
  destruct (lookup_lt_is_Some_2 rowsL ri) as [row Hrow]; [lia|].
  unfold appendToGridFrame. rewrite Hm. cbv zeta. rewrite Hcols, Hcount, Hri, Hr, Hrow.
  destruct (Hrows ri row kids Hrow Hkids) as (Hrl & Hex & Hch & Hwd & Hlm & Hbd).
  assert (Hinr : In row rowsL) by (apply list_elem_of_In; by eapply list_elem_of_lookup_2).
  assert (row <> frame) by (by intros ->).
  assert (row <> c) by (by intros ->).
  destruct (_ && _);
    ((split; [|split; [|split; [|split; [|split; [|split; [|split]]]]]]);
    [ by repeat store_step
    | eexists; split;
        [cbn [globals updGlobals updGridMetaMap gridMetaMap]; apply lookup_insert_eq|];
      cbn [columns columnWidths totalWidth childCount rows]; by repeat (split; [done|])
    | by repeat store_step
    | repeat store_step; rewrite childrenOf_appendChild_other by lia;
      repeat store_step; rewrite Ho;
      by rewrite (removeId_notin c rowsL) by done
    | done
    | done
    | by rewrite length_insert
    | intros i q ks Hq Hi; destruct (decide (i = ri)) as [->|Hne];
      [ rewrite list_lookup_insert_eq in Hi by done; injection Hi as <-;
        assert (q = row) as -> by congruence;
        (split; [|split; [|split; [|split; [|split]]]]);
        [ by repeat store_step
        | by repeat store_step
        | repeat store_step;
          rewrite childrenOf_appendChild_parent by (by repeat store_step);
          repeat store_step; rewrite Hch, removeId_notin; [done|];
          apply Hfresh, list_elem_of_In; by eapply list_elem_of_lookup_2
        | by repeat store_step
        | unfold strProp in *; by repeat store_step
        | intros k Hk; repeat store_step;
          apply in_app_or in Hk as [Hk|[<-|[]]]; [by apply Hbd|lia] ]
      | rewrite list_lookup_insert_ne in Hi by done;
        destruct (Hrows i q ks Hq Hi) as (Hql' & Hex' & Hch' & Hwd' & Hlm' & Hbd');
        assert (q <> row) by (intros ->; apply Hne; by eapply NoDup_lookup);
        assert (q <> c)
          by (intros ->; apply Hcr, list_elem_of_In; by eapply list_elem_of_lookup_2);
        (split; [|split; [|split; [|split; [|split]]]]);
        [ by repeat store_step
        | by repeat store_step
        | repeat store_step; rewrite childrenOf_appendChild_other by lia;
          repeat store_step; rewrite Hch', removeId_notin; [done|];
          apply Hfresh, list_elem_of_In; by eapply list_elem_of_lookup_2
        | by repeat store_step
        | unfold strProp in *; by repeat store_step
        | intros k Hk; repeat store_step; by apply Hbd' ] ] ]).
Qed.

Lemma gridState_rowOf frame cols widths tw w count rowsL kidsL q :
  gridState frame cols widths tw w count rowsL kidsL -> rowOf w frame q <-> In q rowsL.
Proof.
  intros (_ & (m & Hm & _ & _ & _ & _ & Hr) & _). unfold rowOf. split.
  - intros (m' & i & Hm' & Hi). rewrite Hm in Hm'. injection Hm' as <-.
    rewrite Hr in Hi. apply list_elem_of_In. by eapply list_elem_of_lookup_2.
  - intros [i Hi]%list_elem_of_In%list_elem_of_lookup. exists m, i. by rewrite Hr.
Qed.

Lemma gridState_stable frame cols widths tw w w1 count rowsL kidsL :
  gridState frame cols widths tw w count rowsL kidsL -> gridStable frame w w1 ->
  gridState frame cols widths tw w1 count rowsL kidsL.
Proof.
  intros HS (Hmeta & Hnext & Hkeep).
  pose proof (fun q => proj2 (gridState_rowOf _ _ _ _ _ _ _ _ q HS)) as Hrow.
  destruct HS as (Hty & Hm & Hlt & Ho & Hfr & Hnd & Hlen & Hrows).
  destruct (Hkeep frame (or_introl eq_refl)) as (Hex & Hch & _).
  split; [by rewrite Hex|]. split; [by rewrite Hmeta|]. split; [lia|].
  split; [by rewrite Hch|].
  repeat (split; [done|]).
  intros i q kids Hq Hi.
  destruct (Hrows i q kids Hq Hi) as (Hql & Hqe & Hqc & Hqw & Hqm & Hqb).
  destruct (Hkeep q) as (Hex' & Hch' & Hp').
  { right. apply Hrow, list_elem_of_In. by eapply list_elem_of_lookup_2. }
  split; [lia|]. split; [|split; [by rewrite Hch'|]].
  { destruct Hqe as [n Hn]. apply (typeOf_is_Some _ _ (ntype n)).
    rewrite Hex'. unfold typeOf. by rewrite Hn. }
  split; [by rewrite Hp'|]. split; [unfold strProp; by rewrite Hp'|].
  intros k Hk. apply Hqb in Hk. lia.
Qed.

Lemma gridState_kids_lt frame cols widths tw w count rowsL kidsL ks k :
  gridState frame cols widths tw w count rowsL kidsL -> In ks kidsL -> In k ks ->
  k < nextId (doc w).
Proof.
  intros (_ & _ & _ & _ & _ & _ & Hlen & Hrows) Hks Hk.
  apply list_elem_of_In, list_elem_of_lookup in Hks as [i Hi].
  destruct (lookup_lt_is_Some_2 rowsL i) as [row Hrow].
  { rewrite Hlen. by eapply lookup_lt_Some. }
  destruct (Hrows i row ks Hrow Hi) as (_ & _ & _ & _ & _ & Hbd). by apply Hbd.
Qed.

Lemma appendWithMargin_grid h frame cols widths tw w count rowsL kidsL c style :
  gridState frame cols widths tw w count rowsL kidsL ->
  appendWithMargin h frame c style w = appendToGridFrame h frame c w.
Proof.
  intros (Hty & (m & Hm & _) & _). unfold appendWithMargin, isGridFrame.
  rewrite Hty, Hm. by rewrite bool_decide_eq_true_2.
Qed.

(** The builder on a grid of seven cells with a 10 px column gap: the
    rows hold 3, 3 and 1 text runs in document order, they are 320 wide,
    and they are the children of one frame. *)
Lemma gridOf_end_to_end :
  let w := gridWorld "10px" in
  map (fun row => map (fun c => strProp w c "characters") (childrenOf w row)) (rowFrames w)
  = [["1"; "2"; "3"]; ["4"; "5"; "6"]; ["7"]]%string
  /\ map (fun row => prop w row "width") (rowFrames w)
     = replicate 3 (Some (VNum (Num.ofZ 320)))
  /\ existsb (fun f => bool_decide (childrenOf w f = rowFrames w)) (findAll w) = true.
Proof. vm_compute. repeat split. Qed.

(** * Further properties *)

(** ** Numbers in the unit interval *)

Lemma one_finite : Num.one = S754_finite false 4503599627370496 (-52).
Proof. reflexivity. Qed.

Lemma SFltb_SFleb x y : SFltb x y = true -> SFleb x y = true.
Proof. unfold SFltb, SFleb. by destruct (SFcompare x y) as [[]|]. Qed.

Lemma clamp_inUnit (x : Number) :
  Num.isNaN x = false -> inUnit (Num.max Num.zero (Num.min Num.one x)) = true.
Proof.
  intros Hnan. rewrite one_finite. destruct x as [s|s| |s m e]; try discriminate Hnan.
  - by destruct s.
  - by destruct s.
  - unfold Num.min.
    destruct (Num.ltb (S754_finite s m e) (S754_finite false 4503599627370496 (-52))) eqn:H1;
      [|reflexivity].
    unfold Num.max, Num.zero.
    destruct (Num.ltb (S754_zero false) (S754_finite s m e)) eqn:H2; [|reflexivity].
    unfold inUnit, Num.geb, Num.zero. rewrite one_finite.
    by rewrite (SFltb_SFleb _ _ H1), (SFltb_SFleb _ _ H2).
Qed.

(** X1: [clamp01] is total and lands in the unit interval: whatever the
    number, [NaN] and the infinities included, the result is a number
    between 0 and 1. *)
Theorem clamp01_inUnit (x : Number) : inUnit (clamp01 x) = true.
Proof.
  unfold clamp01. destruct (Num.isNaN x) eqn:Hnan; [reflexivity|].
  by apply clamp_inUnit.
Qed.

(** ** Opacity *)

Lemma parseNumber_finite v n : parseNumber v = Some n -> Num.isFinite n = true.
Proof.
  unfold parseNumber. destruct (nonEmptyStr v) as [cs|]; [|discriminate].
  destruct (Num.isFinite (Str.toNumber (Str.trim cs))) eqn:H; [|discriminate].
  by intros [= <-].
Qed.

Lemma finite_not_NaN n : Num.isFinite n = true -> Num.isNaN n = false.
Proof. by destruct n. Qed.

(** X2: the opacity a frame receives from its style is clamped: after
    [applyOpacityFromStyle] the opacity of the node is either the one it
    had before or a number between 0 and 1, and nothing else of any node
    has changed. *)
Theorem applyOpacity_inUnit (node : nat) (style : Style) (w : World) :
  (forall v, prop (applyOpacityFromStyle node style w) node "opacity" = Some (VNum v) ->
     inUnit v = true \/ prop w node "opacity" = Some (VNum v))
  /\ (forall q k, q <> node \/ k <> "opacity"%string ->
        prop (applyOpacityFromStyle node style w) q k = prop w q k)
  /\ (forall q, childrenOf (applyOpacityFromStyle node style w) q = childrenOf w q).
Proof.
  unfold applyOpacityFromStyle.
  destruct (parseNumber (style !! "opacity")) as [opacity|] eqn:Hp; [|by auto].
  split; [|split].
  - intros v Hv. destruct (getNode w node) as [n|] eqn:Hn.
    + rewrite prop_setProp_same in Hv by (by eexists). injection Hv as <-. left.
      apply clamp_inUnit, finite_not_NaN. by eapply parseNumber_finite.
    + unfold prop in Hv. rewrite getNode_setProp in Hv.
      rewrite decide_True in Hv by done. by rewrite Hn in Hv.
  - intros q k [Hq|Hk].
    + by apply prop_setProp_other_node.
    + by apply prop_setProp_other_key.
  - intros q. apply childrenOf_setProp.
Qed.

(** ** Vector markup *)

Lemma ofString_toString l : Str.ofString (Str.toString l) = l.
Proof. apply list_ascii_of_string_of_list_ascii. Qed.

Lemma toString_ofString s : Str.toString (Str.ofString s) = s.
Proof. apply string_of_list_ascii_of_string. Qed.

Lemma escape_chars_plain (l : chars) :
  forallb (fun c => negb (isMarkupChar c))
    (flat_map (fun c =>
       if Str.ceqb c dquote then Str.ofString "&quot;"
       else if Str.ceqb c "<" then Str.ofString "&lt;"
       else if Str.ceqb c ">" then Str.ofString "&gt;"
       else [c]) l) = true.
Proof.
  induction l as [|c l IH]; [reflexivity|]. cbn [flat_map].
  rewrite forallb_app, IH, andb_true_r.
  destruct (Str.ceqb c dquote) eqn:H1; [reflexivity|].
  destruct (Str.ceqb c "<") eqn:H2; [reflexivity|].
  destruct (Str.ceqb c ">") eqn:H3; [reflexivity|].
  cbn [forallb]. unfold isMarkupChar. by rewrite H1, H2, H3.
Qed.

Lemma escape_chars_id (l : chars) :
  forallb (fun c => negb (isMarkupChar c)) l = true ->
  flat_map (fun c =>
       if Str.ceqb c dquote then Str.ofString "&quot;"
       else if Str.ceqb c "<" then Str.ofString "&lt;"
       else if Str.ceqb c ">" then Str.ofString "&gt;"
       else [c]) l = l.
Proof.
  induction l as [|c l IH]; [reflexivity|]. cbn [flat_map forallb].
  rewrite andb_true_iff, negb_true_iff. unfold isMarkupChar at 1.
  rewrite !orb_false_iff. intros [[[-> ->] ->] Hl]. cbn [app]. by rewrite IH.
Qed.

(** X3: what [escapeXmlAttr] returns holds no double quote and no
    angle bracket, a value without them is returned as it is, and
    escaping twice is escaping once (the ampersand is left alone). *)
Theorem escapeXmlAttr_plain (value : string) :
  plainText (escapeXmlAttr value) = true
  /\ (plainText value = true -> escapeXmlAttr value = value)
  /\ escapeXmlAttr (escapeXmlAttr value) = escapeXmlAttr value.
Proof.
  assert (Hplain : forall v, plainText (escapeXmlAttr v) = true).
  { intros v. unfold plainText, escapeXmlAttr. rewrite ofString_toString.
    apply escape_chars_plain. }
  assert (Hid : forall v, plainText v = true -> escapeXmlAttr v = v).
  { intros v Hv. unfold escapeXmlAttr. rewrite escape_chars_id by exact Hv.
    apply toString_ofString. }
  split; [apply Hplain|]. split; [apply Hid|]. apply Hid, Hplain.
Qed.

(** X4: the attributes [reconstructSvgString] gives the root element
    always have a non-empty [xmlns]; every other attribute is kept, and
    so is an [xmlns] that was there. *)
Theorem withXmlns_attr (attrs : list (string * string)) :
  (exists v, attr (withXmlns attrs) "xmlns" = Some v /\ v <> ""%string)
  /\ (forall k, k <> "xmlns"%string -> attr (withXmlns attrs) k = attr attrs k)
  /\ (forall v, attr attrs "xmlns" = Some v -> v <> ""%string -> withXmlns attrs = attrs)
  /\ map fst (withXmlns attrs)
     = if hasKey attrs "xmlns" then map fst attrs else map fst attrs ++ ["xmlns"%string].
Proof.
  induction attrs as [|[k v] rest (IH1 & IH2 & IH3 & IH4)].
  - split; [by eexists|]. split; [|done].
    intros k Hk. cbn [withXmlns attr]. destruct (String.eqb_spec "xmlns" k); congruence.
  - unfold hasKey in *. cbn [withXmlns existsb fst map].
    destruct (String.eqb_spec k "xmlns") as [->|Hk].
    + destruct (String.eqb_spec v "") as [->|Hv]; cbn [attr map fst orb].
      * rewrite String.eqb_refl. split; [by eexists|]. split; [|split].
        -- intros k Hk. destruct (String.eqb_spec "xmlns" k); congruence.
        -- by intros v [= <-].
        -- reflexivity.
      * rewrite String.eqb_refl. split; [by exists v|]. done.
    + cbn [attr map fst orb]. destruct (String.eqb_spec k "xmlns"); [done|].
      split; [exact IH1|]. split; [|split].
      * intros k' Hk'. destruct (String.eqb_spec k k'); [done|]. by apply IH2.
      * intros v' Hv' Hne. f_equal. by eapply IH3.
      * rewrite IH4. by destruct (existsb _ rest).
Qed.

(** ** Trimming *)

Lemma dropWhile_head p s :
  match Str.dropWhile p s with [] => True | c :: _ => p c = false end.
Proof.
  induction s as [|c s IH]; simpl; [done|]. destruct (p c) eqn:Hc; [exact IH|exact Hc].
Qed.

Lemma trim_trimmed s : trimmed (Str.trim s) = true.
Proof.
  unfold trimmed, Str.trim, Str.trimStart, Str.trimEnd. rewrite rev_involutive.
  set (t := Str.dropWhile Str.isSpace s).
  pose proof (dropWhile_head Str.isSpace s) as Ht. fold t in Ht.
  pose proof (dropWhile_head Str.isSpace (rev t)) as Hu.
  destruct (dropWhile_suffix Str.isSpace (rev t)) as [l Hl].
  set (u := Str.dropWhile Str.isSpace (rev t)) in *.
  apply andb_true_iff. split.
  - destruct (rev u) as [|c r] eqn:Hr; [reflexivity|].
    apply (f_equal (@rev _)) in Hl. rewrite rev_involutive, rev_app_distr, Hr in Hl.
    rewrite Hl in Ht. simpl in Ht. by rewrite Ht.
  - destruct u as [|c r]; [reflexivity|]. by rewrite Hu.
Qed.

Lemma trim_nil_or_trimmed s : trimmed s = true -> Str.trim s = s.
Proof.
  unfold trimmed, Str.trim, Str.trimStart, Str.trimEnd.
  rewrite andb_true_iff. intros [H1 H2].
  assert (Hs : Str.dropWhile Str.isSpace s = s).
  { destruct s as [|c r]; [done|]. simpl. by apply negb_true_iff in H1 as ->. }
  rewrite Hs.
  assert (Hr : Str.dropWhile Str.isSpace (rev s) = rev s).
  { destruct (rev s) as [|c r]; [done|]. simpl. by apply negb_true_iff in H2 as ->. }
  by rewrite Hr, rev_involutive.
Qed.

(** ** Shadow lists *)

Lemma pushTrimmed_parts current parts :
  Forall (fun p => p <> [] /\ trimmed p = true) parts ->
  Forall (fun p => p <> [] /\ trimmed p = true) (pushTrimmed current parts).
Proof.
  intros H. unfold pushTrimmed.
  pose proof (trim_trimmed (rev current)) as Ht.
  destruct (Str.trim (rev current)) as [|c t]; [exact H|].
  apply Forall_cons_2; [by split|exact H].
Qed.

Lemma splitShadowListGo_parts value : forall depth current parts,
  Forall (fun p => p <> [] /\ trimmed p = true) parts ->
  Forall (fun p => p <> [] /\ trimmed p = true)
    (splitShadowListGo depth current parts value).
Proof.
  induction value as [|char rest IH]; intros depth current parts H; simpl.
  - apply Forall_rev. by apply pushTrimmed_parts.
  - destruct (_ && _); apply IH; [by apply pushTrimmed_parts|exact H].
Qed.

Lemma splitShadowListGo_no_comma value : forall depth current,
  forallb (fun c => negb (Str.ceqb c ",")) value = true ->
  splitShadowListGo depth current [] value = pushTrimmed (rev value ++ current) [].
Proof.
  induction value as [|char rest IH]; intros depth current H; simpl.
  - unfold pushTrimmed. by destruct (Str.trim (rev current)).
  - simpl in H. apply andb_true_iff in H as [Hc Hrest]. apply negb_true_iff in Hc.
    rewrite Hc. simpl. rewrite IH by exact Hrest. by rewrite <- app_assoc.
Qed.

(** X5: every entry [splitShadowList] returns is non-empty and starts
    and ends with a character that is not white space, so blank entries
    between commas are dropped; a value without a comma gives its
    trimmed self as the only entry, or nothing when it is blank. *)
Theorem splitShadowList_entries (value : chars) :
  Forall (fun p => p <> [] /\ trimmed p = true) (splitShadowList value)
  /\ (forallb (fun c => negb (Str.ceqb c ",")) value = true ->
      splitShadowList value
      = match Str.trim value with [] => [] | t => [t] end).
Proof.
  split.
  - apply splitShadowListGo_parts. constructor.
  - intros H. unfold splitShadowList. rewrite splitShadowListGo_no_comma by exact H.
    unfold pushTrimmed. by rewrite app_nil_r, rev_involutive.
Qed.

(** ** Font resolver, any number of fonts *)

Lemma has_In l x : has l x = true <-> In x l.
Proof.
  unfold has. rewrite existsb_exists. split.
  - intros (y & Hy & ->%String.eqb_eq). exact Hy.
  - intros H. exists x. by rewrite String.eqb_refl.
Qed.

Lemma find_loads (p : FontValue -> bool) l a : List.find p l = Some a -> p a = true.
Proof. intros H. by apply find_some in H as [_ ?]. Qed.

Lemma find_none_all (p : FontValue -> bool) l :
  List.find p l = None -> Forall (fun a => p a = false) l.
Proof.
  intros H. apply Forall_forall. intros a Ha%list_elem_of_In.
  by eapply find_none in H.
Qed.

Lemma ensureFont_ensured h before processed rep aliases font :
  ensured h before processed rep aliases ->
  ensured h before (processed ++ [font])
    (fst (ensureFont h (rep, aliases) font)) (snd (ensureFont h (rep, aliases) font)).
Proof.
  intros (Hal & Hld & Hpr & Hms & Hfr).
  assert (Hfr' : forall key, ~ In key (map fontKey (processed ++ [font])) ->
            aliases !! key = before !! key /\ key <> fontKey font).
  { intros key Hk. rewrite map_app in Hk. split.
    - apply Hfr. intros Hin. apply Hk, in_or_app. by left.
    - intros ->. apply Hk, in_or_app. right. by left. }
  unfold ensureFont.
  destruct (has (loaded rep) (fontKey font)) eqn:Hhas; cbn [fst snd].
  - apply has_In in Hhas. repeat split; try done.
    + intros f [Hf|[<-|[]]]%in_app_or; [by apply Hpr|by left].
    + apply in_or_app. left. by apply Hms.
    + by apply Hms.
    + intros key Hk. by apply Hfr'.
  - unfold loadFontWithFallback. rewrite tryAttempts_find.
    destruct (List.find (loadFontAsync h) (buildFontAttempts font)) as [a|] eqn:Hfind;
      cbn [fmap option_fmap option_map fst snd loaded missing].
    + pose proof (find_loads _ _ _ Hfind) as Hload. repeat split.
      * intros key f. destruct (decide (key = fontKey font)) as [->|Hne].
        -- rewrite lookup_insert_eq. intros [= <-]. by right.
        -- rewrite lookup_insert_ne by done. apply Hal.
      * intros key [Hk|[<-|[]]]%in_app_or.
        -- destruct (decide (key = fontKey font)) as [->|Hne].
           ++ exists a. by rewrite lookup_insert_eq.
           ++ rewrite lookup_insert_ne by done. by apply Hld.
        -- exists a. by rewrite lookup_insert_eq.
      * intros f [Hf|[<-|[]]]%in_app_or.
        -- destruct (Hpr f Hf) as [?|?]; [left; apply in_or_app; by left|by right].
        -- left. apply in_or_app. right. by left.
      * apply in_or_app. left. by apply Hms.
      * by apply Hms.
      * intros key Hk. destruct (Hfr' key Hk) as [Hb Hne].
        by rewrite lookup_insert_ne.
    + repeat split; try done.
      * intros f [Hf|[<-|[]]]%in_app_or.
        -- destruct (Hpr f Hf) as [?|?]; [by left|right; apply in_or_app; by left].
        -- right. apply in_or_app. right. by left.
      * apply in_app_or in H as [Hm|[<-|[]]]; apply in_or_app; [left; by apply Hms|by right; left].
      * apply in_app_or in H as [Hm|[<-|[]]]; [by apply Hms|by apply find_none_all].
      * intros key Hk. by apply Hfr'.
Qed.

Lemma ensureFonts_ensured h before fonts : forall processed rep aliases,
  ensured h before processed rep aliases ->
  ensured h before (processed ++ fonts)
    (fst (fold_left (ensureFont h) fonts (rep, aliases)))
    (snd (fold_left (ensureFont h) fonts (rep, aliases))).
Proof.
  induction fonts as [|font rest IH]; intros processed rep aliases H.
  - by rewrite app_nil_r.
  - cbn [fold_left]. replace (processed ++ font :: rest) with ((processed ++ [font]) ++ rest)
      by (by rewrite <- app_assoc).
    pose proof (ensureFont_ensured h before processed rep aliases font H) as H1.
    destruct (ensureFont h (rep, aliases) font) as [rep1 al1]. by apply IH.
Qed.

Lemma interRegular_attempt font : In (Font interRegular) (buildFontAttempts font).
Proof.
  unfold buildFontAttempts. apply in_or_app. right. by left.
Qed.

(** X6: [ensureFonts] on any list of fonts.  Every alias it records is
    a font the host loaded, and the aliases under keys that were not
    requested are what they were before the call; every requested font
    ends with a loaded alias or in the missing list; a font is reported
    missing only when it was requested and none of its attempts loads;
    so nothing is missing on a host that loads Inter Regular. *)
Theorem ensureFonts_report (h : Host) (fonts : list FontName)
    (aliases : gmap string FontValue) :
  let rep := fst (ensureFonts h fonts aliases) in
  let aliases' := snd (ensureFonts h fonts aliases) in
  (forall key f, aliases' !! key = Some f ->
     aliases !! key = Some f \/ loadFontAsync h f = true)
  /\ (forall key, ~ In key (map fontKey fonts) -> aliases' !! key = aliases !! key)
  /\ (forall font, In font fonts ->
        (exists f, aliases' !! fontKey font = Some f /\ loadFontAsync h f = true)
        \/ In font (missing rep))
  /\ (forall font, In font (missing rep) ->
        In font fonts
        /\ Forall (fun a => loadFontAsync h a = false) (buildFontAttempts font))
  /\ (loadFontAsync h interRegular = true -> missing rep = []).
Proof.
  intros rep aliases'.
  destruct (ensureFonts_ensured h aliases fonts [] (MkFontReport [] [] []) aliases)
    as (Hal & Hld & Hpr & Hms & Hfr).
  { repeat split; try done. intros key f Hf. by left. }
  fold (ensureFonts h fonts aliases) in Hal, Hld, Hpr, Hms, Hfr.
  fold rep aliases' in Hal, Hld, Hpr, Hms, Hfr.
  simpl app in *.
  split; [exact Hal|]. split; [exact Hfr|]. split; [|split; [exact Hms|]].
  - intros font Hf. destruct (Hpr font Hf) as [Hk|Hm]; [left; by apply Hld|by right].
  - intros Hinter. destruct (missing rep) as [|font ms] eqn:E; [reflexivity|].
    destruct (Hms font (or_introl eq_refl)) as [_ Hall].
    rewrite Forall_forall in Hall.
    pose proof (Hall (Font interRegular)
                  (proj2 (list_elem_of_In _ _) (interRegular_attempt font))).
    congruence.
Qed.

(** ** Font names *)

Lemma nonEmpty_head l c rest : Str.nonEmpty l = c :: rest -> c <> [].
Proof.
  unfold Str.nonEmpty. intros H.
  assert (Hin : In c (List.filter (fun t => match t with [] => false | _ => true end) l))
    by (rewrite H; by left).
  apply filter_In in Hin as [_ Hc]. by destruct c.
Qed.

Lemma toString_nonempty c : c <> [] -> Str.toString c <> ""%string.
Proof. by destruct c. Qed.

(** X7: the font a style resolves to is always well formed: the family
    is never the empty string (it is Inter when the style names none),
    and the style name is one of Regular, Italic, Bold and Bold Italic. *)
Theorem resolveFont_names (style : Style) :
  resolveFontFamily style <> ""%string
  /\ (style !! "font-family" = None -> resolveFontFamily style = "Inter"%string)
  /\ In (resolveFontStyleName style) styleNames.
Proof.
  split; [|split].
  - unfold resolveFontFamily.
    destruct (Str.nonEmpty _) as [|c rest] eqn:E; [done|].
    by apply toString_nonempty, (nonEmpty_head _ _ _ E).
  - intros H. unfold resolveFontFamily. by rewrite H.
  - unfold resolveFontStyleName, styleNames.
    destruct (Num.geb _ n700), (Str.includes (Str.ofString "italic") _); simpl; tauto.
Qed.

Lemma ofString_cat a b : Str.ofString (cat a b) = Str.ofString a ++ Str.ofString b.
Proof.
  unfold cat. induction a as [|c a IH]; [reflexivity|]. simpl. by rewrite <- IH.
Qed.

Lemma splitOnGo_plain s : forall cur,
  forallb (fun c => negb (Str.ceqb "_" c)) s = true ->
  splitOnGo (Str.ofString "__") 0 cur s = [rev cur ++ s].
Proof.
  induction s as [|c s IH]; intros cur H.
  - simpl. by rewrite app_nil_r.
  - cbn [forallb] in H. apply andb_true_iff in H as [Hc Hs]. apply negb_true_iff in Hc.
    cbn [splitOnGo]. change (Str.startsWith (Str.ofString "__") (c :: s))
      with (Str.ceqb "_" c && Str.startsWith ["_"%char] s).
    rewrite Hc. cbn [andb]. rewrite IH by exact Hs. simpl. by rewrite <- app_assoc.
Qed.

Lemma splitOnGo_key fam sty : forall cur,
  forallb (fun c => negb (Str.ceqb "_" c)) fam = true ->
  forallb (fun c => negb (Str.ceqb "_" c)) sty = true ->
  splitOnGo (Str.ofString "__") 0 cur (fam ++ Str.ofString "__" ++ sty)
  = [rev cur ++ fam; sty].
Proof.
  induction fam as [|c fam IH]; intros cur Hf Hs.
  - change (splitOnGo (Str.ofString "__") 0 cur ([] ++ Str.ofString "__" ++ sty))
      with (rev cur :: splitOnGo (Str.ofString "__") 0 [] sty).
    rewrite (splitOnGo_plain sty []) by exact Hs. by rewrite app_nil_r.
  - cbn [forallb] in Hf. apply andb_true_iff in Hf as [Hc Hf]. apply negb_true_iff in Hc.
    cbn [app splitOnGo].
    change (Str.startsWith (Str.ofString "__") (c :: ?s))
      with (Str.ceqb "_" c && Str.startsWith ["_"%char] s).
    rewrite Hc. cbn [andb]. rewrite IH by done. simpl. by rewrite <- app_assoc.
Qed.

(** X8: the key under which a font is collected gives the font back:
    for a family and a style name without underscore, splitting
    [family__style] at the separator restores the two. *)
Theorem fontOfKey_fontKey (fam sty : string) :
  noUnderscore fam = true -> noUnderscore sty = true ->
  fontOfKey (fontKey (fontNameOf fam sty)) = fontNameOf fam sty.
Proof.
  intros Hf Hs. unfold fontOfKey, fontKey. cbn [family fstyle].
  rewrite !ofString_cat. rewrite (splitOnGo_key _ _ [] Hf Hs). simpl.
  by rewrite !toString_ofString.
Qed.

Lemma fontOfKey_fontKey_witness :
  fontOfKey (fontKey (fontNameOf "Open Sans" "Bold Italic"))
  = fontNameOf "Open Sans" "Bold Italic".
Proof. apply (fontOfKey_fontKey "Open Sans" "Bold Italic"); reflexivity. Defined.

(** ** Image fills *)

Lemma fetchImageBytes_doc h src w : doc (snd (fetchImageBytes h src w)) = doc w.
Proof.
  unfold fetchImageBytes. destruct (Str.ofString src); [done|].
  by destruct (imagePaintCache (globals w) !! src).
Qed.

(** X9: the image cache.  A second request for a source is answered
    from the cache: it gives what the first request gave and leaves the
    world as the first request left it, whatever the network says by
    then; neither request touches the document. *)
Theorem fetchImageBytes_cached (h h' : Host) (src : string) (w : World) :
  fetchImageBytes h' src (snd (fetchImageBytes h src w)) = fetchImageBytes h src w
  /\ doc (snd (fetchImageBytes h src w)) = doc w.
Proof.
  unfold fetchImageBytes. destruct (Str.ofString src) as [|c cs] eqn:E; [done|].
  destruct (imagePaintCache (globals w) !! src) as [cached|] eqn:Hc; cbn [snd].
  - by rewrite Hc.
  - split; [|reflexivity].
    cbn [globals updGlobals updImagePaintCache imagePaintCache].
    by rewrite lookup_insert_eq.
Qed.

Lemma createImagePaintFromSource_doc h src style w :
  doc (snd (createImagePaintFromSource h src style w)) = doc w.
Proof.
  unfold createImagePaintFromSource.
  pose proof (fetchImageBytes_doc h src w) as Hd.
  destruct (fetchImageBytes h src w) as [[bytes|] w1]; [|exact Hd].
  destruct (createImage h bytes); exact Hd.
Qed.

Lemma runFillTask_frame h w t :
  (forall q k, q <> task_node t \/ k <> "fills"%string ->
     prop (runFillTask h w t) q k = prop w q k)
  /\ (forall q, childrenOf (runFillTask h w t) q = childrenOf w q)
  /\ (forall q, typeOf (runFillTask h w t) q = typeOf w q).
Proof.
  unfold runFillTask.
  pose proof (createImagePaintFromSource_doc h (task_src t) (task_style t) w) as Hd.
  destruct (createImagePaintFromSource h (task_src t) (task_style t) w) as [[paint|] w1];
    cbn [snd] in Hd.
  - split; [|split].
    + intros q k [Hq|Hk].
      * rewrite prop_setProp_other_node by done. unfold prop, getNode. by rewrite Hd.
      * rewrite prop_setProp_other_key by done. unfold prop, getNode. by rewrite Hd.
    + intros q. rewrite childrenOf_setProp. unfold childrenOf, getNode. by rewrite Hd.
    + intros q. rewrite typeOf_setProp. unfold typeOf, getNode. by rewrite Hd.
  - unfold prop, childrenOf, typeOf, getNode. by rewrite Hd.
Qed.

Lemma fold_runFillTask_frame h tasks : forall w,
  (forall q k, ~ In q (map task_node tasks) \/ k <> "fills"%string ->
     prop (fold_left (runFillTask h) tasks w) q k = prop w q k)
  /\ (forall q, childrenOf (fold_left (runFillTask h) tasks w) q = childrenOf w q)
  /\ (forall q, typeOf (fold_left (runFillTask h) tasks w) q = typeOf w q).
Proof.
  induction tasks as [|t rest IH]; intros w; [done|]. cbn [fold_left map].
  destruct (IH (runFillTask h w t)) as (IHp & IHc & IHt).
  destruct (runFillTask_frame h w t) as (Hp & Hc & Ht).
  split; [|split].
  - intros q k Hqk. rewrite IHp, Hp; [done| |].
    + destruct Hqk as [Hq|Hk]; [left|by right]. intros ->. apply Hq. by left.
    + destruct Hqk as [Hq|Hk]; [left|by right]. intros Hin. apply Hq. by right.
  - intros q. by rewrite IHc, Hc.
  - intros q. by rewrite IHt, Ht.
Qed.

(** X10: the barrier of the image fills touches nothing but the fills
    of the nodes that scheduled one: every other property of every
    node, and the type and the children of every node, are after
    [waitForPending] what they were before, on every host. *)
Theorem waitForPending_frame (h : Host) (w : World) :
  (forall q k, ~ In q (map task_node (pendingFills (ctx w))) \/ k <> "fills"%string ->
     prop (waitForPending h w) q k = prop w q k)
  /\ (forall q, childrenOf (waitForPending h w) q = childrenOf w q)
  /\ (forall q, typeOf (waitForPending h w) q = typeOf w q).
Proof. apply fold_runFillTask_frame. Qed.

(** ** Explicit sizes *)

Lemma prop_is_Some w q k v : prop w q k = Some v -> is_Some (getNode w q).
Proof. unfold prop. destruct (getNode w q); [by eexists|done]. Qed.

Lemma prop_resize_height id a b w :
  is_Some (getNode w id) -> prop (resize id a b w) id "height" = Some (VNum b).
Proof.
  intros H. unfold resize. apply prop_setProp_same. by apply exists_setProp.
Qed.

(** X11: [applyExplicitSizing] never gives a node a width or a height
    that is not positive: after it the width (the height) of the node
    is a positive number or the one it had before; it changes no
    children, and it changes nothing at all when the style has no
    [width], [height] or [min-height] in pixels. *)
Theorem applyExplicitSizing_positive (node : nat) (style : Style) (w : World) :
  (forall x, prop (applyExplicitSizing node style w) node "width" = Some (VNum x) ->
     Num.gtb x Num.zero = true \/ prop w node "width" = Some (VNum x))
  /\ (forall x, prop (applyExplicitSizing node style w) node "height" = Some (VNum x) ->
        Num.gtb x Num.zero = true \/ prop w node "height" = Some (VNum x))
  /\ (forall q, childrenOf (applyExplicitSizing node style w) q = childrenOf w q)
  /\ (parsePx (style !! "width") = None -> parsePx (style !! "height") = None ->
      parsePx (style !! "min-height") = None -> applyExplicitSizing node style w = w).
Proof.
  unfold applyExplicitSizing.
  set (width := parsePx (style !! "width")).
  set (height := parsePx (style !! "height")).
  set (minHeight := parsePx (style !! "min-height")).
  set (isVertical := String.eqb (strProp w node "layoutMode") "VERTICAL").
  set (w1 := match width with
             | Some _ =>
                 if isVertical then setProp node "counterAxisSizingMode" (VStr "FIXED") w
                 else setProp node "primaryAxisSizingMode" (VStr "FIXED") w
             | None => w
             end).
  set (w2 := match orElseOpt height minHeight with
             | Some _ =>
                 if isVertical then setProp node "primaryAxisSizingMode" (VStr "FIXED") w1
                 else setProp node "counterAxisSizingMode" (VStr "FIXED") w1
             | None => w1
             end).
  assert (H1 : (forall k, k <> "counterAxisSizingMode"%string ->
                  k <> "primaryAxisSizingMode"%string -> prop w1 node k = prop w node k)
               /\ (forall q, childrenOf w1 q = childrenOf w q)
               /\ (is_Some (getNode w1 node) <-> is_Some (getNode w node))).
  { subst w1. destruct width; [destruct isVertical|]; repeat split; try done;
      intros; rewrite ?childrenOf_setProp, ?exists_setProp in *; try done;
      by rewrite prop_setProp_other_key. }
  assert (H2 : (forall k, k <> "counterAxisSizingMode"%string ->
                  k <> "primaryAxisSizingMode"%string -> prop w2 node k = prop w node k)
               /\ (forall q, childrenOf w2 q = childrenOf w q)
               /\ (is_Some (getNode w2 node) <-> is_Some (getNode w node))).
  { destruct H1 as (Hp & Hc & He). subst w2.
    destruct (orElseOpt height minHeight); [destruct isVertical|]; repeat split; try done;
      intros; rewrite ?childrenOf_setProp, ?exists_setProp in *; try done;
      try (by apply He); try (by apply Hc);
      rewrite ?prop_setProp_other_key by done; by apply Hp. }
  destruct H2 as (Hp & Hc & He).
  assert (Hmain :
    let w' := if Num.gtb (orElse width (numProp w2 node "width")) Num.zero
                 && Num.gtb (orElse (orElseOpt height minHeight) (numProp w2 node "height"))
                      Num.zero
              then resize node (orElse width (numProp w2 node "width"))
                     (orElse (orElseOpt height minHeight) (numProp w2 node "height")) w2
              else w2 in
    (forall x, prop w' node "width" = Some (VNum x) ->
       Num.gtb x Num.zero = true \/ prop w node "width" = Some (VNum x))
    /\ (forall x, prop w' node "height" = Some (VNum x) ->
          Num.gtb x Num.zero = true \/ prop w node "height" = Some (VNum x))
    /\ (forall q, childrenOf w' q = childrenOf w q)).
  { cbv zeta.
    destruct (Num.gtb (orElse width (numProp w2 node "width")) Num.zero) eqn:Gw;
      [destruct (Num.gtb (orElse (orElseOpt height minHeight) (numProp w2 node "height"))
                   Num.zero) eqn:Gh|]; cbn [andb].
    - split; [|split].
      + intros x Hx. pose proof (prop_is_Some _ _ _ _ Hx) as Hex.
        apply exists_resize in Hex. rewrite prop_resize_width in Hx by done.
        injection Hx as <-. by left.
      + intros x Hx. pose proof (prop_is_Some _ _ _ _ Hx) as Hex.
        apply exists_resize in Hex. rewrite prop_resize_height in Hx by done.
        injection Hx as <-. by left.
      + intros q. by rewrite childrenOf_resize.
    - split; [|split]; [intros x Hx; right; by rewrite <- Hp| |exact Hc].
      intros x Hx; right; by rewrite <- Hp.
    - split; [|split]; [intros x Hx; right; by rewrite <- Hp| |exact Hc].
      intros x Hx; right; by rewrite <- Hp. }
  destruct Hmain as (Mw & Mh & Mc).
  destruct width as [wd|] eqn:Ew; [|destruct height as [ht|] eqn:Eh;
    [|destruct minHeight as [mh|] eqn:Em]];
    [split; [exact Mw|split; [exact Mh|split; [exact Mc|done]]]..|].
  repeat split; auto.
Qed.

(** ** Layout mode *)

Ltac read_prop :=
  unfold strProp;
  rewrite ?prop_setProp_other_key by done;
  rewrite ?prop_setProp_same by (rewrite ?exists_setProp; done).

(** X12: how a frame that is no grid gets its layout.  The layout mode
    is NONE exactly when auto layout is off and the display is neither
    flex nor block nor missing; it is HORIZONTAL exactly for a flex
    display whose direction is [row] (or missing), and VERTICAL in every
    other case, [row-reverse] included.  With auto layout the item
    spacing is the gap along the axis, else [gap], else 6, and the
    paddings are the box edges of [padding]. *)
Theorem configureLayout_mode (node : nat) (style : Style) (al : bool) (w : World) :
  is_Some (getNode w node) ->
  isGridDisplay style = false ->
  let w' := configureLayoutForFrame node style al w in
  let auto := al || isFlexDisplay style || isBlockDisplay style in
  let horizontal := isFlexDisplay style && rowDirection style in
  strProp w' node "layoutMode"
  = (if negb auto then "NONE" else if horizontal then "HORIZONTAL" else "VERTICAL")%string
  /\ (auto = true ->
      prop w' node "itemSpacing"
      = Some (VNum (gapAlong style (if horizontal then "column-gap" else "row-gap")))
      /\ prop w' node "paddingTop" = Some (VNum (box_top (getBox style "padding")))
      /\ prop w' node "paddingRight" = Some (VNum (box_right (getBox style "padding")))
      /\ prop w' node "paddingBottom" = Some (VNum (box_bottom (getBox style "padding")))
      /\ prop w' node "paddingLeft" = Some (VNum (box_left (getBox style "padding"))))
  /\ (forall q, childrenOf w' q = childrenOf w q).
Proof.
  intros Hex Hgrid w' auto horizontal. subst w' auto horizontal.
  unfold configureLayoutForFrame.
  unfold isGridDisplay, displayOf in Hgrid. rewrite Hgrid.
  unfold isFlexDisplay, isBlockDisplay, rowDirection, displayOf, gapAlong.
  set (d := lowerOf (style !! "display")).
  replace (al || isStr d "flex" || isStr d "inline-flex" || isStr d "block" || isStr d "")
    with (al || (isStr d "flex" || isStr d "inline-flex") || (isStr d "block" || isStr d ""))
    by (by rewrite !orb_assoc).
  set (flex := isStr d "flex" || isStr d "inline-flex").
  set (block := isStr d "block" || isStr d "").
  destruct (al || flex || block) eqn:Hauto; cbn [negb].
  - destruct flex; cbn [andb].
    + set (dir := isStr (Str.toLowerCase (default (Str.ofString "row")
                     (nonEmptyStr (style !! "flex-direction")))) "row").
      split; [|split].
      * read_prop. by destruct dir.
      * intros _. destruct dir; repeat split; by read_prop.
      * intros q. by rewrite !childrenOf_setProp.
    + change (isStr (Str.ofString "column") "row") with false.
      split; [|split].
      * by read_prop.
      * intros _. repeat split; by read_prop.
      * intros q. by rewrite !childrenOf_setProp.
  - split; [|split].
    + by read_prop.
    + discriminate.
    + intros q. by rewrite !childrenOf_setProp.
Qed.

Lemma configureLayout_mode_witness :
  strProp (configureLayoutForFrame 0 (<["flex-direction" := "row-reverse"%string]>
             (<["display" := "flex"%string]> ∅)) false oneFrame) 0 "layoutMode"
  = "VERTICAL"%string.
Proof.
  refine (proj1 (configureLayout_mode 0 (<["flex-direction" := "row-reverse"%string]>
           (<["display" := "flex"%string]> ∅)) false oneFrame _ _)); [by eexists|reflexivity].
Defined.

(** ** Margins *)

(** X13: a child handed to a parent that is no grid.  With a margin and
    an auto-layout parent the child is put into a new frame named
    [margin]: that wrapper is the last child of the parent, its only
    child is the child, its paddings are the edges of the margin and it
    has no fill.  Without margin, or under a parent without auto layout,
    the child becomes the last child of the parent itself. *)
Theorem appendWithMargin_wrapper (h : Host) (parent child : nat) (style : Style) (w : World) :
  isGridFrame w parent = false ->
  is_Some (getNode w parent) ->
  parent < nextId (doc w) -> child < nextId (doc w) ->
  let wrap := nextId (doc w) in
  let w' := appendWithMargin h parent child style w in
  (isAutoLayout w parent && hasMargin style = true ->
     typeOf w' wrap = Some FRAME
     /\ childrenOf w' wrap = [child]
     /\ childrenOf w' parent = removeId child (removeId wrap (childrenOf w parent)) ++ [wrap]
     /\ strProp w' wrap "name" = "margin"%string
     /\ prop w' wrap "fills" = Some (VPaints [])
     /\ prop w' wrap "paddingTop" = Some (VNum (box_top (getBox style "margin")))
     /\ prop w' wrap "paddingRight" = Some (VNum (box_right (getBox style "margin")))
     /\ prop w' wrap "paddingBottom" = Some (VNum (box_bottom (getBox style "margin")))
     /\ prop w' wrap "paddingLeft" = Some (VNum (box_left (getBox style "margin"))))
  /\ (isAutoLayout w parent && hasMargin style = false ->
      childrenOf w' parent = removeId child (childrenOf w parent) ++ [child]
      /\ nextId (doc w') = nextId (doc w)).
Proof.
  intros Hgrid Hex Hp Hc wrap w'. subst w'. unfold appendWithMargin. rewrite Hgrid.
  fold (isAutoLayout w parent). fold (hasMargin style).
  destruct (isAutoLayout w parent && hasMargin style); (split; intros Hb; try discriminate Hb);
    clear Hb.
  - destruct (createFrame w) as [wr W0] eqn:HW0.
    assert (Hwr : wr = wrap) by (by inversion HW0).
    pose proof (getNode_createNode FRAME frameDefaults w) as HW0get.
    unfold createFrame in HW0. rewrite HW0 in HW0get. simpl in HW0get. clear HW0.
    subst wr. fold wrap in HW0get.
    assert (Hold : forall q, q <> wrap -> getNode W0 q = getNode w q).
    { intros q Hq. rewrite HW0get. by case_decide. }
    assert (Hnew : getNode W0 wrap = Some (MkNode FRAME [] frameDefaults)).
    { rewrite HW0get. by case_decide. }
    assert (HoldC : forall q, q <> wrap -> childrenOf W0 q = childrenOf w q).
    { intros q Hq. unfold childrenOf. by rewrite Hold. }
    assert (HnewC : childrenOf W0 wrap = []) by (unfold childrenOf; by rewrite Hnew).
    assert (Hnew' : is_Some (getNode W0 wrap)) by (by eexists).
    assert (Hpw : parent <> wrap) by (unfold wrap; lia).
    assert (Hcw : child <> wrap) by (unfold wrap; lia).
    clear HW0get.
    destruct (bool_decide _);
      ((split; [|split; [|split; [|split; [|split; [|split; [|split; [|split]]]]]]]);
      [ repeat store_step; unfold typeOf; by rewrite Hnew
      | repeat store_step;
        rewrite childrenOf_appendChild_parent by (repeat store_step; done);
        repeat store_step; rewrite childrenOf_appendChild_other by done;
        repeat store_step; by rewrite HnewC
      | repeat store_step; rewrite childrenOf_appendChild_other by done;
        rewrite childrenOf_appendChild_parent
          by (repeat store_step; rewrite Hold by done; done);
        repeat store_step; rewrite HoldC by done;
        rewrite removeId_app; simpl;
        destruct (Nat.eqb_spec wrap child); [congruence|done]
      | unfold strProp; repeat store_step;
        by rewrite prop_setProp_same by (repeat store_step; done)
      | repeat store_step; by rewrite prop_setProp_same by (repeat store_step; done)
      | repeat store_step; by rewrite prop_setProp_same by (repeat store_step; done)
      | repeat store_step; by rewrite prop_setProp_same by (repeat store_step; done)
      | repeat store_step; by rewrite prop_setProp_same by (repeat store_step; done)
      | repeat store_step; by rewrite prop_setProp_same by (repeat store_step; done) ]).
  - split; [|reflexivity]. by apply childrenOf_appendChild_parent.
Qed.

Lemma appendWithMargin_wrapper_witness :
  childrenOf (appendWithMargin hostAll 0 1 marginTwo stackAndImage) 2 = [1]
  /\ strProp (appendWithMargin hostAll 0 1 marginTwo stackAndImage) 2 "name"
     = "margin"%string.
Proof.
  assert (Hex : is_Some (getNode stackAndImage 0)) by (by eexists).
  assert (H0 : 0 < nextId (doc stackAndImage)) by (vm_compute; lia).
  assert (H1 : 1 < nextId (doc stackAndImage)) by (vm_compute; lia).
  destruct (proj1 (appendWithMargin_wrapper hostAll 0 1 marginTwo stackAndImage
                     eq_refl Hex H0 H1) eq_refl) as (_ & Hk & _ & Hn & _).
  split; [exact Hk|exact Hn].
Defined.

(** ** The import as a whole *)

Section Completion.
  Variable h : Host.
  Variable opts : Options.
  Hypothesis Hinter : loadFontAsync h interRegular = true.

Lemma andThen_completed o k :
    completed o = true -> (forall w, completed (k w) = true) ->
    completed (andThen o k) = true.
  Proof. destruct o as [w|w]; [intros _ Hk; apply Hk|discriminate]. Qed.

Lemma loadTextFont_completed t style w : completed (loadTextFont h t style w) = true.
  Proof.
    unfold loadTextFont. destruct (loadFontAsync h (fontFor style w)); [reflexivity|].
    by rewrite Hinter.
  Qed.

Lemma renderPlainTextNode_completed text parent ps w :
    completed (renderPlainTextNode h text parent ps w) = true.
  Proof.
    unfold renderPlainTextNode. destruct (createText w) as [t w1].
    apply andThen_completed; [apply loadTextFont_completed|reflexivity].
  Qed.

Lemma renderHeading_completed attrs style children parent nodeId tag w :
    completed (renderHeading h attrs style children parent nodeId tag w) = true.
  Proof.
    unfold renderHeading. destruct (createText w) as [t w1].
    apply andThen_completed; [apply loadTextFont_completed|reflexivity].
  Qed.

Lemma renderInlineText_completed attrs style children parent nodeId tag w :
    completed (renderInlineText h opts attrs style children parent nodeId tag w) = true.
  Proof.
    unfold renderInlineText. destruct (createText w) as [t w1].
    apply andThen_completed; [apply loadTextFont_completed|reflexivity].
  Qed.

Lemma renderButtonElement_completed tag attrs style children parent nodeId w :
    completed (renderButtonElement h tag attrs style children parent nodeId w) = true.
  Proof.
    unfold renderButtonElement. destruct (createFrame w) as [f w1].
    apply andThen_completed; [|reflexivity].
    destruct (String.eqb _ ""); [reflexivity|].
    destruct (createText _) as [t w2].
    apply andThen_completed; [apply loadTextFont_completed|reflexivity].
  Qed.

Lemma renderNode_completed node :
    forall parent ps w, completed (renderNode h opts node parent ps w) = true.
  Proof.
    induction node as [text|tag attrs style children IH] using JsonNode_tree_ind;
      intros parent ps w.
    - apply renderPlainTextNode_completed.
    - cbn [renderNode].
      assert (Hkids : forall frame w0,
        completed
          ((fix each (cs : list JsonNode) (w1 : World) {struct cs} : Outcome :=
              match cs with
              | [] => Ok w1
              | c :: rest => andThen (renderNode h opts c frame (Some style) w1) (each rest)
              end) children w0) = true).
      { intros frame. induction IH as [|c cs Hc Hcs IHcs]; intros w0; [reflexivity|].
        apply andThen_completed; [apply Hc|apply IHcs]. }
      destruct (has HEADING_TAGS _); [apply renderHeading_completed|].
      destruct (has INLINE_TEXT_TAGS _); [apply renderInlineText_completed|].
      destruct (has LIST_CONTAINER_TAGS _).
      { destruct (openListContainer _ _ _ _ _ _). apply Hkids. }
      destruct (String.eqb _ "img"); [reflexivity|].
      destruct (has BUTTON_TAGS _); [apply renderButtonElement_completed|].
      destruct (String.eqb _ "svg"); [reflexivity|].
      destruct (has SVG_TAGS _); [reflexivity|].
      destruct (openGenericFrame _ _ _ _ _ _ _ _). apply Hkids.
  Qed.

Lemma renderNodes_completed nodes parent ps :
    forall w, completed (renderNodes h opts nodes parent ps w) = true.
  Proof.
    induction nodes as [|n rest IH]; intros w; [reflexivity|].
    cbn [renderNodes]. apply andThen_completed; [apply renderNode_completed|apply IH].
  Qed.
End Completion.

Lemma prepareFontsForPayload_doc h nodes w :
  doc (snd (prepareFontsForPayload h nodes w)) = doc w
  /\ posted (snd (prepareFontsForPayload h nodes w)) = posted w.
Proof.
  unfold prepareFontsForPayload. by destruct (ensureFonts _ _ _).
Qed.

(** X15: an element with one of the tags of vector children ([path],
    [circle], [g], [text], ...) met outside an [svg] is skipped with
    everything below it: the renderer creates nothing and leaves the
    world as it is, whatever the case of the tag. *)
Theorem renderNode_svg_child (h : Host) (opts : Options) (tag : string)
    (attrs : list (string * string)) (style : Style) (children : list JsonNode)
    (parent : nat) (ps : option Style) (w : World) :
  In (lowerTag tag) svgChildTags ->
  renderNode h opts (JElement tag attrs style children) parent ps w = Ok w.
Proof.
  intros Hin. cbn [renderNode]. fold (lowerTag tag). revert Hin.
  generalize (lowerTag tag) as t. intros t Hin. cbn in Hin.
  repeat (destruct Hin as [<-|Hin]; [reflexivity|]). destruct Hin.
Qed.

Lemma renderNode_svg_child_witness :
  renderNode hostAll plainOptions (JElement "PATH" [] ∅ [JText "x"]) 0 None oneFrame
  = Ok oneFrame.
Proof. apply (renderNode_svg_child hostAll plainOptions "PATH"). vm_compute. tauto. Defined.

(** ** What the builder leaves alone *)

Section Kept.
  Variable h : Host.
  Variable opts : Options.
  Variable P : nat -> Prop.
  Variables c n1 : nat.
  Variable w0 : World.

  Local Abbreviation K := (kept P c n1 w0).
  Local Abbreviation T := (touchable c n1).

Lemma kept_touchable w id : K w -> T id -> ~ P id.
  Proof.
    intros ((Hc & Hlt & _) & _) [->|Hge]; [exact Hc|]. intros HP%Hlt. lia.
  Qed.

Lemma kept_fresh w id : K w -> n1 <= id -> ~ P id.
  Proof. intros HK Hge. apply (kept_touchable w); [exact HK|by right]. Qed.

Lemma removeId_above y l : Forall (fun x => x < n1) l -> n1 <= y -> removeId y l = l.
  Proof.
    intros Hl Hy. induction Hl as [|x l Hx _ IH]; [reflexivity|].
    unfold removeId in *. cbn [List.filter].
    destruct (Nat.eqb_spec x y) as [->|_]; [lia|]. cbn [negb]. by rewrite IH.
  Qed.

Lemma old_node_detached y w q :
    K w -> n1 <= y -> P q ->
    ((fun n => MkNode (ntype n) (removeId y (nchildren n)) (nprops n)) <$> nodes (doc w)) !! q
    = getNode w0 q.
  Proof.
    intros ((_ & _ & Hclosed) & _ & Hold & _) Hy Hq. rewrite lookup_fmap, <- (Hold q Hq).
    unfold getNode. destruct (nodes (doc w) !! q) as [n|] eqn:E; [|reflexivity].
    cbn. f_equal. rewrite (removeId_above y (nchildren n)); [by destruct n| |exact Hy].
    apply (Hclosed q n Hq). rewrite <- (Hold q Hq). exact E.
  Qed.

Lemma kept_setProp id key v w : K w -> ~ P id -> K (setProp id key v w).
  Proof.
    intros (HG & Hn & Hold & Hm & Ht & Hg) Hid. split; [exact HG|]. split; [exact Hn|].
    split; [|split; [exact Hm|split; [exact Ht|exact Hg]]].
    intros q Hq. rewrite <- (Hold q Hq). unfold getNode, setProp. cbn.
    apply lookup_alter_ne. by intros ->.
  Qed.

Lemma kept_resize id width height w : K w -> ~ P id -> K (resize id width height w).
  Proof. intros HK Hid. unfold resize. by repeat apply kept_setProp. Qed.

Lemma kept_appendChild p y w : K w -> ~ P p -> n1 <= y -> K (appendChild p y w).
  Proof.
    intros HK Hp Hy. pose proof (fun q => old_node_detached y w q HK Hy) as Hd.
    destruct HK as (HG & Hn & Hold & Hm & Ht & Hg).
    split; [exact HG|]. split; [exact Hn|].
    split; [|split; [exact Hm|split; [exact Ht|exact Hg]]].
    intros q Hq. unfold getNode, appendChild. cbn.
    rewrite lookup_alter_ne by (by intros ->). by apply Hd.
  Qed.

Lemma kept_appendToPage y w : K w -> n1 <= y -> K (appendToPage y w).
  Proof.
    intros HK Hy. pose proof (fun q => old_node_detached y w q HK Hy) as Hd.
    destruct HK as (HG & Hn & Hold & Hm & Ht & Hg).
    split; [exact HG|]. split; [exact Hn|].
    split; [|split; [exact Hm|split; [exact Ht|exact Hg]]].
    intros q Hq. unfold getNode, appendToPage. cbn. by apply Hd.
  Qed.

Lemma kept_createNode t props w :
    K w -> K (snd (createNode t props w)) /\ n1 <= fst (createNode t props w).
  Proof.
    intros (HG & Hn & Hold & Hm & Ht & Hg). cbn. split; [|exact Hn].
    split; [exact HG|]. split; [cbn; lia|].
    split; [|split; [exact Hm|split; [exact Ht|]]].
    - intros q Hq. rewrite <- (Hold q Hq). unfold getNode. cbn.
      apply lookup_insert_ne. destruct HG as (_ & Hlt & _). apply Hlt in Hq. lia.
    - intros k m i r Hk Hkm Hr. destruct (Hg k m i r Hk Hkm Hr) as [? ?].
      split; [done|]. cbn. lia.
  Qed.

Lemma kept_ctx f w :
    K w -> (forall x, pendingFills (f x) = pendingFills x) -> K (updCtx f w).
  Proof.
    intros (HG & Hn & Hold & Hm & Ht & Hg) Hf. split; [exact HG|]. split; [exact Hn|].
    split; [exact Hold|]. split; [exact Hm|]. split; [|exact Hg]. cbn. by rewrite Hf.
  Qed.

Lemma kept_pushPending node src style w :
    K w -> ~ P node -> K (updCtx (pushPending (MkFillTask node src style)) w).
  Proof.
    intros (HG & Hn & Hold & Hm & (new & Hnew & Hall) & Hg) Hnode.
    split; [exact HG|]. split; [exact Hn|]. split; [exact Hold|]. split; [exact Hm|].
    split; [|exact Hg]. exists (new ++ [MkFillTask node src style]). cbn.
    split; [by rewrite Hnew, app_assoc|].
    apply Forall_app. split; [exact Hall|]. apply Forall_cons_2; [exact Hnode|apply Forall_nil_2].
  Qed.

Lemma kept_gridMeta k m w :
    K w -> T k -> (forall i r, rows m !! i = Some r -> ~ P r /\ r < nextId (doc w)) ->
    K (updGlobals (updGridMetaMap (insert k m)) w).
  Proof.
    intros HK Hk Hrows. pose proof (kept_touchable w k HK Hk) as HPk.
    destruct HK as (HG & Hn & Hold & Hm & Ht & Hg).
    split; [exact HG|]. split; [exact Hn|]. split; [exact Hold|].
    split; [|split; [exact Ht|]].
    - intros k' Hk'. cbn. rewrite lookup_insert_ne by (by intros ->). by apply Hm.
    - intros k' m' i r Hk'. cbn.
      destruct (decide (k = k')) as [->|Hne].
      + rewrite lookup_insert_eq. intros [= <-]. apply Hrows.
      + rewrite lookup_insert_ne by done. by apply Hg.
  Qed.

Lemma kept_globals f w :
    K w -> (forall g, gridMetaMap (f g) = gridMetaMap g) -> K (updGlobals f w).
  Proof.
    intros (HG & Hn & Hold & Hm & Ht & Hg) Hf. split; [exact HG|]. split; [exact Hn|].
    split; [exact Hold|]. split; [intros k Hk; cbn; rewrite Hf; by apply Hm|].
    split; [exact Ht|]. intros k m i r Hk. cbn. rewrite Hf. by apply Hg.
  Qed.

Lemma kept_postMessage m w : K w -> K (postMessage m w).
  Proof. intros HK. exact HK. Qed.

Lemma kept_setSelection l w : K w -> K (updDoc (setSelection l) w).
  Proof. intros HK. exact HK. Qed.
End Kept.

Ltac kside :=
  lazymatch goal with
  | |- touchable _ _ _ => first [assumption | right; assumption | left; reflexivity]
  | |- _ <= _ => assumption
  | |- _ = _ => reflexivity
  | |- ~ _ =>
      first [ assumption
            | eapply kept_fresh; [eassumption|assumption]
            | eapply kept_touchable; [eassumption|];
              first [assumption | left; reflexivity] ]
  end.

Ltac kcreate :=
  unfold createFrame, createText, createRectangle;
  lazymatch goal with
  | |- kept ?P ?c ?n1 ?w0 ?G =>
      match G with
      | context [createNode ?t ?p ?W] =>
          let H := fresh "HK" in
          assert (H : kept P c n1 w0 W);
          [|let x := fresh "x" in
            let w' := fresh "w" in
            let Hw := fresh "HK" in
            let Hx := fresh "Hx" in
            destruct (kept_createNode P c n1 w0 t p W H) as [Hw Hx];
            destruct (createNode t p W) as [x w'];
            cbn [fst snd] in Hw, Hx; try clear H; cbv beta iota]
      end
  end.

Ltac kprim :=
  lazymatch goal with
  | H : kept ?P ?c ?n1 ?w0 ?W |- kept ?P ?c ?n1 ?w0 ?W => exact H
  | |- kept _ _ _ _ (setProp _ _ _ _) => apply kept_setProp; [|kside]
  | |- kept _ _ _ _ (resize _ _ _ _) => apply kept_resize; [|kside]
  | |- kept _ _ _ _ (appendChild _ _ _) => apply kept_appendChild; [|kside|kside]
  | |- kept _ _ _ _ (appendToPage _ _) => apply kept_appendToPage; [|kside]
  | |- kept _ _ _ _ (updCtx (pushPending _) _) => apply kept_pushPending; [|kside]
  | |- kept _ _ _ _ (postMessage _ _) => apply kept_postMessage
  | |- kept _ _ _ _ (updDoc (setSelection _) _) => apply kept_setSelection
  | |- kept _ _ _ _ (updCtx _ _) => apply kept_ctx; [|reflexivity]
  end.

Ltac kcase :=
  match goal with
  | |- kept _ _ _ _ (if ?b then _ else _) => destruct b
  | |- kept _ _ _ _ (match ?x with _ => _ end) => destruct x
  end.

Ltac kauto := repeat first [kprim | kcase].

(** One [let] of a chain: a world bound by it is kept, and is all the
    rest of the chain knows. *)
Ltac klet :=
  lazymatch goal with
  | |- kept ?P ?c ?n1 ?w0 (let x := ?X in @?B x) =>
      lazymatch type of X with
      | World =>
          let H := fresh "HK" in
          assert (H : kept P c n1 w0 X);
          [|let wn := fresh "w" in
            change (kept P c n1 w0 (B X)); revert H; generalize X; intros wn H; cbv beta]
      | _ => change (kept P c n1 w0 (B X)); cbv beta
      end
  end.

Ltac kseq := repeat first [klet; [solve [kauto]|] | klet | kprim | kcase].

(** The number of nodes handed out, through setters and appends. *)
Ltac next_step :=
  repeat first
    [ rewrite nextId_appendChild | rewrite nextId_resize | rewrite nextId_setProp
    | match goal with
      | |- context [nextId (doc (if ?b then _ else _))] => destruct b
      | |- context [nextId (doc (match ?x with _ => _ end))] => destruct x
      end ].

Lemma kept_initGridMeta P c n1 w0 frame style w :
  kept P c n1 w0 w -> touchable c n1 frame -> kept P c n1 w0 (initGridMeta frame style w).
Proof.
  intros HK Hf. pose proof (kept_touchable P c n1 w0 w frame HK Hf) as Hnp.
  unfold initGridMeta. cbv zeta.
  repeat first [kprim | kcase].
  all: apply kept_gridMeta; [assumption|assumption|]; intros i r; cbn; by rewrite lookup_empty.
Qed.

Lemma kept_applyBorder P c n1 w0 node style w :
  kept P c n1 w0 w -> ~ P node -> kept P c n1 w0 (applyBorder node style w).
Proof. intros HK Hn. unfold applyBorder. kseq. Qed.

Lemma kept_applyBoxShadow P c n1 w0 node style w :
  kept P c n1 w0 w -> ~ P node -> kept P c n1 w0 (applyBoxShadow node style w).
Proof. intros HK Hn. unfold applyBoxShadow. kseq. Qed.

Lemma kept_applyCornerRadii P c n1 w0 node style w :
  kept P c n1 w0 w -> ~ P node -> kept P c n1 w0 (applyCornerRadiiFromStyle node style w).
Proof. intros HK Hn. unfold applyCornerRadiiFromStyle. kseq. Qed.

Lemma kept_applyOpacity P c n1 w0 node style w :
  kept P c n1 w0 w -> ~ P node -> kept P c n1 w0 (applyOpacityFromStyle node style w).
Proof. intros HK Hn. unfold applyOpacityFromStyle. kauto. Qed.

Lemma kept_configureLayout P c n1 w0 node style al w :
  kept P c n1 w0 w -> touchable c n1 node ->
  kept P c n1 w0 (configureLayoutForFrame node style al w).
Proof.
  intros HK Hn. pose proof (kept_touchable P c n1 w0 w node HK Hn) as Hnp.
  unfold configureLayoutForFrame. cbv zeta.
  destruct (_ || _); [by apply kept_initGridMeta|]. kauto.
Qed.

Lemma kept_applyExplicitSizing P c n1 w0 node style w :
  kept P c n1 w0 w -> ~ P node -> kept P c n1 w0 (applyExplicitSizing node style w).
Proof. intros HK Hn. unfold applyExplicitSizing. kseq. Qed.

Lemma kept_scheduleBackgroundFill P c n1 w0 h node style w :
  kept P c n1 w0 w -> ~ P node -> kept P c n1 w0 (snd (scheduleBackgroundFill h node style w)).
Proof.
  intros HK Hn. unfold scheduleBackgroundFill.
  repeat (match goal with |- kept _ _ _ _ (snd (match ?x with _ => _ end)) => destruct x end);
    cbn [snd]; kauto.
Qed.

Lemma kept_scheduleImageFill P c n1 w0 node src style w :
  kept P c n1 w0 w -> ~ P node -> kept P c n1 w0 (scheduleImageFill node src style w).
Proof. intros HK Hn. unfold scheduleImageFill. kauto. Qed.

Lemma kept_applyBackgroundPaint P c n1 w0 h node style w :
  kept P c n1 w0 w -> ~ P node -> kept P c n1 w0 (applyBackgroundPaint h node style w).
Proof.
  intros HK Hn. unfold applyBackgroundPaint.
  pose proof (kept_scheduleBackgroundFill P c n1 w0 h node style w HK Hn) as Hs.
  destruct (scheduleBackgroundFill h node style w) as [handled w1]. cbn [snd] in Hs. kauto.
Qed.

Lemma kept_applyFrameBoxStyle P c n1 w0 h f style al w :
  kept P c n1 w0 w -> touchable c n1 f -> kept P c n1 w0 (applyFrameBoxStyle h f style al w).
Proof.
  intros HK Hn. pose proof (kept_touchable P c n1 w0 w f HK Hn) as Hnp.
  unfold applyFrameBoxStyle. cbv zeta.
  apply kept_applyExplicitSizing; [|exact Hnp]. apply kept_configureLayout; [|exact Hn].
  apply kept_applyOpacity; [|exact Hnp]. apply kept_applyBoxShadow; [|exact Hnp].
  apply kept_applyBorder; [|exact Hnp]. apply kept_applyCornerRadii; [|exact Hnp].
  apply kept_applyBackgroundPaint; [|exact Hnp]. by apply kept_setProp.
Qed.

Lemma kept_applyTextStyle P c n1 w0 h t style w :
  kept P c n1 w0 w -> ~ P t -> kept P c n1 w0 (applyTextStyle h t style w).
Proof. intros HK Hn. unfold applyTextStyle. kseq. Qed.

Lemma kept_appendToGridFrame P c n1 w0 h parent child w :
  kept P c n1 w0 w -> touchable c n1 parent -> n1 <= child ->
  kept P c n1 w0 (appendToGridFrame h parent child w).
Proof.
  intros HK Hp Hc. pose proof (kept_touchable P c n1 w0 w parent HK Hp) as Hnp.
  unfold appendToGridFrame.
  destruct (gridMetaMap (globals w) !! parent) as [meta|] eqn:Hmeta;
    [|by apply kept_appendChild].
  cbv zeta.
  assert (Hrows : forall i r, rows meta !! i = Some r -> ~ P r /\ r < nextId (doc w)).
  { intros i r. destruct HK as (_ & _ & _ & _ & _ & Hg). apply (Hg parent meta i r Hp Hmeta). }
  set (idx := indexOf _).
  destruct (rows meta !! idx) as [row|] eqn:Hrow.
  - destruct (Hrows idx row Hrow) as [Hr _].
    apply kept_gridMeta; [|exact Hp|].
    + kauto.
    + intros i r Hi. cbn [rows] in Hi. destruct (Hrows i r Hi) as [? Hlt]. split; [done|].
      next_step; exact Hlt.
  - destruct (kept_createNode P c n1 w0 FRAME frameDefaults w HK) as [HK1 Hx].
    unfold createFrame.
    assert (Hx' : fst (createNode FRAME frameDefaults w) = nextId (doc w)) by reflexivity.
    assert (Hn' : nextId (doc (snd (createNode FRAME frameDefaults w))) = S (nextId (doc w)))
      by reflexivity.
    destruct (createNode FRAME frameDefaults w) as [x w1]. cbn [fst snd] in HK1, Hx, Hx', Hn'.
    cbv beta iota.
    pose proof (kept_fresh P c n1 w0 w1 x HK1 Hx) as Hnx.
    apply kept_gridMeta; [|exact Hp|].
    + kauto.
    + intros i r. cbn [rows].
      assert (Hnext : forall W, nextId (doc W) = S (nextId (doc w)) ->
                ~ P r /\ r <= nextId (doc w) -> ~ P r /\ r < nextId (doc W)).
      { intros W -> [? ?]. split; [done|lia]. }
      intros Hi. apply Hnext; [next_step; exact Hn'|].
      destruct (decide (i = idx)) as [->|Hne].
      * rewrite lookup_insert_eq in Hi. injection Hi as <-. split; [exact Hnx|lia].
      * rewrite lookup_insert_ne in Hi by done. destruct (Hrows i r Hi). split; [done|lia].
Qed.

Lemma kept_appendWithMargin P c n1 w0 h parent child style w :
  kept P c n1 w0 w -> touchable c n1 parent -> n1 <= child ->
  kept P c n1 w0 (appendWithMargin h parent child style w).
Proof.
  intros HK Hp Hc. pose proof (kept_touchable P c n1 w0 w parent HK Hp) as Hnp.
  unfold appendWithMargin.
  destruct (isGridFrame w parent); [by apply kept_appendToGridFrame|]. cbv zeta.
  destruct (_ && _); [|by apply kept_appendChild].
  kcreate; [exact HK|]. kauto.
Qed.

Lemma kept_registerNodeRef P c n1 w0 nodeId node w :
  kept P c n1 w0 w -> kept P c n1 w0 (registerNodeRef nodeId node w).
Proof. intros HK. unfold registerNodeRef. kauto. Qed.

Lemma kept_bumpCreated P c n1 w0 w : kept P c n1 w0 w -> kept P c n1 w0 (bumpCreated w).
Proof. intros HK. unfold bumpCreated. kauto. Qed.

Lemma kept_queuePrototypeLink P c n1 w0 opts node attrs w :
  kept P c n1 w0 w -> ~ P node -> kept P c n1 w0 (queuePrototypeLink opts node attrs w).
Proof. intros HK Hn. unfold queuePrototypeLink. kauto. Qed.

Ltac kfun :=
  lazymatch goal with
  | |- kept _ _ _ _ (bumpCreated _) => apply kept_bumpCreated
  | |- kept _ _ _ _ (registerNodeRef _ _ _) => apply kept_registerNodeRef
  | |- kept _ _ _ _ (queuePrototypeLink _ _ _ _) => apply kept_queuePrototypeLink; [|kside]
  | |- kept _ _ _ _ (appendWithMargin _ _ _ _ _) =>
      apply kept_appendWithMargin; [|kside|kside]
  | |- kept _ _ _ _ (applyTextStyle _ _ _ _) => apply kept_applyTextStyle; [|kside]
  | |- kept _ _ _ _ (applyFrameBoxStyle _ _ _ _ _) =>
      apply kept_applyFrameBoxStyle; [|kside]
  | |- kept _ _ _ _ (applyBorder _ _ _) => apply kept_applyBorder; [|kside]
  | |- kept _ _ _ _ (applyBoxShadow _ _ _) => apply kept_applyBoxShadow; [|kside]
  | |- kept _ _ _ _ (scheduleImageFill _ _ _ _) => apply kept_scheduleImageFill; [|kside]
  | _ => first [kprim | kcase]
  end.

Lemma kept_andThen P c n1 w0 o k :
  kept P c n1 w0 (worldOf o) -> (forall w, kept P c n1 w0 w -> kept P c n1 w0 (worldOf (k w))) ->
  kept P c n1 w0 (worldOf (andThen o k)).
Proof. destruct o as [w|w]; cbn; auto. Qed.

Lemma kept_loadTextFont P c n1 w0 h t style w :
  kept P c n1 w0 w -> ~ P t -> kept P c n1 w0 (worldOf (loadTextFont h t style w)).
Proof.
  intros HK Hn. unfold loadTextFont. cbv zeta.
  repeat (match goal with
          | |- kept _ _ _ _ (worldOf (if ?b then _ else _)) => destruct b
          end);
    cbn [worldOf]; kauto.
Qed.

Lemma kept_renderPlainTextNode P c n1 w0 h text parent ps w :
  kept P c n1 w0 w -> touchable c n1 parent ->
  kept P c n1 w0 (worldOf (renderPlainTextNode h text parent ps w)).
Proof.
  intros HK Hp. unfold renderPlainTextNode. kcreate; [exact HK|].
  apply kept_andThen; [apply kept_loadTextFont; [assumption|kside]|].
  intros wa HKa. cbv zeta. cbn [worldOf]. repeat kfun.
Qed.

Lemma kept_renderHeading P c n1 w0 h attrs style children parent nodeId tag w :
  kept P c n1 w0 w -> touchable c n1 parent ->
  kept P c n1 w0 (worldOf (renderHeading h attrs style children parent nodeId tag w)).
Proof.
  intros HK Hp. unfold renderHeading. kcreate; [exact HK|].
  apply kept_andThen; [apply kept_loadTextFont; [assumption|kside]|].
  intros wa HKa. cbv zeta. cbn [worldOf]. repeat kfun.
Qed.

Lemma kept_renderInlineText P c n1 w0 h opts attrs style children parent nodeId tag w :
  kept P c n1 w0 w -> touchable c n1 parent ->
  kept P c n1 w0 (worldOf (renderInlineText h opts attrs style children parent nodeId tag w)).
Proof.
  intros HK Hp. unfold renderInlineText. kcreate; [exact HK|]. cbv zeta.
  apply kept_andThen; [apply kept_loadTextFont; [repeat kfun|kside]|].
  intros wa HKa. cbn [worldOf]. repeat kfun.
Qed.

Lemma kept_renderButtonElement P c n1 w0 h tag attrs style children parent nodeId w :
  kept P c n1 w0 w -> touchable c n1 parent ->
  kept P c n1 w0 (worldOf (renderButtonElement h tag attrs style children parent nodeId w)).
Proof.
  intros HK Hp. unfold renderButtonElement. kcreate; [exact HK|]. cbv zeta.
  apply kept_andThen; [|intros wa HKa; cbn [worldOf]; repeat kfun].
  destruct (String.eqb _ ""); [cbn [worldOf]; repeat kfun|].
  kcreate; [repeat kfun|].
  apply kept_andThen; [apply kept_loadTextFont; [assumption|kside]|].
  intros wa HKa. cbn [worldOf]. repeat kfun.
Qed.

Lemma kept_renderImageElement P c n1 w0 h attrs style parent nodeId w :
  kept P c n1 w0 w -> touchable c n1 parent ->
  kept P c n1 w0 (renderImageElement h attrs style parent nodeId w).
Proof.
  intros HK Hp. unfold renderImageElement. kcreate; [exact HK|]. cbv zeta. repeat kfun.
Qed.

Lemma kept_svgPlaceholder P c n1 w0 h name fills style parent nodeId w :
  kept P c n1 w0 w -> touchable c n1 parent ->
  kept P c n1 w0 (svgPlaceholder h name fills style parent nodeId w).
Proof.
  intros HK Hp. unfold svgPlaceholder. kcreate; [exact HK|]. cbv zeta. repeat kfun.
Qed.

Lemma kept_renderSvgElement P c n1 w0 h tag attrs style children parent nodeId w :
  kept P c n1 w0 w -> touchable c n1 parent ->
  kept P c n1 w0 (renderSvgElement h tag attrs style children parent nodeId w).
Proof.
  intros HK Hp. unfold renderSvgElement.
  destruct (reconstructSvgString _ _ _ _) as [[|a s]|];
    [by apply kept_svgPlaceholder| |by apply kept_svgPlaceholder].
  destruct (createNodeFromSvg h _); [|by apply kept_svgPlaceholder].
  kcreate; [exact HK|]. cbv zeta. repeat kfun.
Qed.

Lemma kept_openListContainer P c n1 w0 h tag style parent nodeId w :
  kept P c n1 w0 w -> touchable c n1 parent ->
  kept P c n1 w0 (snd (openListContainer h tag style parent nodeId w))
  /\ n1 <= fst (openListContainer h tag style parent nodeId w).
Proof.
  intros HK Hp. unfold openListContainer.
  destruct (kept_createNode P c n1 w0 FRAME frameDefaults w HK) as [HK1 Hx].
  unfold createFrame. destruct (createNode FRAME frameDefaults w) as [x w1].
  cbn [fst snd] in HK1, Hx. cbv zeta. cbn [fst snd].
  split; [repeat kfun|assumption].
Qed.

Lemma kept_openGenericFrame P c n1 w0 h opts tag attrs style parent nodeId w :
  kept P c n1 w0 w -> touchable c n1 parent ->
  kept P c n1 w0 (snd (openGenericFrame h opts tag attrs style parent nodeId w))
  /\ n1 <= fst (openGenericFrame h opts tag attrs style parent nodeId w).
Proof.
  intros HK Hp. unfold openGenericFrame.
  destruct (kept_createNode P c n1 w0 FRAME frameDefaults w HK) as [HK1 Hx].
  unfold createFrame. destruct (createNode FRAME frameDefaults w) as [x w1].
  cbn [fst snd] in HK1, Hx. cbv zeta. cbn [fst snd].
  split; [repeat kfun|assumption].
Qed.

Lemma kept_renderNode P c n1 w0 h opts node :
  forall parent ps w, kept P c n1 w0 w -> touchable c n1 parent ->
    kept P c n1 w0 (worldOf (renderNode h opts node parent ps w)).
Proof.
  induction node as [text|tag attrs style children IH] using JsonNode_tree_ind;
    intros parent ps w HK Hp.
  - by apply kept_renderPlainTextNode.
  - cbn [renderNode].
    assert (Hkids : forall frame, n1 <= frame -> forall w1, kept P c n1 w0 w1 ->
      kept P c n1 w0 (worldOf
        ((fix each (cs : list JsonNode) (w2 : World) {struct cs} : Outcome :=
            match cs with
            | [] => Ok w2
            | ch :: rest => andThen (renderNode h opts ch frame (Some style) w2) (each rest)
            end) children w1))).
    { intros frame Hf. induction IH as [|ch cs Hc Hcs IHcs]; intros wa HKa; [exact HKa|].
      apply kept_andThen; [apply Hc; [exact HKa|by right]|apply IHcs]. }
    destruct (has HEADING_TAGS _); [by apply kept_renderHeading|].
    destruct (has INLINE_TEXT_TAGS _); [by apply kept_renderInlineText|].
    destruct (has LIST_CONTAINER_TAGS _).
    { destruct (kept_openListContainer P c n1 w0 h tag style parent (getNodeId style) w HK Hp)
        as [Hw Hf].
      destruct (openListContainer _ _ _ _ _ _). by apply Hkids. }
    destruct (String.eqb _ "img"); [by apply kept_renderImageElement|].
    destruct (has BUTTON_TAGS _); [by apply kept_renderButtonElement|].
    destruct (String.eqb _ "svg"); [by apply kept_renderSvgElement|].
    destruct (has SVG_TAGS _); [exact HK|].
    destruct (kept_openGenericFrame P c n1 w0 h opts tag attrs style parent (getNodeId style)
                w HK Hp) as [Hw Hf].
    destruct (openGenericFrame _ _ _ _ _ _ _ _). by apply Hkids.
Qed.

Lemma kept_renderNodes P c n1 w0 h opts nodes parent ps :
  forall w, kept P c n1 w0 w -> touchable c n1 parent ->
    kept P c n1 w0 (worldOf (renderNodes h opts nodes parent ps w)).
Proof.
  induction nodes as [|n rest IH]; intros w HK Hp; [exact HK|].
  cbn [renderNodes]. apply kept_andThen; [by apply kept_renderNode|].
  intros wa HKa. by apply IH.
Qed.

Lemma kept_runFillTask P c n1 w0 h w t :
  kept P c n1 w0 w -> ~ P (task_node t) -> kept P c n1 w0 (runFillTask h w t).
Proof.
  intros HK Ht. unfold runFillTask, createImagePaintFromSource, fetchImageBytes.
  assert (Hc : forall src bytes,
    kept P c n1 w0 (updGlobals (updImagePaintCache (insert src bytes)) w)).
  { intros src bytes. by apply kept_globals. }
  destruct (Str.ofString (task_src t)); [exact HK|].
  destruct (imagePaintCache (globals w) !! task_src t) as [[bytes|]|];
    [destruct (createImage h bytes); [by apply kept_setProp|exact HK]|exact HK|].
  match goal with |- context [insert _ ?b] => destruct b as [bytes|] end;
    [|apply Hc].
  destruct (createImage h bytes); [apply kept_setProp; [apply Hc|exact Ht]|apply Hc].
Qed.

Lemma kept_createRootFrame P c n1 w0 vp w :
  kept P c n1 w0 w ->
  kept P c n1 w0 (snd (createRootFrame vp w)) /\ n1 <= fst (createRootFrame vp w).
Proof.
  intros HK. unfold createRootFrame.
  destruct (kept_createNode P c n1 w0 FRAME frameDefaults w HK) as [HK1 Hx].
  unfold createFrame. destruct (createNode FRAME frameDefaults w) as [x w1].
  cbn [fst snd] in HK1, Hx. cbv zeta. cbn [fst snd].
  split; [repeat kfun|assumption].
Qed.

(** ** The total width of a grid is a number *)

Lemma digits2_size p : digits2_pos p = Pos.size p.
Proof. induction p as [p IH|p IH|]; cbn; by rewrite ?IH. Qed.

Lemma digits2_log2 p : (Zpos (digits2_pos p) = Z.log2 (Zpos p) + 1)%Z.
Proof.
  rewrite digits2_size. destruct p as [p|p|]; cbn [Pos.size Z.log2]; lia.
Qed.

Lemma digits2_mono p q : (p <= q)%positive -> (Zpos (digits2_pos p) <= Zpos (digits2_pos q))%Z.
Proof.
  intros H. rewrite !digits2_log2.
  pose proof (Z.log2_le_mono (Zpos p) (Zpos q)). lia.
Qed.

Lemma digits2_shifted m d :
  (Zpos (digits2_pos (Pos.iter xO m d)) = Zpos (digits2_pos m) + Zpos d)%Z.
Proof.
  induction d as [|d IH] using Pos.peano_ind.
  - cbn. lia.
  - rewrite Pos.iter_succ. cbn [digits2_pos]. lia.
Qed.

Lemma iter_pos_invariant {A} (P : A -> Prop) (f : A -> A) :
  (forall x, P x -> P (f x)) -> forall n x, P x -> P (SpecFloat.iter_pos f n x).
Proof.
  intros Hf. induction n as [n IH|n IH|]; intros x Hx; cbn [SpecFloat.iter_pos]; auto.
Qed.

Lemma shr_1_digits d mrs : (1 < d)%Z -> ofDigits d mrs -> ofDigits (d - 1) (shr_1 mrs).
Proof.
  intros Hd (q & Hq & Hdq). destruct mrs as [m r s]. cbn in Hq. subst m d.
  destruct q as [q|q|]; cbn [shr_1 digits2_pos] in *.
  - exists q. split; [reflexivity|lia].
  - exists q. split; [reflexivity|lia].
  - lia.
Qed.

Lemma iter_shr_1_digits n : forall d mrs,
  (Zpos n < d)%Z -> ofDigits d mrs -> ofDigits (d - Zpos n) (SpecFloat.iter_pos shr_1 n mrs).
Proof.
  induction n as [n IH|n IH|]; intros d mrs Hn Hm; cbn [SpecFloat.iter_pos].
  - replace (d - Zpos n~1)%Z with (d - 1 - Zpos n - Zpos n)%Z by lia.
    apply IH; [lia|]. apply IH; [lia|]. apply shr_1_digits; [lia|exact Hm].
  - replace (d - Zpos n~0)%Z with (d - Zpos n - Zpos n)%Z by lia.
    apply IH; [lia|]. apply IH; [lia|exact Hm].
  - apply shr_1_digits; [lia|exact Hm].
Qed.

Lemma shr_1_nonneg mrs : (0 <= shr_m mrs)%Z -> (0 <= shr_m (shr_1 mrs))%Z.
Proof. destruct mrs as [[|[q|q|]|q] r s]; cbn; lia. Qed.

Section Binary64.
  Local Abbreviation prec := Num.prec.
  Local Abbreviation emax := Num.emax.

Lemma shr_fexp_nonneg m e l :
    (0 <= m)%Z -> (0 <= shr_m (fst (shr_fexp prec emax m e l)))%Z.
  Proof.
    intros Hm. unfold shr_fexp, shr.
    assert (H0 : (0 <= shr_m (shr_record_of_loc m l))%Z) by (by destruct l as [|[]]).
    destruct (_ - e)%Z; cbn [fst]; [exact H0| |exact H0].
    by apply iter_pos_invariant; [apply shr_1_nonneg|].
  Qed.

Lemma round_nearest_even_ge mx lx : (mx <= round_nearest_even mx lx)%Z.
  Proof. destruct lx as [|[]]; cbn; try destruct (Z.even mx); lia. Qed.

  (** Rounding a positive number gives a number that is not negative. *)
Lemma binary_round_aux_nonneg m e l :
    match binary_round_aux prec emax false (Zpos m) e l with
    | S754_zero false | S754_infinity false | S754_finite false _ _ => True
    | _ => False
    end.
  Proof.
    unfold binary_round_aux.
    pose proof (shr_fexp_nonneg (Zpos m) e l) as H1.
    destruct (shr_fexp prec emax (Zpos m) e l) as [mrs1 e1]. cbn [fst] in H1.
    specialize (H1 ltac:(lia)).
    pose proof (round_nearest_even_ge (shr_m mrs1) (loc_of_shr_record mrs1)) as H2.
    pose proof (shr_fexp_nonneg (round_nearest_even (shr_m mrs1) (loc_of_shr_record mrs1))
                  e1 loc_Exact) as H3.
    destruct (shr_fexp prec emax _ e1 loc_Exact) as [mrs2 e2]. cbn [fst] in H3.
    specialize (H3 ltac:(lia)).
    destruct (shr_m mrs2) as [|q|q]; [exact I| |lia].
    by destruct (_ <=? _)%Z.
  Qed.

Lemma shr_fexp_digits q e l :
    (emin prec emax < Zpos (digits2_pos q) + e)%Z ->
    ofDigits (Zpos (digits2_pos q) + e - snd (shr_fexp prec emax (Zpos q) e l))
      (fst (shr_fexp prec emax (Zpos q) e l)).
  Proof.
    intros Hmag. unfold shr_fexp, shr. cbn [Zdigits2].
    assert (H0 : ofDigits (Zpos (digits2_pos q)) (shr_record_of_loc (Zpos q) l))
      by (exists q; by destruct l as [|[]]).
    assert (Hf : (fexp prec emax (Zpos (digits2_pos q) + e)
                  < Zpos (digits2_pos q) + e)%Z).
    { unfold fexp, emin, Num.prec, Num.emax in *. lia. }
    destruct (_ - e)%Z as [|n|n] eqn:En; cbn [fst snd].
    - replace (_ + e - e)%Z with (Zpos (digits2_pos q)) by lia. exact H0.
    - replace (_ + e - (e + Zpos n))%Z with (Zpos (digits2_pos q) - Zpos n)%Z by lia.
      apply iter_shr_1_digits; [lia|exact H0].
    - replace (_ + e - e)%Z with (Zpos (digits2_pos q)) by lia. exact H0.
  Qed.

  (** Rounding a positive number above the smallest one gives a number
      other than zero. *)
Lemma binary_round_aux_truthy q e l :
    (emin prec emax < Zpos (digits2_pos q) + e)%Z ->
    Num.truthy (binary_round_aux prec emax false (Zpos q) e l) = true.
  Proof.
    intros Hmag. unfold binary_round_aux.
    pose proof (shr_fexp_digits q e l Hmag) as H1.
    destruct (shr_fexp prec emax (Zpos q) e l) as [mrs1 e1]. cbn [fst snd] in H1.
    destruct H1 as (q1 & Hq1 & Hd1). rewrite Hq1.
    assert (H2 : exists q2, round_nearest_even (Zpos q1) (loc_of_shr_record mrs1) = Zpos q2
                            /\ (q1 <= q2)%positive).
    { destruct (loc_of_shr_record mrs1) as [|[]]; cbn [round_nearest_even];
        try destruct (Z.even _); first [by exists q1 | exists (q1 + 1)%positive; split; [reflexivity|lia]]. }
    destruct H2 as (q2 & -> & Hle). apply digits2_mono in Hle.
    pose proof (shr_fexp_digits q2 e1 loc_Exact ltac:(lia)) as H3.
    destruct (shr_fexp prec emax (Zpos q2) e1 loc_Exact) as [mrs2 e2]. cbn [fst snd] in H3.
    destruct H3 as (q3 & -> & _). by destruct (_ <=? _)%Z.
  Qed.

Lemma shl_align_digits m e e' :
    (e' <= e)%Z ->
    (Zpos (digits2_pos (fst (shl_align m e e'))) + snd (shl_align m e e')
     = Zpos (digits2_pos m) + e)%Z
    /\ (m <= fst (shl_align m e e'))%positive.
  Proof.
    intros Hle. unfold shl_align. destruct (e' - e)%Z as [|d|d] eqn:E; cbn [fst snd].
    - split; lia.
    - lia.
    - rewrite digits2_shifted. split; [lia|].
      assert (H : (Zpos (digits2_pos m) <= Zpos (digits2_pos (Pos.iter xO m d)))%Z)
        by (rewrite digits2_shifted; lia).
      clear E. induction d as [|d IH] using Pos.peano_ind; [cbn; lia|].
      rewrite Pos.iter_succ.
      assert (m <= Pos.iter xO m d)%positive by (apply IH; rewrite digits2_shifted; lia).
      lia.
  Qed.

Lemma binary_round_truthy q e :
    (emin prec emax < Zpos (digits2_pos q) + e)%Z ->
    Num.truthy (binary_round prec emax false q e) = true.
  Proof.
    intros Hmag. unfold binary_round.
    set (e' := fexp prec emax (Zpos (digits2_pos q) + e)).
    destruct (Z.le_gt_cases e' e) as [Hle|Hgt].
    - destruct (shl_align_digits q e e' Hle) as [Hd _].
      destruct (shl_align q e e') as [mz ez]. cbn [fst snd] in Hd.
      apply binary_round_aux_truthy. lia.
    - unfold shl_align. destruct (e' - e)%Z as [|d|d] eqn:E; try lia;
        by apply binary_round_aux_truthy.
  Qed.

  (** Adding a number that is not negative to 300 gives a number other
      than zero. *)
Lemma add_300_truthy (y : Number) :
    match y with
    | S754_zero _ | S754_infinity false | S754_finite false _ _ => True
    | _ => False
    end ->
    Num.truthy (Num.add (Num.ofZ 300) y) = true.
  Proof.
    change (Num.ofZ 300) with (S754_finite false 5277655813324800 (-44)).
    destruct y as [s|[]| |[] my ey]; try done. intros _.
    unfold Num.add, SFadd. cbv zeta. set (ez := Z.min (-44) ey).
    destruct (shl_align_digits 5277655813324800 (-44) ez ltac:(lia)) as [Ha _].
    assert (Hez : snd (shl_align 5277655813324800 (-44) ez) = ez).
    { unfold shl_align. destruct (ez - -44)%Z eqn:E; cbn [snd]; lia. }
    rewrite Hez in Ha. clear Hez.
    set (a := fst (shl_align 5277655813324800 (-44) ez)) in *.
    set (b := fst (shl_align my ey ez)). cbn [cond_Zopp Z.add binary_normalize].
    apply binary_round_truthy.
    pose proof (digits2_mono a (a + b) ltac:(lia)) as Hm.
    change (Zpos (digits2_pos 5277655813324800)) with 53%Z in Ha.
    unfold emin, Num.prec, Num.emax. lia.
  Qed.
End Binary64.

(** For a column gap that is not negative the total width
    [300 + 2 * columnGap] is a number other than zero. *)
Lemma gridWidthOf_truthy style :
  Num.geb (gridGapOf style) Num.zero = true -> Num.truthy (gridWidthOf style) = true.
Proof.
  unfold gridWidthOf. generalize (gridGapOf style) as g. intros g Hg.
  apply add_300_truthy.
  change (Num.ofZ 2) with (S754_finite false 4503599627370496 (-51)).
  destruct g as [s|[]| |[] m e]; try done.
  unfold Num.mul, SFmul. cbn [xorb].
  pose proof (binary_round_aux_nonneg (m * 4503599627370496) (e + -51) loc_Exact) as H.
  by destruct (binary_round_aux _ _ _ _ _ _) as [[]|[]| |[] ? ?].
Qed.

(** ** Grid cells *)

Lemma getNode_same_views w w' q :
  getNode w' q = getNode w q ->
  typeOf w' q = typeOf w q /\ childrenOf w' q = childrenOf w q
  /\ forall k, prop w' q k = prop w q k.
Proof. intros H. unfold typeOf, childrenOf, prop. by rewrite H. Qed.

Lemma gridState_nodes_lt frame cols widths tw w count rowsL kidsL id :
  gridState frame cols widths tw w count rowsL kidsL -> gridNodes frame rowsL id ->
  id < nextId (doc w).
Proof.
  intros HS [->|Hin]; [by destruct HS as (_ & _ & ? & _)|].
  by eapply gridState_rows_lt.
Qed.

Lemma gridState_gridNodes frame cols widths tw w count rowsL kidsL q :
  gridState frame cols widths tw w count rowsL kidsL ->
  q = frame \/ rowOf w frame q -> gridNodes frame rowsL q.
Proof. intros HS [->|Hq]; [by left|right]. by eapply gridState_rowOf. Qed.

Lemma createNode_gridState frame cols widths tw w count rowsL kidsL t props :
  gridState frame cols widths tw w count rowsL kidsL ->
  gridState frame cols widths tw (snd (createNode t props w)) count rowsL kidsL.
Proof.
  intros HS. eapply gridState_stable; [exact HS|].
  split; [reflexivity|]. split; [cbn; lia|]. intros q Hq.
  apply getNode_same_views. rewrite getNode_createNode. case_decide; [|reflexivity].
  subst q. eapply gridState_gridNodes, gridState_nodes_lt in Hq; [|exact HS..]. lia.
Qed.

Lemma kept_gridState frame cols widths tw w0 w count rowsL kidsL c :
  gridState frame cols widths tw w0 count rowsL kidsL ->
  kept (gridNodes frame rowsL) c (nextId (doc w0)) w0 w ->
  gridState frame cols widths tw w count rowsL kidsL.
Proof.
  intros HS (_ & Hn & Hold & Hm & _). eapply gridState_stable; [exact HS|].
  split; [apply Hm; by left|]. split; [exact Hn|]. intros q Hq.
  apply getNode_same_views, Hold. by eapply gridState_gridNodes.
Qed.

(** The locality invariant holds of a grid at rest. *)
Lemma kept_start frame cols widths tw w count rowsL kidsL c :
  gridState frame cols widths tw w count rowsL kidsL ->
  ~ gridNodes frame rowsL c ->
  (forall k m i r, touchable c (nextId (doc w)) k -> gridMetaMap (globals w) !! k = Some m ->
     rows m !! i = Some r -> ~ gridNodes frame rowsL r /\ r < nextId (doc w)) ->
  kept (gridNodes frame rowsL) c (nextId (doc w)) w w.
Proof.
  intros HS Hc Hg.
  pose proof (fun id => gridState_nodes_lt _ _ _ _ _ _ _ _ id HS) as Hlt.
  split; [split; [exact Hc|split; [exact Hlt|]]|].
  - intros id n Hid Hn. apply Forall_forall. intros x Hx%list_elem_of_In.
    destruct HS as (_ & _ & _ & Hkids & _ & _ & Hlen & Hrows).
    destruct Hid as [->|Hin].
    + apply Hlt. right. rewrite <- Hkids. unfold childrenOf. by rewrite Hn.
    + apply list_elem_of_In, list_elem_of_lookup in Hin as [i Hi].
      destruct (lookup_lt_is_Some_2 kidsL i) as [kids Hk].
      { rewrite <- Hlen. by eapply lookup_lt_Some. }
      destruct (Hrows i id kids Hi Hk) as (_ & _ & Hch & _ & _ & Hbd).
      apply Hbd. rewrite <- Hch. unfold childrenOf. by rewrite Hn.
  - split; [lia|]. split; [done|]. split; [done|].
    split; [exists []; split; [by rewrite app_nil_r|apply Forall_nil_2]|exact Hg].
Qed.

Lemma appendToGridFrame_frame h parent child w :
  (forall k, k <> parent ->
     gridMetaMap (globals (appendToGridFrame h parent child w)) !! k
     = gridMetaMap (globals w) !! k)
  /\ nextId (doc w) <= nextId (doc (appendToGridFrame h parent child w)).
Proof.
  unfold appendToGridFrame.
  destruct (gridMetaMap (globals w) !! parent) as [meta|];
    [|split; [reflexivity|rewrite nextId_appendChild; lia]].
  cbv zeta. destruct (rows meta !! _) as [row|].
  - split.
    + intros k Hk. cbn [globals updGlobals updGridMetaMap gridMetaMap].
      rewrite lookup_insert_ne by done. by destruct (_ && _).
    + rewrite nextId_updGlobals, nextId_appendChild. destruct (_ && _); cbn; lia.
  - unfold createFrame.
    change (createNode FRAME frameDefaults w)
      with (nextId (doc w), snd (createNode FRAME frameDefaults w)).
    cbv beta iota.
    assert (Hn : nextId (doc (snd (createNode FRAME frameDefaults w))) = S (nextId (doc w)))
      by reflexivity.
    assert (Hg : globals (snd (createNode FRAME frameDefaults w)) = globals w) by reflexivity.
    revert Hn Hg. generalize (snd (createNode FRAME frameDefaults w)). intros w1 Hn Hg.
    split.
    + intros k Hk. cbn [globals updGlobals updGridMetaMap gridMetaMap].
      rewrite lookup_insert_ne by done. rewrite <- Hg.
      destruct (_ && _); destruct (totalWidth meta) as [tw|]; try destruct (Num.truthy tw);
        reflexivity.
    + rewrite nextId_updGlobals, nextId_appendChild.
      assert (Hle : forall W, nextId (doc W) = nextId (doc w1) -> nextId (doc w) <= nextId (doc W))
        by (intros W ->; lia).
      apply Hle. next_step; reflexivity.
Qed.

Section Cell.
  Variable h : Host.
  Variables (frame : nat) (cols : Number) (widths : list Number) (tw : option Number).

  (** From the creation of a child's node to its being appended. *)
Lemma cell_before w count rowsL kidsL t props wA :
    gridState frame cols widths tw w count rowsL kidsL ->
    freshGrids (gridNodes frame rowsL) w ->
    keeps (nextId (doc w)) (snd (createNode t props w)) wA ->
    kept (gridNodes frame rowsL) (nextId (doc w)) (S (nextId (doc w)))
      (snd (createNode t props w)) wA
    /\ gridState frame cols widths tw wA count rowsL kidsL
    /\ nextId (doc w) < nextId (doc wA)
    /\ nextId (doc w) <> frame
    /\ ~ In (nextId (doc w)) rowsL
    /\ (forall ks, In ks kidsL -> ~ In (nextId (doc w)) ks).
  Proof.
    intros HS HF Hpre.
    pose proof (fun id => gridState_nodes_lt _ _ _ _ _ _ _ _ id HS) as Hlt.
    assert (Hc : ~ gridNodes frame rowsL (nextId (doc w))) by (intros Hc%Hlt; lia).
    pose proof (createNode_gridState _ _ _ _ _ _ _ _ t props HS) as HSc.
    assert (HK : kept (gridNodes frame rowsL) (nextId (doc w)) (S (nextId (doc w)))
                   (snd (createNode t props w)) wA).
    { apply Hpre. apply (kept_start _ _ _ _ _ _ _ _ _ HSc Hc).
      intros k m i r Hk Hm Hr. destruct (HF k m i r) as [? ?]; [|exact Hm|exact Hr|].
      - destruct Hk as [->|Hk]; [lia|]. cbn in Hk. lia.
      - split; [done|]. cbn. lia. }
    split; [exact HK|]. split; [exact (kept_gridState _ _ _ _ _ _ _ _ _ _ HSc HK)|].
    split; [destruct HK as (_ & Hn & _); lia|].
    split; [intros E; apply Hc; by left|]. split; [intros Hin; apply Hc; by right|].
    intros ks Hks Hin. pose proof (gridState_kids_lt _ _ _ _ _ _ _ _ _ _ HS Hks Hin). lia.
  Qed.

  (** From the append on. *)
Lemma cell_after count rowsL rowsL' kidsL' c wc wA w' :
    kept (gridNodes frame rowsL) c (S c) wc wA ->
    gridState frame cols widths tw (appendToGridFrame h frame c wA) count rowsL' kidsL' ->
    (forall r, In r rowsL' -> In r rowsL \/ r = nextId (doc wA)) ->
    c <> frame -> ~ In c rowsL -> c < nextId (doc wA) ->
    keeps c (appendToGridFrame h frame c wA) w' ->
    gridState frame cols widths tw w' count rowsL' kidsL'
    /\ freshGrids (gridNodes frame rowsL') w'.
  Proof.
    intros HKA HSB Hsub Hcf Hcr Hc Hpost.
    destruct (appendToGridFrame_frame h frame c wA) as [Hmeta Hnext].
    set (wB := appendToGridFrame h frame c wA) in *.
    assert (Hfl : frame < nextId (doc wB)) by (by destruct HSB as (_ & _ & ? & _)).
    assert (HKB : kept (gridNodes frame rowsL') c (nextId (doc wB)) wB w').
    { apply Hpost. apply (kept_start _ _ _ _ _ _ _ _ _ HSB).
      - intros [E|Hin]; [done|]. destruct (Hsub _ Hin); [done|lia].
      - intros k m i r Hk Hm Hr.
        assert (Hkf : k <> frame) by (destruct Hk as [->|Hk]; [done|lia]).
        rewrite (Hmeta k Hkf) in Hm.
        destruct HKA as (_ & Hn & _ & _ & _ & Hg).
        destruct (Hg k m i r) as [Hr1 Hr2]; [|exact Hm|exact Hr|].
        + destruct Hk as [->|Hk]; [by left|right; lia].
        + split; [|lia]. intros [->|Hin]; [apply Hr1; by left|].
          destruct (Hsub _ Hin) as [Hin2| ->]; [apply Hr1; by right|lia]. }
    split; [exact (kept_gridState _ _ _ _ _ _ _ _ _ _ HSB HKB)|].
    intros k m i r Hk Hm Hr. destruct HKB as (_ & Hn & _ & _ & _ & Hg).
    apply (Hg k m i r); [right; lia|exact Hm|exact Hr].
  Qed.

  (** A child that opens a row. *)
Lemma cell_new w count rowsL kidsL t props o :
    gridState frame cols widths tw w count rowsL kidsL ->
    freshGrids (gridNodes frame rowsL) w ->
    cellShape h o frame (nextId (doc w)) (snd (createNode t props w)) ->
    indexOf (Num.floor (Num.div count (Num.max Num.one cols))) = length rowsL ->
    exists w' r,
      o = Ok w'
      /\ gridState frame cols widths tw w' (Num.add count Num.one)
           (rowsL ++ [r]) (kidsL ++ [[nextId (doc w)]])
      /\ freshGrids (gridNodes frame (rowsL ++ [r])) w'.
  Proof.
    intros HS HF (wA & sty & post & -> & Hpre & Hpost) Hri.
    destruct (cell_before _ _ _ _ _ _ _ HS HF Hpre) as (HKA & HSA & Hc & Hcf & Hcr & Hck).
    rewrite (appendWithMargin_grid h _ _ _ _ _ _ _ _ (nextId (doc w)) sty HSA).
    destruct (Hpost (appendToGridFrame h frame (nextId (doc w)) wA)) as (w' & E & Hk).
    exists w', (nextId (doc wA)). split; [exact E|].
    eapply cell_after; [exact HKA| |..|exact Hk]; try assumption.
    - by apply gridState_new.
    - intros r [Hr|[<-|[]]]%in_app_or; [by left|by right].
  Qed.

  (** A child that joins the row [ri]. *)
Lemma cell_same w count rowsL kidsL t props o ri kids :
    gridState frame cols widths tw w count rowsL kidsL ->
    freshGrids (gridNodes frame rowsL) w ->
    cellShape h o frame (nextId (doc w)) (snd (createNode t props w)) ->
    indexOf (Num.floor (Num.div count (Num.max Num.one cols))) = ri ->
    kidsL !! ri = Some kids ->
    exists w',
      o = Ok w'
      /\ gridState frame cols widths tw w' (Num.add count Num.one)
           rowsL (<[ri := kids ++ [nextId (doc w)]]> kidsL)
      /\ freshGrids (gridNodes frame rowsL) w'.
  Proof.
    intros HS HF (wA & sty & post & -> & Hpre & Hpost) Hri Hkids.
    destruct (cell_before _ _ _ _ _ _ _ HS HF Hpre) as (HKA & HSA & Hc & Hcf & Hcr & Hck).
    rewrite (appendWithMargin_grid h _ _ _ _ _ _ _ _ (nextId (doc w)) sty HSA).
    destruct (Hpost (appendToGridFrame h frame (nextId (doc w)) wA)) as (w' & E & Hk).
    exists w'. split; [exact E|].
    eapply cell_after; [exact HKA| |..|exact Hk]; try assumption.
    - by eapply gridState_same.
    - intros r Hr. by left.
  Qed.
End Cell.

(** The outcome [o] of a renderer, split at the append of the node [c]
    to [parent]. *)
Ltac shape_split parent c :=
  lazymatch goal with
  | |- cellShape ?h ?o _ _ _ =>
      lazymatch o with
      | context [appendWithMargin h parent c ?sty ?wA] =>
          let app := constr:(appendWithMargin h parent c sty wA) in
          let f := eval pattern app in o in
          lazymatch f with
          | ?post _ => exists wA, sty, post; split; [reflexivity|split]
          end
      end
  end.

Ltac kall := repeat first [klet; [solve [repeat kfun]|] | klet | kfun].

Ltac keeps_intro :=
  let P := fresh "P" in
  let n1 := fresh "n1" in
  let w0 := fresh "w0" in
  let HK := fresh "HK" in
  intros P n1 w0 HK.

Lemma has_filter (p : string -> bool) (l : list string) (x : string) :
  has (List.filter p l) x = has l x && p x.
Proof.
  unfold has. induction l as [|a l IH]; [reflexivity|]. cbn [List.filter existsb].
  destruct (String.eqb_spec x a) as [E|Hne].
  - subst a. destruct (p x) eqn:Ep; cbn [existsb orb andb].
    + by rewrite String.eqb_refl.
    + rewrite IH. by destruct (existsb _ l).
  - destruct (p a); cbn [existsb orb]; rewrite ?IH.
    + apply String.eqb_neq in Hne. by rewrite Hne.
    + reflexivity.
Qed.

Section Shapes.
  Variable h : Host.
  Variable opts : Options.
  Hypothesis Hinter : loadFontAsync h interRegular = true.

Lemma loadTextFont_ok t style w :
    exists f, loadTextFont h t style w = Ok (setProp t "fontName" (VFont f) w).
  Proof.
    unfold loadTextFont. cbv zeta. destruct (loadFontAsync h (fontFor style w));
      [by eexists|]. rewrite Hinter. by eexists.
  Qed.

Lemma each_renderNodes style frame children : forall w,
    (fix each (cs : list JsonNode) (w1 : World) {struct cs} : Outcome :=
       match cs with
       | [] => Ok w1
       | c :: rest => andThen (renderNode h opts c frame (Some style) w1) (each rest)
       end) children w
    = renderNodes h opts children frame (Some style) w.
  Proof.
    induction children as [|c rest IH]; intros w; [reflexivity|].
    cbn [renderNodes]. destruct (renderNode h opts c frame (Some style) w); cbn [andThen];
      [apply IH|reflexivity].
  Qed.

Lemma renderNodes_keeps children c ps w :
    exists w', renderNodes h opts children c ps w = Ok w' /\ keeps c w w'.
  Proof.
    pose proof (renderNodes_completed h opts Hinter children c ps w) as Hc.
    destruct (renderNodes h opts children c ps w) as [w'|w'] eqn:E; [|discriminate].
    exists w'. split; [reflexivity|]. keeps_intro.
    pose proof (kept_renderNodes P c n1 w0 h opts children c ps w HK (or_introl eq_refl)) as H.
    by rewrite E in H.
  Qed.

Lemma renderPlainTextNode_shape text parent ps w :
    cellShape h (renderPlainTextNode h text parent ps w) parent
      (fst (createNode TEXT textDefaults w)) (snd (createNode TEXT textDefaults w)).
  Proof.
    unfold renderPlainTextNode, createText.
    destruct (createNode TEXT textDefaults w) as [c wc]. cbn [fst snd].
    destruct (loadTextFont_ok c (default ∅ ps) wc) as [f ->]. cbn [andThen].
    shape_split parent c.
    - keeps_intro. kall.
    - intros wB. eexists. split; [reflexivity|]. keeps_intro. kall.
  Qed.

Lemma renderHeading_shape attrs style children parent nodeId tag w :
    cellShape h (renderHeading h attrs style children parent nodeId tag w) parent
      (fst (createNode TEXT textDefaults w)) (snd (createNode TEXT textDefaults w)).
  Proof.
    unfold renderHeading, createText.
    destruct (createNode TEXT textDefaults w) as [c wc]. cbn [fst snd]. cbv zeta.
    match goal with |- context [loadTextFont h c ?sty wc] =>
      destruct (loadTextFont_ok c sty wc) as [f ->] end.
    cbn [andThen]. shape_split parent c.
    - keeps_intro. kall.
    - intros wB. eexists. split; [reflexivity|]. keeps_intro. kall.
  Qed.

Lemma renderInlineText_shape attrs style children parent nodeId tag w :
    cellShape h (renderInlineText h opts attrs style children parent nodeId tag w) parent
      (fst (createNode TEXT textDefaults w)) (snd (createNode TEXT textDefaults w)).
  Proof.
    unfold renderInlineText, createText.
    destruct (createNode TEXT textDefaults w) as [c wc]. cbn [fst snd]. cbv zeta.
    match goal with |- context [loadTextFont h c ?sty ?W] =>
      destruct (loadTextFont_ok c sty W) as [f ->] end.
    cbn [andThen]. shape_split parent c.
    - keeps_intro. kall.
    - intros wB. eexists. split; [reflexivity|]. keeps_intro. kall.
  Qed.

Lemma renderImageElement_shape attrs style parent nodeId w :
    cellShape h (Ok (renderImageElement h attrs style parent nodeId w)) parent
      (fst (createNode RECTANGLE rectangleDefaults w))
      (snd (createNode RECTANGLE rectangleDefaults w)).
  Proof.
    unfold renderImageElement, createRectangle.
    destruct (createNode RECTANGLE rectangleDefaults w) as [c wc]. cbn [fst snd].
    shape_split parent c.
    - keeps_intro. kall.
    - intros wB. eexists. split; [reflexivity|]. keeps_intro. kall.
  Qed.

Lemma svgPlaceholder_shape name fills style parent nodeId w :
    cellShape h (Ok (svgPlaceholder h name fills style parent nodeId w)) parent
      (fst (createNode FRAME frameDefaults w)) (snd (createNode FRAME frameDefaults w)).
  Proof.
    unfold svgPlaceholder, createFrame.
    destruct (createNode FRAME frameDefaults w) as [c wc]. cbn [fst snd].
    shape_split parent c.
    - keeps_intro. kall.
    - intros wB. eexists. split; [reflexivity|]. keeps_intro. kall.
  Qed.

Lemma renderSvgElement_shape tag attrs style children parent nodeId w :
    cellShape h (Ok (renderSvgElement h tag attrs style children parent nodeId w)) parent
      (fst (createNode FRAME frameDefaults w)) (snd (createNode FRAME frameDefaults w)).
  Proof.
    unfold renderSvgElement.
    destruct (reconstructSvgString _ _ _ _) as [[|a s]|];
      [apply svgPlaceholder_shape| |apply svgPlaceholder_shape].
    destruct (createNodeFromSvg h _); [|apply svgPlaceholder_shape].
    unfold createFrame. destruct (createNode FRAME frameDefaults w) as [c wc]. cbn [fst snd].
    shape_split parent c.
    - keeps_intro. kall.
    - intros wB. eexists. split; [reflexivity|]. keeps_intro. kall.
  Qed.

Lemma renderButtonElement_shape tag attrs style children parent nodeId w :
    cellShape h (renderButtonElement h tag attrs style children parent nodeId w) parent
      (fst (createNode FRAME frameDefaults w)) (snd (createNode FRAME frameDefaults w)).
  Proof.
    unfold renderButtonElement, createFrame.
    destruct (createNode FRAME frameDefaults w) as [c wc]. cbn [fst snd]. cbv zeta.
    destruct (String.eqb _ ""); cbn [andThen].
    - shape_split parent c.
      + keeps_intro. kall.
      + intros wB. eexists. split; [reflexivity|]. keeps_intro. kall.
    - unfold createText.
      match goal with |- context [createNode TEXT textDefaults ?W] =>
        assert (Hcr : forall P n1 w0, kept P c n1 w0 wc ->
                  kept P c n1 w0 (snd (createNode TEXT textDefaults W))
                  /\ n1 <= fst (createNode TEXT textDefaults W));
        [keeps_intro; apply kept_createNode; kall|];
        destruct (createNode TEXT textDefaults W) as [t wt]
      end.
      cbn [fst snd] in Hcr.
      destruct (loadTextFont_ok t style wt) as [f ->]. cbn [andThen].
      shape_split parent c.
      + keeps_intro. destruct (Hcr _ _ _ HK) as [HKt Ht]. kall.
      + intros wB. eexists. split; [reflexivity|]. keeps_intro. kall.
  Qed.

Lemma openListContainer_shape tag style children parent nodeId w :
    cellShape h
      (let '(frame, w1) := openListContainer h tag style parent nodeId w in
       renderNodes h opts children frame (Some style) w1) parent
      (fst (createNode FRAME frameDefaults w)) (snd (createNode FRAME frameDefaults w)).
  Proof.
    unfold openListContainer, createFrame.
    destruct (createNode FRAME frameDefaults w) as [c wc]. cbn [fst snd].
    shape_split parent c.
    - keeps_intro. kall.
    - intros wB. cbv beta.
      match goal with |- context [renderNodes h opts children c (Some style) ?W] =>
        destruct (renderNodes_keeps children c (Some style) W) as (w' & E & Hk);
        assert (Hw : keeps c wB W) by (keeps_intro; kall)
      end.
      exists w'. split; [exact E|]. keeps_intro. by apply Hk, Hw.
  Qed.

Lemma openGenericFrame_shape tag attrs style children parent nodeId w :
    cellShape h
      (let '(frame, w1) := openGenericFrame h opts tag attrs style parent nodeId w in
       renderNodes h opts children frame (Some style) w1) parent
      (fst (createNode FRAME frameDefaults w)) (snd (createNode FRAME frameDefaults w)).
  Proof.
    unfold openGenericFrame, createFrame.
    destruct (createNode FRAME frameDefaults w) as [c wc]. cbn [fst snd].
    shape_split parent c.
    - keeps_intro. kall.
    - intros wB. cbv beta.
      match goal with |- context [renderNodes h opts children c (Some style) ?W] =>
        destruct (renderNodes_keeps children c (Some style) W) as (w' & E & Hk);
        assert (Hw : keeps c wB W) by (keeps_intro; kall)
      end.
      exists w'. split; [exact E|]. keeps_intro. by apply Hk, Hw.
  Qed.

  (** Every node that is rendered is rendered in this course. *)
Lemma renderNode_shape node parent ps w :
    rendersNode node = true ->
    exists t props,
      cellShape h (renderNode h opts node parent ps w) parent
        (fst (createNode t props w)) (snd (createNode t props w)).
  Proof.
    destruct node as [text|tag attrs style children]; intros Hr.
    { exists TEXT, textDefaults. apply renderPlainTextNode_shape. }
    cbn [renderNode rendersNode] in *. fold (lowerTag tag).
    unfold svgChildTags in Hr. rewrite has_filter in Hr.
    destruct (has HEADING_TAGS _);
      [exists TEXT, textDefaults; apply renderHeading_shape|].
    destruct (has INLINE_TEXT_TAGS _);
      [exists TEXT, textDefaults; apply renderInlineText_shape|].
    destruct (has LIST_CONTAINER_TAGS _).
    { exists FRAME, frameDefaults.
      match goal with |- cellShape _ ?o _ _ _ =>
        replace o with
          (let '(frame, w1) := openListContainer h tag style parent (getNodeId style) w in
           renderNodes h opts children frame (Some style) w1)
          by (destruct (openListContainer _ _ _ _ _ _); symmetry; apply each_renderNodes)
      end.
      apply openListContainer_shape. }
    destruct (String.eqb _ "img");
      [exists RECTANGLE, rectangleDefaults; apply renderImageElement_shape|].
    destruct (has BUTTON_TAGS _);
      [exists FRAME, frameDefaults; apply renderButtonElement_shape|].
    destruct (String.eqb _ "svg");
      [exists FRAME, frameDefaults; apply renderSvgElement_shape|].
    destruct (has SVG_TAGS _); [discriminate Hr|].
    exists FRAME, frameDefaults.
    match goal with |- cellShape _ ?o _ _ _ =>
      replace o with
        (let '(frame, w1) :=
           openGenericFrame h opts tag attrs style parent (getNodeId style) w in
         renderNodes h opts children frame (Some style) w1)
        by (destruct (openGenericFrame _ _ _ _ _ _ _ _); symmetry; apply each_renderNodes)
    end.
    apply openGenericFrame_shape.
  Qed.
End Shapes.

Section Opened.
  Variable frame : nat.
  Variable om : option GridMeta.

  Local Abbreviation O := (opened frame om).

Lemma opened_setProp id key v w : O w -> O (setProp id key v w).
  Proof.
    intros (Ht & Hl & Hc & Hm & Ho). split; [by rewrite typeOf_setProp|].
    split; [exact Hl|]. split; [by rewrite childrenOf_setProp|]. split; [exact Hm|exact Ho].
  Qed.

Lemma opened_resize id width height w : O w -> O (resize id width height w).
  Proof. intros HO. unfold resize. by repeat apply opened_setProp. Qed.

Lemma opened_appendChild p y w : O w -> p <> frame -> O (appendChild p y w).
  Proof.
    intros (Ht & Hl & Hc & Hm & Ho) Hp. split; [by rewrite typeOf_appendChild|].
    split; [exact Hl|]. split; [by rewrite childrenOf_appendChild_other, Hc|].
    split; [exact Hm|exact Ho].
  Qed.

Lemma opened_createNode t props w :
    O w -> O (snd (createNode t props w)) /\ fst (createNode t props w) <> frame.
  Proof.
    intros (Ht & Hl & Hc & Hm & Ho). split; [|cbn; lia].
    assert (Hg : getNode (snd (createNode t props w)) frame = getNode w frame).
    { rewrite getNode_createNode. case_decide; [lia|reflexivity]. }
    destruct (getNode_same_views _ _ _ Hg) as (Ht' & Hc' & _).
    split; [by rewrite Ht'|]. split; [cbn; lia|]. split; [by rewrite Hc'|].
    split; [exact Hm|]. intros k m Hk Hkm. destruct (Ho k m Hk Hkm) as [Hlt Hr].
    split; [cbn; lia|]. intros i r Hi. destruct (Hr i r Hi). split; [done|cbn; lia].
  Qed.

Lemma opened_ctx f w : O w -> O (updCtx f w).
  Proof. intros HO. exact HO. Qed.

Lemma opened_gridMeta k m w :
    O w -> k <> frame -> k < nextId (doc w) ->
    (forall i r, rows m !! i = Some r -> r <> frame /\ r < nextId (doc w)) ->
    O (updGlobals (updGridMetaMap (insert k m)) w).
  Proof.
    intros (Ht & Hl & Hc & Hm & Ho) Hk Hlt Hr. split; [exact Ht|]. split; [exact Hl|].
    split; [exact Hc|]. split; [cbn; by rewrite lookup_insert_ne|].
    intros k' m' Hk'. cbn. destruct (decide (k = k')) as [->|Hne].
    - rewrite lookup_insert_eq. intros [= <-]. by split.
    - rewrite lookup_insert_ne by done. by apply Ho.
  Qed.
End Opened.

Ltac oside :=
  lazymatch goal with
  | |- _ <> _ => first [assumption | apply not_eq_sym; assumption | lia]
  | |- _ < _ => first [assumption | lia]
  end.

Ltac oprim :=
  lazymatch goal with
  | H : opened ?f ?om ?W |- opened ?f ?om ?W => exact H
  | |- opened _ _ (setProp _ _ _ _) => apply opened_setProp
  | |- opened _ _ (resize _ _ _ _) => apply opened_resize
  | |- opened _ _ (appendChild _ _ _) => apply opened_appendChild; [|oside]
  | |- opened _ _ (updCtx _ _) => apply opened_ctx
  end.

Ltac ocase :=
  match goal with
  | |- opened _ _ (if ?b then _ else _) => destruct b
  | |- opened _ _ (match ?x with _ => _ end) => destruct x
  end.

Ltac olet :=
  lazymatch goal with
  | |- opened ?f ?om (let x := ?X in @?B x) =>
      lazymatch type of X with
      | World =>
          let H := fresh "HO" in
          assert (H : opened f om X);
          [|let wn := fresh "w" in
            change (opened f om (B X)); revert H; generalize X; intros wn H; cbv beta]
      | _ => change (opened f om (B X)); cbv beta
      end
  end.

Ltac oseq := repeat first [olet; [solve [repeat first [oprim | ocase]]|] | olet | oprim | ocase].

Lemma opened_applyBorder frame om node style w :
  opened frame om w -> opened frame om (applyBorder node style w).
Proof. intros HO. unfold applyBorder. oseq. Qed.

Lemma opened_applyBoxShadow frame om node style w :
  opened frame om w -> opened frame om (applyBoxShadow node style w).
Proof. intros HO. unfold applyBoxShadow. oseq. Qed.

Lemma opened_applyCornerRadii frame om node style w :
  opened frame om w -> opened frame om (applyCornerRadiiFromStyle node style w).
Proof. intros HO. unfold applyCornerRadiiFromStyle. oseq. Qed.

Lemma opened_applyOpacity frame om node style w :
  opened frame om w -> opened frame om (applyOpacityFromStyle node style w).
Proof. intros HO. unfold applyOpacityFromStyle. oseq. Qed.

Lemma opened_applyExplicitSizing frame om node style w :
  opened frame om w -> opened frame om (applyExplicitSizing node style w).
Proof. intros HO. unfold applyExplicitSizing. oseq. Qed.

Lemma opened_applyBackgroundPaint frame om h node style w :
  opened frame om w -> opened frame om (applyBackgroundPaint h node style w).
Proof.
  intros HO. unfold applyBackgroundPaint, scheduleBackgroundFill.
  repeat (match goal with
          | |- opened _ _ (let '(_, _) := match ?x with _ => _ end in _) => destruct x
          end); oseq.
Qed.

Lemma opened_registerNodeRef frame om nodeId node w :
  opened frame om w -> opened frame om (registerNodeRef nodeId node w).
Proof. intros HO. unfold registerNodeRef. oseq. Qed.

Lemma opened_bumpCreated frame om w : opened frame om w -> opened frame om (bumpCreated w).
Proof. intros HO. unfold bumpCreated. oseq. Qed.

Lemma opened_appendToGridFrame frame om h parent child w :
  opened frame om w -> parent <> frame ->
  opened frame om (appendToGridFrame h parent child w).
Proof.
  intros HO Hp. unfold appendToGridFrame.
  destruct (gridMetaMap (globals w) !! parent) as [meta|] eqn:Hmeta;
    [|by apply opened_appendChild].
  destruct (proj2 (proj2 (proj2 (proj2 HO))) parent meta Hp Hmeta) as [Hpl Hrows].
  cbv zeta. set (idx := indexOf _).
  destruct (rows meta !! idx) as [row|] eqn:Hrow.
  - destruct (Hrows idx row Hrow) as [Hrf Hrl].
    apply opened_gridMeta; [|exact Hp| |].
    + repeat first [oprim | ocase].
    + next_step; exact Hpl.
    + intros i r Hi. cbn [rows] in Hi. destruct (Hrows i r Hi) as [? Hlt]. split; [done|].
      next_step; exact Hlt.
  - destruct (opened_createNode frame om FRAME frameDefaults w HO) as [HO1 Hx].
    unfold createFrame.
    assert (Hx' : fst (createNode FRAME frameDefaults w) = nextId (doc w)) by reflexivity.
    assert (Hn' : nextId (doc (snd (createNode FRAME frameDefaults w))) = S (nextId (doc w)))
      by reflexivity.
    destruct (createNode FRAME frameDefaults w) as [x w1]. cbn [fst snd] in HO1, Hx, Hx', Hn'.
    cbv beta iota.
    assert (Hnext : forall W r, nextId (doc W) = S (nextId (doc w)) ->
              r <= nextId (doc w) -> r < nextId (doc W)) by (intros W r ->; lia).
    apply opened_gridMeta; [|exact Hp| |].
    + repeat first [oprim | ocase].
    + apply Hnext; [next_step; exact Hn'|lia].
    + intros i r. cbn [rows]. intros Hi.
      destruct (decide (i = idx)) as [->|Hne].
      * rewrite lookup_insert_eq in Hi. injection Hi as <-.
        split; [exact Hx|]. apply Hnext; [next_step; exact Hn'|lia].
      * rewrite lookup_insert_ne in Hi by done. destruct (Hrows i r Hi).
        split; [done|]. apply Hnext; [next_step; exact Hn'|lia].
Qed.

Lemma opened_appendWithMargin frame om h parent child style w :
  opened frame om w -> parent <> frame ->
  opened frame om (appendWithMargin h parent child style w).
Proof.
  intros HO Hp. unfold appendWithMargin.
  destruct (isGridFrame w parent); [by apply opened_appendToGridFrame|]. cbv zeta.
  destruct (_ && _); [|by apply opened_appendChild].
  destruct (opened_createNode frame om FRAME frameDefaults w HO) as [HO1 Hx].
  unfold createFrame. destruct (createNode FRAME frameDefaults w) as [x w1].
  cbn [fst snd] in HO1, Hx. repeat first [oprim | ocase].
Qed.

Lemma initGridMeta_other frame style w k :
  k <> frame ->
  gridMetaMap (globals (initGridMeta frame style w)) !! k = gridMetaMap (globals w) !! k.
Proof.
  intros Hk. unfold initGridMeta. cbv zeta.
  match goal with |- context [if 0 <? ?n then Some ?a else None] =>
    generalize (if 0 <? n then Some a else None) end.
  intros tw. rewrite globals_setProp.
  destruct tw as [t|]; [destruct (Num.truthy t)|]; rewrite ?globals_resize, !globals_setProp;
    cbn [globals updGlobals updGridMetaMap gridMetaMap]; by rewrite lookup_insert_ne.
Qed.

Lemma initGridMeta_nextId frame style w :
  nextId (doc (initGridMeta frame style w)) = nextId (doc w).
Proof.
  unfold initGridMeta. cbv zeta. rewrite nextId_setProp. next_step; reflexivity.
Qed.

(** The book-keeping of a frame that has become a grid of three columns. *)
Lemma opened_initGridMeta frame om style w :
  opened frame om w -> style !! "grid-template-columns" = Some threeColumns ->
  exists m,
    opened frame (Some m) (initGridMeta frame style w)
    /\ columns m = Num.ofZ 3 /\ columnWidths m = [n100; n100; n100]
    /\ totalWidth m = Some (gridWidthOf style) /\ childCount m = Num.zero
    /\ forall i, rows m !! i = @nil nat !! i.
Proof.
  intros (Ht & Hl & Hc & Hm & Ho) Hs.
  destruct (initGridMeta_state frame style w Hs Ht Hl Hc)
    as (Ht' & (m & Hm' & Hfields) & Hl' & Hc' & _).
  exists m. split; [|exact Hfields].
  split; [exact Ht'|]. split; [exact Hl'|]. split; [exact Hc'|]. split; [exact Hm'|].
  intros k m' Hk. rewrite initGridMeta_other, initGridMeta_nextId by done. by apply Ho.
Qed.

Lemma configureLayout_grid node style al w :
  isGridDisplay style = true ->
  configureLayoutForFrame node style al w = initGridMeta node style w.
Proof.
  unfold isGridDisplay, displayOf, configureLayoutForFrame. cbv zeta. by intros ->.
Qed.

Lemma opened_applyFrameBoxStyle frame om h style al w :
  opened frame om w -> isGridDisplay style = true ->
  style !! "grid-template-columns" = Some threeColumns ->
  exists m,
    opened frame (Some m) (applyFrameBoxStyle h frame style al w)
    /\ columns m = Num.ofZ 3 /\ columnWidths m = [n100; n100; n100]
    /\ totalWidth m = Some (gridWidthOf style) /\ childCount m = Num.zero
    /\ forall i, rows m !! i = @nil nat !! i.
Proof.
  intros HO Hg Hs. unfold applyFrameBoxStyle. cbv zeta. rewrite configureLayout_grid by done.
  match goal with |- context [initGridMeta frame style ?W] =>
    assert (HW : opened frame om W)
  end.
  { apply opened_applyOpacity, opened_applyBoxShadow, opened_applyBorder,
      opened_applyCornerRadii, opened_applyBackgroundPaint, opened_setProp, HO. }
  destruct (opened_initGridMeta frame om style _ HW Hs) as (m & HO' & Hfields).
  exists m. split; [|exact Hfields]. by apply opened_applyExplicitSizing.
Qed.

Lemma opened_gridState frame m w cols widths tw count :
  opened frame (Some m) w ->
  columns m = cols /\ columnWidths m = widths /\ totalWidth m = tw /\ childCount m = count
  /\ (forall i, rows m !! i = @nil nat !! i) ->
  gridState frame cols widths tw w count [] []
  /\ freshGrids (gridNodes frame []) w.
Proof.
  intros (Ht & Hl & Hc & Hm & Ho) Hfields. split.
  - split; [exact Ht|]. split; [by exists m|]. split; [exact Hl|]. split; [exact Hc|].
    split; [by intros []|]. split; [constructor|]. split; [reflexivity|].
    intros i row kids Hi. by rewrite lookup_nil in Hi.
  - intros k m' i r Hk Hkm. destruct (Ho k m') as [Hlt _]; [lia|exact Hkm|lia].
Qed.

Section Open.
  Variable h : Host.
  Variable opts : Options.
  Variables (tag : string) (attrs : list (string * string)) (style : Style).
  Variables (parent : nat) (w : World).
  Hypothesis Hgrid : isGridDisplay style = true.
  Hypothesis Hcols : style !! "grid-template-columns" = Some threeColumns.
  Hypothesis Hknown : gridsKnown w.
  Hypothesis Hparent : parent < nextId (doc w).

Lemma opened_created :
    opened (nextId (doc w)) None (snd (createNode FRAME frameDefaults w)).
  Proof.
    assert (Hg : getNode (snd (createNode FRAME frameDefaults w)) (nextId (doc w))
                 = Some (MkNode FRAME [] frameDefaults)).
    { rewrite getNode_createNode. by case_decide. }
    split; [unfold typeOf; by rewrite Hg|]. split; [cbn; lia|].
    split; [unfold childrenOf; by rewrite Hg|].
    split.
    - cbn. destruct (gridMetaMap (globals w) !! nextId (doc w)) as [m|] eqn:E; [|reflexivity].
      destruct (Hknown _ _ E). lia.
    - intros k m Hk Hm. destruct (Hknown k m Hm) as [Hlt Hr]. split; [cbn; lia|].
      intros i r Hi. specialize (Hr i r Hi). split; [lia|cbn; lia].
  Qed.

Lemma openGenericFrame_grid nodeId :
    fst (openGenericFrame h opts tag attrs style parent nodeId w) = nextId (doc w)
    /\ gridState (nextId (doc w)) (Num.ofZ 3) [n100; n100; n100] (Some (gridWidthOf style))
         (snd (openGenericFrame h opts tag attrs style parent nodeId w)) Num.zero [] []
    /\ freshGrids (gridNodes (nextId (doc w)) [])
         (snd (openGenericFrame h opts tag attrs style parent nodeId w)).
  Proof.
    split; [reflexivity|]. pose proof opened_created as HO.
    unfold openGenericFrame, createFrame.
    change (createNode FRAME frameDefaults w)
      with (nextId (doc w), snd (createNode FRAME frameDefaults w)).
    cbv beta iota. revert HO. generalize (snd (createNode FRAME frameDefaults w)) as w1.
    assert (Hpf : parent <> nextId (doc w)) by lia. revert Hpf.
    generalize (nextId (doc w)) as frame. intros frame Hpf w1 HO.
    match goal with |- context [applyFrameBoxStyle h frame style ?al ?W] =>
      destruct (opened_applyFrameBoxStyle frame None h style al W) as (m & HO1 & Hfields);
        [by apply opened_setProp|done|done|];
      revert HO1; generalize (applyFrameBoxStyle h frame style al W) as w2; intros w2 HO1
    end.
    apply (opened_gridState frame m); [|exact Hfields]. cbn [snd].
    apply opened_bumpCreated.
    repeat first [olet; [solve [repeat first [oprim | ocase]]|] | olet
                 | apply opened_registerNodeRef
                 | apply opened_appendWithMargin; [|exact Hpf]
                 | oprim | ocase].
  Qed.

Lemma openListContainer_grid nodeId :
    fst (openListContainer h tag style parent nodeId w) = nextId (doc w)
    /\ gridState (nextId (doc w)) (Num.ofZ 3) [n100; n100; n100] (Some (gridWidthOf style))
         (snd (openListContainer h tag style parent nodeId w)) Num.zero [] []
    /\ freshGrids (gridNodes (nextId (doc w)) [])
         (snd (openListContainer h tag style parent nodeId w)).
  Proof.
    split; [reflexivity|]. pose proof opened_created as HO.
    unfold openListContainer, createFrame.
    change (createNode FRAME frameDefaults w)
      with (nextId (doc w), snd (createNode FRAME frameDefaults w)).
    cbv beta iota. revert HO. generalize (snd (createNode FRAME frameDefaults w)) as w1.
    assert (Hpf : parent <> nextId (doc w)) by lia. revert Hpf.
    generalize (nextId (doc w)) as frame. intros frame Hpf w1 HO.
    match goal with |- context [applyFrameBoxStyle h frame style ?al ?W] =>
      destruct (opened_applyFrameBoxStyle frame None h style al W) as (m & HO1 & Hfields);
        [by apply opened_setProp|done|done|];
      revert HO1; generalize (applyFrameBoxStyle h frame style al W) as w2; intros w2 HO1
    end.
    apply (opened_gridState frame m); [|exact Hfields]. cbn [snd].
    apply opened_bumpCreated.
    repeat first [olet; [solve [repeat first [oprim | ocase]]|] | olet
                 | apply opened_registerNodeRef
                 | apply opened_appendWithMargin; [|exact Hpf]
                 | oprim | ocase].
  Qed.
End Open.

Lemma renderNode_container h opts tag attrs style children parent ps w :
  isContainerTag tag = true ->
  renderNode h opts (JElement tag attrs style children) parent ps w
  = renderNodes h opts children (fst (openContainer h opts tag attrs style parent w))
      (Some style) (snd (openContainer h opts tag attrs style parent w)).
Proof.
  intros Htag. cbn [renderNode]. fold (lowerTag tag).
  unfold isContainerTag, openContainer in *. revert Htag.
  generalize (lowerTag tag) as t. intros t Htag.
  destruct (has HEADING_TAGS t); [discriminate Htag|].
  destruct (has INLINE_TEXT_TAGS t); [discriminate Htag|].
  destruct (String.eqb t "img"); [discriminate Htag|].
  destruct (has BUTTON_TAGS t); [discriminate Htag|].
  destruct (String.eqb_spec t "svg") as [E|_]; [by rewrite E in Htag|].
  destruct (has SVG_TAGS t); [discriminate Htag|].
  destruct (has LIST_CONTAINER_TAGS t).
  - destruct (openListContainer _ _ _ _ _ _). apply each_renderNodes.
  - destruct (openGenericFrame _ _ _ _ _ _ _ _). apply each_renderNodes.
Qed.

Lemma openContainer_grid h opts tag attrs style parent w :
  isGridDisplay style = true ->
  style !! "grid-template-columns" = Some threeColumns ->
  gridsKnown w -> parent < nextId (doc w) ->
  fst (openContainer h opts tag attrs style parent w) = nextId (doc w)
  /\ gridState (nextId (doc w)) (Num.ofZ 3) [n100; n100; n100] (Some (gridWidthOf style))
       (snd (openContainer h opts tag attrs style parent w)) Num.zero [] []
  /\ freshGrids (gridNodes (nextId (doc w)) [])
       (snd (openContainer h opts tag attrs style parent w)).
Proof.
  intros Hg Hs Hk Hp. unfold openContainer. destruct (has LIST_CONTAINER_TAGS _).
  - by apply openListContainer_grid.
  - by apply openGenericFrame_grid.
Qed.

(** Seven children into an empty grid of three columns. *)
Lemma cells_fill h opts frame tw ps children w :
  loadFontAsync h interRegular = true ->
  length children = 7 -> forallb rendersNode children = true ->
  gridState frame (Num.ofZ 3) [n100; n100; n100] tw w Num.zero [] [] ->
  freshGrids (gridNodes frame []) w ->
  exists w' c0 c1 c2 c3 c4 c5 c6 r0 r1 r2 count,
    renderNodes h opts children frame ps w = Ok w'
    /\ cellNodes h opts children frame ps w = [c0; c1; c2; c3; c4; c5; c6]
    /\ gridState frame (Num.ofZ 3) [n100; n100; n100] tw w' count [r0; r1; r2]
         [[c0; c1; c2]; [c3; c4; c5]; [c6]].
Proof.
  intros Hinter Hlen Hall S0 F0.
  destruct children as [|k0 [|k1 [|k2 [|k3 [|k4 [|k5 [|k6 [|]]]]]]]]; try discriminate Hlen.
  clear Hlen. cbn [forallb] in Hall.
  repeat (apply andb_prop in Hall as [? Hall]).
  cbn [renderNodes cellNodes].
  destruct (renderNode_shape h opts Hinter k0 frame ps w) as (t0 & p0 & Sh0); [done|].
  destruct (cell_new h frame _ _ _ w _ _ _ t0 p0 _ S0 F0 Sh0) as (w1 & r0 & E0 & S1 & F1);
    [by vm_compute|].
  rewrite E0. cbn [andThen worldOf]. clear E0 Sh0 S0 F0.
  destruct (renderNode_shape h opts Hinter k1 frame ps w1) as (t1 & p1 & Sh1); [done|].
  destruct (cell_same h frame _ _ _ w1 _ _ _ t1 p1 _ 0 [nextId (doc w)] S1 F1 Sh1) as (w2 & E1 & S2 & F2);
    [by vm_compute|reflexivity|].
  rewrite E1. cbn [andThen worldOf]. clear E1 Sh1 S1 F1.
  destruct (renderNode_shape h opts Hinter k2 frame ps w2) as (t2 & p2 & Sh2); [done|].
  destruct (cell_same h frame _ _ _ w2 _ _ _ t2 p2 _ 0 [nextId (doc w); nextId (doc w1)] S2 F2 Sh2) as (w3 & E2 & S3 & F3);
    [by vm_compute|reflexivity|].
  rewrite E2. cbn [andThen worldOf]. clear E2 Sh2 S2 F2.
  destruct (renderNode_shape h opts Hinter k3 frame ps w3) as (t3 & p3 & Sh3); [done|].
  destruct (cell_new h frame _ _ _ w3 _ _ _ t3 p3 _ S3 F3 Sh3) as (w4 & r1 & E3 & S4 & F4);
    [by vm_compute|].
  rewrite E3. cbn [andThen worldOf]. clear E3 Sh3 S3 F3.
  destruct (renderNode_shape h opts Hinter k4 frame ps w4) as (t4 & p4 & Sh4); [done|].
  destruct (cell_same h frame _ _ _ w4 _ _ _ t4 p4 _ 1 [nextId (doc w3)] S4 F4 Sh4) as (w5 & E4 & S5 & F5);
    [by vm_compute|reflexivity|].
  rewrite E4. cbn [andThen worldOf]. clear E4 Sh4 S4 F4.
  destruct (renderNode_shape h opts Hinter k5 frame ps w5) as (t5 & p5 & Sh5); [done|].
  destruct (cell_same h frame _ _ _ w5 _ _ _ t5 p5 _ 1 [nextId (doc w3); nextId (doc w4)] S5 F5 Sh5) as (w6 & E5 & S6 & F6);
    [by vm_compute|reflexivity|].
  rewrite E5. cbn [andThen worldOf]. clear E5 Sh5 S5 F5.
  destruct (renderNode_shape h opts Hinter k6 frame ps w6) as (t6 & p6 & Sh6); [done|].
  destruct (cell_new h frame _ _ _ w6 _ _ _ t6 p6 _ S6 F6 Sh6) as (w7 & r2 & E6 & S7 & F7);
    [by vm_compute|].
  rewrite E6. cbn [andThen worldOf]. clear E6 Sh6 S6 F6.
  exists w7, (nextId (doc w)), (nextId (doc w1)), (nextId (doc w2)), (nextId (doc w3)),
    (nextId (doc w4)), (nextId (doc w5)), (nextId (doc w6)), r0, r1, r2.
  eexists. split; [reflexivity|]. split; [reflexivity|]. exact S7.
Qed.

(** C2, within its bounds: an element rendered as a frame of children
    (any tag but those of headings, inline text, images, buttons and
    vector graphics; lists included), laid out as a grid with the columns
    [100px 100px 100px] and holding seven children each of which is
    rendered (none is a vector child such as [path] met outside an
    [svg]), is rendered, when the host can load Inter Regular, as a frame
    whose children are three horizontal row frames; the rows hold the
    nodes of the first three, the next three and the last child, in
    document order, so the node of child [i] is in row [floor(i/3)] at
    position [i mod 3].  Every row has the width [300 + 2 * columnGap]
    whenever that total is a number other than zero, and so for every
    column gap that is not negative.  The document is one in which the
    parent exists and the grid book-keeping is about existing nodes, and
    the host takes every size and property it is given. *)
Theorem renderNode_grid_rows (h : Host) (opts : Options) (tag : string)
    (attrs : list (string * string)) (style : Style) (children : list JsonNode)
    (parent : nat) (ps : option Style) (w : World) :
  loadFontAsync h interRegular = true ->
  isContainerTag tag = true ->
  isGridDisplay style = true ->
  style !! "grid-template-columns" = Some threeColumns ->
  length children = 7 ->
  forallb rendersNode children = true ->
  gridsKnown w ->
  parent < nextId (doc w) ->
  let frame := fst (openContainer h opts tag attrs style parent w) in
  let cells :=
    cellNodes h opts children frame (Some style)
      (snd (openContainer h opts tag attrs style parent w)) in
  exists w',
    renderNode h opts (JElement tag attrs style children) parent ps w = Ok w'
    /\ packedRows w' frame cells
    /\ (Num.truthy (gridWidthOf style) = true ->
        rowWidths w' frame = replicate 3 (Some (VNum (gridWidthOf style))))
    /\ (Num.geb (gridGapOf style) Num.zero = true ->
        rowWidths w' frame = replicate 3 (Some (VNum (gridWidthOf style)))).
Proof.
  intros Hinter Htag Hg Hs Hlen Hall Hknown Hparent frame cells.
  rewrite (renderNode_container h opts tag attrs style children parent ps w Htag).
  destruct (openContainer_grid h opts tag attrs style parent w Hg Hs Hknown Hparent)
    as (Hf & S0 & F0).
  fold frame in Hf. rewrite <- Hf in S0, F0. subst cells.
  revert S0 F0. generalize (snd (openContainer h opts tag attrs style parent w)) as w1.
  intros w1 S0 F0.
  destruct (cells_fill h opts frame _ (Some style) children w1 Hinter Hlen Hall S0 F0)
    as (w' & c0 & c1 & c2 & c3 & c4 & c5 & c6 & r0 & r1 & r2 & count & E & Ec & S7).
  exists w'. split; [exact E|]. rewrite Ec.
  destruct S7 as (_ & _ & _ & Hkids & _ & _ & _ & Hrows).
  destruct (Hrows 0 r0 [c0; c1; c2] eq_refl eq_refl) as (_ & _ & K0 & W0 & L0 & _).
  destruct (Hrows 1 r1 [c3; c4; c5] eq_refl eq_refl) as (_ & _ & K1 & W1 & L1 & _).
  destruct (Hrows 2 r2 [c6] eq_refl eq_refl) as (_ & _ & K2 & W2 & L2 & _).
  assert (Hwide : Num.truthy (gridWidthOf style) = true ->
            rowWidths w' frame = replicate 3 (Some (VNum (gridWidthOf style)))).
  { intros Htw. unfold rowWidths. rewrite Hkids. cbn [map].
    cbn [fmap option_fmap option_map default] in W0, W1, W2. unfold rowWidthOf in W0, W1, W2.
    rewrite Htw in W0, W1, W2. by rewrite W0, W1, W2. }
  split; [|split; [exact Hwide|]].
  - exists c0, c1, c2, c3, c4, c5, c6, r0, r1, r2.
    repeat (split; [done|]). repeat constructor; assumption.
  - intros Hgap. by apply Hwide, gridWidthOf_truthy.
Qed.

Lemma renderNode_grid_rows_witness :
  let frame := fst (openContainer hostAll plainOptions "div" [] (gridStyle "10px") 0 oneFrame) in
  let cells :=
    cellNodes hostAll plainOptions sevenSpans frame (Some (gridStyle "10px"))
      (snd (openContainer hostAll plainOptions "div" [] (gridStyle "10px") 0 oneFrame)) in
  exists w',
    renderNode hostAll plainOptions (gridOf "10px") 0 None oneFrame = Ok w'
    /\ packedRows w' frame cells
    /\ (Num.truthy (gridWidthOf (gridStyle "10px")) = true ->
        rowWidths w' frame = replicate 3 (Some (VNum (gridWidthOf (gridStyle "10px")))))
    /\ (Num.geb (gridGapOf (gridStyle "10px")) Num.zero = true ->
        rowWidths w' frame = replicate 3 (Some (VNum (gridWidthOf (gridStyle "10px"))))).
Proof.
  apply (renderNode_grid_rows hostAll plainOptions "div" [] (gridStyle "10px") sevenSpans
           0 None oneFrame).
  - reflexivity.
  - vm_compute. reflexivity.
  - vm_compute. reflexivity.
  - reflexivity.
  - reflexivity.
  - vm_compute. reflexivity.
  - intros k m Hm. cbn in Hm. rewrite lookup_empty in Hm. discriminate Hm.
  - vm_compute. lia.
Defined.

(** C2, the claim as written fails: a link laid out as the same grid of
    seven children is rendered as one text run, with no row at all; of
    seven children of a grid one of which is a [path], six are packed,
    in two rows of three; and on a host that loads no font the first
    text child ends the rendering before any row is made. *)
Lemma grid_children_without_rows :
  let wl := worldOf (renderNode hostAll plainOptions linkGrid 0 None oneFrame) in
  let wp := worldOf (renderNode hostAll plainOptions pathGrid 0 None oneFrame) in
  let wn := worldOf (renderNode hostNoFont plainOptions (gridOf "10px") 0 None oneFrame) in
  (isContainerTag "a" = false
   /\ completed (renderNode hostAll plainOptions linkGrid 0 None oneFrame) = true
   /\ findAll wl = [0; 1]
   /\ typeOf wl 1 = Some TEXT
   /\ strProp wl 1 "characters" = "1 2 3 4 5 6 7"%string
   /\ rowFrames wl = [])
  /\ (isContainerTag "div" = true
      /\ map rendersNode
           (map spanOf ["1"; "2"; "3"]%string ++ [JElement "path" [] ∅ []]
            ++ map spanOf ["5"; "6"; "7"]%string)
         = [true; true; true; false; true; true; true]
      /\ completed (renderNode hostAll plainOptions pathGrid 0 None oneFrame) = true
      /\ map (fun row => map (fun c => strProp wp c "characters") (childrenOf wp row))
           (childrenOf wp 1)
         = [["1"; "2"; "3"]; ["5"; "6"; "7"]]%string)
  /\ (loadFontAsync hostNoFont interRegular = false
      /\ completed (renderNode hostNoFont plainOptions (gridOf "10px") 0 None oneFrame) = false
      /\ childrenOf wn 1 = []).
Proof. vm_compute. repeat split. Qed.

(** ** The import and the nodes it finds *)

Lemma kept_waitForPending P c n1 w0 h w :
  kept P c n1 w0 w -> pendingFills (ctx w0) = [] -> kept P c n1 w0 (waitForPending h w).
Proof.
  intros HK H0. unfold waitForPending.
  assert (Hall : Forall (fun t => ~ P (task_node t)) (pendingFills (ctx w))).
  { destruct HK as (_ & _ & _ & _ & (new & -> & Hnew) & _). by rewrite H0. }
  revert Hall. generalize (pendingFills (ctx w)). intros tasks. revert w HK.
  induction tasks as [|t tasks IH]; intros w HK Hall; [exact HK|].
  cbn [fold_left]. apply IH; [|by apply Forall_inv_tail in Hall].
  apply kept_runFillTask; [exact HK|by apply Forall_inv in Hall].
Qed.

Lemma kept_finish P c n1 w0 h opts frame w :
  createStyles opts = false -> prototypeLinks opts = false ->
  pendingFills (ctx w0) = [] -> kept P c n1 w0 w ->
  kept P c n1 w0
    (postMessage Done
       (updDoc (setSelection [frame])
          (let w1 := resolvePrototypeLinksForPage opts (waitForPending h w) in
           if createStyles opts then createLocalStylesFromDocument h w1 else w1))).
Proof.
  intros Hcs Hpl H0 HK. cbv zeta. rewrite Hcs. unfold resolvePrototypeLinksForPage.
  rewrite Hpl. cbn [negb]. apply kept_postMessage, kept_setSelection.
  by apply kept_waitForPending.
Qed.

Lemma setProp_updCtx f id key v w :
  setProp id key v (updCtx f w) = updCtx f (setProp id key v w).
Proof. reflexivity. Qed.

Lemma resize_updCtx f id width height w :
  resize id width height (updCtx f w) = updCtx f (resize id width height w).
Proof. reflexivity. Qed.

Lemma appendToPage_updCtx f child w :
  appendToPage child (updCtx f w) = updCtx f (appendToPage child w).
Proof. reflexivity. Qed.

Lemma createNode_updCtx f t props w :
  createNode t props (updCtx f w)
  = (fst (createNode t props w), updCtx f (snd (createNode t props w))).
Proof. reflexivity. Qed.

Lemma createRootFrame_updCtx f vp w :
  createRootFrame vp (updCtx f w)
  = (fst (createRootFrame vp w), updCtx f (snd (createRootFrame vp w))).
Proof.
  unfold createRootFrame, createFrame. rewrite createNode_updCtx.
  destruct (createNode FRAME frameDefaults w) as [frame w1]. cbn [fst snd]. cbv zeta.
  repeat (rewrite setProp_updCtx || rewrite resize_updCtx).
  by rewrite appendToPage_updCtx.
Qed.

Lemma prepareFontsForPayload_grid h nodes w :
  gridMetaMap (globals (snd (prepareFontsForPayload h nodes w))) = gridMetaMap (globals w).
Proof. unfold prepareFontsForPayload. by destruct (ensureFonts _ _ _). Qed.

(** X17: an import that neither creates local styles nor resolves
    prototype links works on its own nodes only: in a well-formed
    document every node that was there before the import has afterwards
    the type, the children and the properties it had, whether the import
    came to its end or threw on the way. *)
Theorem import_leaves_document (h : Host) (payload : list JsonNode) (opts : Options)
    (w : World) :
  wellFormed w -> createStyles opts = false -> prototypeLinks opts = false ->
  forall id, id < nextId (doc w) ->
    getNode (worldOf (processImportMessage h payload opts w)) id = getNode w id.
Proof.
  intros [Hkids Hgrid] Hcs Hpl.
  unfold processImportMessage.
  destruct (prepareFontsForPayload_doc h payload w) as [Hdoc _].
  pose proof (prepareFontsForPayload_grid h payload w) as Hmeta.
  destruct (prepareFontsForPayload h payload w) as [rep w1]. cbn [snd] in Hdoc, Hmeta.
  set (w2 := match substitutions rep with [] => _ | _ => _ end).
  assert (Hd2 : doc w2 = doc w /\ gridMetaMap (globals w2) = gridMetaMap (globals w)).
  { subst w2. destruct (substitutions rep), (missing rep); cbn; by rewrite Hdoc, Hmeta. }
  destruct Hd2 as [Hd2 Hm2]. clearbody w2.
  set (n0 := nextId (doc w)).
  set (start := updCtx (fun _ => MkCtx 0 ∅ []) w2).
  assert (Hstart : forall id, getNode start id = getNode w id).
  { intros id. unfold getNode, start. cbn. by rewrite Hd2. }
  cut (kept (fun id => id < n0) n0 n0 start
         (worldOf (let '(frame, w3) := createRootFrame (viewport opts) w2 in
                   andThen (renderNodes h opts payload frame None
                              (updCtx (fun _ => MkCtx 0 ∅ []) w3))
                     (fun w4 =>
                        Ok (postMessage Done
                              (updDoc (setSelection [frame])
                                 (let w5 := resolvePrototypeLinksForPage opts
                                              (waitForPending h w4) in
                                  if createStyles opts
                                  then createLocalStylesFromDocument h w5 else w5))))))).
  { intros (_ & _ & Hold & _) id Hid. rewrite <- Hstart. by apply Hold. }
  assert (HK2 : kept (fun id => id < n0) n0 n0 start start).
  { split; [|split; [|split; [|split; [|split]]]].
    - split; [lia|]. split; [done|]. intros id n Hid Hn. rewrite Hstart in Hn.
      by apply (Hkids id n).
    - unfold start. cbn. by rewrite Hd2.
    - done.
    - done.
    - exists []. split; [by rewrite app_nil_r|apply Forall_nil_2].
    - intros k m i r Hk Hm _. unfold start in Hm. cbn in Hm. rewrite Hm2 in Hm.
      assert (k < n0) by (apply Hgrid; by eexists).
      destruct Hk; lia. }
  destruct (kept_createRootFrame _ _ _ _ (viewport opts) _ HK2) as [HK3 Hframe].
  unfold start in HK3 at 2. unfold start in Hframe.
  rewrite createRootFrame_updCtx in HK3, Hframe.
  destruct (createRootFrame (viewport opts) w2) as [frame w3]. cbn [fst snd] in HK3, Hframe.
  apply kept_andThen.
  - apply kept_renderNodes; [exact HK3|by right].
  - intros w4 HK4. cbn [worldOf]. by apply kept_finish.
Qed.

Lemma import_leaves_document_witness :
  getNode (worldOf (processImportMessage hostAll [flexRow] plainOptions oneFrame)) 0
  = getNode oneFrame 0.
Proof.
  apply (import_leaves_document hostAll [flexRow] plainOptions oneFrame).
  - split.
    + intros id n Hn. unfold oneFrame, getNode in Hn. cbn in Hn.
      destruct (decide (id = 0)) as [->|Hne].
      * rewrite lookup_insert_eq in Hn. injection Hn as <-. apply Forall_nil_2.
      * rewrite lookup_insert_ne, lookup_empty in Hn by done. discriminate Hn.
    + intros k [m Hm]. cbn in Hm. rewrite lookup_empty in Hm. discriminate Hm.
  - reflexivity.
  - reflexivity.
  - cbn. lia.
Defined.

(** ** Prototype links *)

Lemma prop_unmark a w q :
  prop (updDoc (updNodes (alter (fun n =>
          MkNode (ntype n) (nchildren n) (delete "__pendingTargetId"%string (nprops n))) a)) w)
    q "__pendingTargetId"
  = if decide (q = a) then None else prop w q "__pendingTargetId".
Proof.
  unfold prop, getNode. cbn. destruct (decide (q = a)) as [->|Hne].
  - rewrite lookup_alter_eq. destruct (nodes (doc w) !! a) as [n|]; [|reflexivity].
    cbn. apply lookup_delete_eq.
  - rewrite lookup_alter_ne by done. reflexivity.
Qed.

Lemma pendingTarget_step (byName : gmap string nat) w a q :
  pendingTarget
    (match prop w a "__pendingTargetId" with
     | Some (VStr pendingId) =>
         if String.eqb pendingId "" then w
         else
           let w' :=
             updDoc (updNodes (alter (fun n =>
               MkNode (ntype n) (nchildren n) (delete "__pendingTargetId"%string (nprops n)))
               a)) w in
           match orElseOpt (idToNode (ctx w') !! pendingId) (byName !! pendingId) with
           | Some destination => setProp a "reactions" (VReactions [destination]) w'
           | None => w'
           end
     | _ => w
     end) q
  = if decide (q = a) then None else pendingTarget w q.
Proof.
  assert (Hsame : forall v, prop w a "__pendingTargetId" = v ->
            (forall s, v = Some (VStr s) -> String.eqb s "" = true) ->
            pendingTarget w q = if decide (q = a) then None else pendingTarget w q).
  { intros v Hv Hs. destruct (decide (q = a)) as [->|_]; [|reflexivity].
    unfold pendingTarget. rewrite Hv. destruct v as [v'|]; [destruct v'|]; try reflexivity.
    by rewrite (Hs _ eq_refl). }
  destruct (prop w a "__pendingTargetId") as [v|] eqn:E;
    [|apply (Hsame None eq_refl); intros s Hs; discriminate Hs].
  destruct v; try (apply (Hsame _ eq_refl); intros s' Hs'; discriminate Hs').
  match goal with
  | |- context [String.eqb ?s ""] =>
      destruct (String.eqb s "") eqn:Es;
        [apply (Hsame _ eq_refl); intros s' [= <-]; exact Es|]
  end.
  cbv zeta. unfold pendingTarget at 1.
  match goal with
  | |- context [match ?o with Some d => setProp a _ _ ?W | None => _ end] =>
      assert (Hp : prop (match o with
                         | Some d => setProp a "reactions" (VReactions [d]) W
                         | None => W
                         end) q "__pendingTargetId"
                   = prop W q "__pendingTargetId")
        by (destruct o; [by apply prop_setProp_other_key|reflexivity])
  end.
  rewrite Hp, prop_unmark. by destruct (decide (q = a)).
Qed.

(** X18: with prototype links asked for, [resolvePrototypeLinksForPage]
    leaves no node of the page waiting for a link: after it no node that
    [findAll] reaches carries a non-empty [__pendingTargetId], whether
    its target was found or not; nodes outside the page keep theirs. *)
Theorem resolvePrototypeLinks_clears (opts : Options) (w : World) (node : nat) :
  prototypeLinks opts = true ->
  (In node (findAll w) -> pendingTarget (resolvePrototypeLinksForPage opts w) node = None)
  /\ (~ In node (findAll w) ->
        pendingTarget (resolvePrototypeLinksForPage opts w) node = pendingTarget w node).
Proof.
  intros Hpl. unfold resolvePrototypeLinksForPage. rewrite Hpl. cbn [negb]. cbv zeta.
  generalize (nameMap w (findAll w)) as byName. intros byName.
  generalize (findAll w) as l. intros l. revert w.
  induction l as [|a l IH]; intros w; [split; [intros []|reflexivity]|].
  cbn [fold_left]. destruct (IH
    (match prop w a "__pendingTargetId" with
     | Some (VStr pendingId) =>
         if String.eqb pendingId "" then w
         else
           let w' :=
             updDoc (updNodes (alter (fun n =>
               MkNode (ntype n) (nchildren n) (delete "__pendingTargetId"%string (nprops n)))
               a)) w in
           match orElseOpt (idToNode (ctx w') !! pendingId) (byName !! pendingId) with
           | Some destination => setProp a "reactions" (VReactions [destination]) w'
           | None => w'
           end
     | _ => w
     end)) as [IHin IHout].
  pose proof (pendingTarget_step byName w a node) as Hstep. cbv zeta in Hstep, IHin, IHout.
  split.
  - intros [->|Hin]; [|by apply IHin].
    destruct (in_dec Nat.eq_dec node l) as [Hin|Hout]; [by apply IHin|].
    rewrite (IHout Hout), Hstep. by destruct (decide (node = node)).
  - intros Hout. rewrite IHout by (intros Hin; apply Hout; by right).
    rewrite Hstep. destruct (decide (node = a)) as [->|_]; [|reflexivity].
    exfalso. apply Hout. by left.
Qed.

Lemma resolvePrototypeLinks_clears_witness :
  pendingTarget linkedFrame 0 = Some "hero"%string
  /\ pendingTarget (resolvePrototypeLinksForPage linkOptions linkedFrame) 0 = None.
Proof.
  split; [reflexivity|].
  apply (proj1 (resolvePrototypeLinks_clears linkOptions linkedFrame 0 eq_refl)).
  vm_compute. by left.
Defined.
